(** * Sistema de Gestão de Doações: allocation engine of [main.py]

    A shallow embedding of [SistemaDoacoes] (stock per category, three
    priority queues of request ids, the id-indexed request table and the
    allocation stack) together with the matching loop
    [_tentar_alocar_para_pedidos] and [desfazer_ultima_alocacao].

    Python integers are unbounded, hence [Z]; dictionaries are [gmap]s keyed
    by strings; deques and lists are lists (front = head).  The two outside
    collaborators, [uuid.uuid4] and [datetime.now], are oracles indexed by
    the number of calls made so far, which the state counts. *)

From Stdlib Require Import ZArith Lia.
From stdpp Require Import gmap strings list fin_maps pretty.

(** ** Data classes *)

Module Doador.
Record t := mk { id : string; nome : string; contato : string }.
End Doador.

Module ItemDoacao.
Record t := mk {
  id : string; nome : string; categoria : string;
  quantidade : Z; data : string }.

(** [item.quantidade = q] *)
Definition set_quantidade (q : Z) (i : t) : t :=
  mk (id i) (nome i) (categoria i) q (data i).
End ItemDoacao.

Module Pedido.
Record t := mk {
  id : string; solicitante : string; categoria : string;
  quantidade : Z; prioridade : string; data : string; atendido : bool }.

(** [pedido.quantidade = q] and [pedido.atendido = b] *)
Definition set_quantidade (q : Z) (p : t) : t :=
  mk (id p) (solicitante p) (categoria p) q (prioridade p) (data p) (atendido p).

Definition set_atendido (b : bool) (p : t) : t :=
  mk (id p) (solicitante p) (categoria p) (quantidade p) (prioridade p) (data p) b.
End Pedido.

Module Alocacao.
Record t := mk {
  id : string; item_id : string; pedido_id : string;
  quantidade : Z; data : string }.
End Alocacao.

(** What [log] is called with.  The source formats these into one string
    (using the data classes' [repr]); the entries are kept structured. *)
Inductive Texto :=
| DoadorCadastrado (d : Doador.t)
| DoacaoRegistrada (item : ItemDoacao.t) (doador_id : option string)
| PedidoCadastrado (p : Pedido.t)
| Alocado (qtd : Z) (nome_item categoria pedido_id : string)
| NenhumaAlocacao
| Desfeita (aloc_id : string) (qtd : Z).

(** ** The system state: the attributes set by [__init__], plus the number
    of calls made to [_novo_id] and to [_now]. *)
Record SistemaDoacoes := mkSistema {
  doadores : gmap string Doador.t;
  estoque : gmap string (list ItemDoacao.t);
  fila_alta : list string;
  fila_media : list string;
  fila_baixa : list string;
  pedidos : gmap string Pedido.t;
  historico_alocacoes : list Alocacao.t;
  logs : list (string * Texto);
  ids_gerados : nat;
  leituras_relogio : nat }.

Definition novo : SistemaDoacoes :=
  mkSistema ∅ ∅ [] [] [] ∅ [] [] 0 0.

Definition com_doadores (d : gmap string Doador.t) (s : SistemaDoacoes) :=
  mkSistema d (estoque s) (fila_alta s) (fila_media s) (fila_baixa s)
    (pedidos s) (historico_alocacoes s) (logs s) (ids_gerados s) (leituras_relogio s).

Definition com_estoque (e : gmap string (list ItemDoacao.t)) (s : SistemaDoacoes) :=
  mkSistema (doadores s) e (fila_alta s) (fila_media s) (fila_baixa s)
    (pedidos s) (historico_alocacoes s) (logs s) (ids_gerados s) (leituras_relogio s).

Definition com_fila_alta (f : list string) (s : SistemaDoacoes) :=
  mkSistema (doadores s) (estoque s) f (fila_media s) (fila_baixa s)
    (pedidos s) (historico_alocacoes s) (logs s) (ids_gerados s) (leituras_relogio s).

Definition com_fila_media (f : list string) (s : SistemaDoacoes) :=
  mkSistema (doadores s) (estoque s) (fila_alta s) f (fila_baixa s)
    (pedidos s) (historico_alocacoes s) (logs s) (ids_gerados s) (leituras_relogio s).

Definition com_fila_baixa (f : list string) (s : SistemaDoacoes) :=
  mkSistema (doadores s) (estoque s) (fila_alta s) (fila_media s) f
    (pedidos s) (historico_alocacoes s) (logs s) (ids_gerados s) (leituras_relogio s).

Definition com_pedidos (p : gmap string Pedido.t) (s : SistemaDoacoes) :=
  mkSistema (doadores s) (estoque s) (fila_alta s) (fila_media s) (fila_baixa s)
    p (historico_alocacoes s) (logs s) (ids_gerados s) (leituras_relogio s).

Definition com_historico (h : list Alocacao.t) (s : SistemaDoacoes) :=
  mkSistema (doadores s) (estoque s) (fila_alta s) (fila_media s) (fila_baixa s)
    (pedidos s) h (logs s) (ids_gerados s) (leituras_relogio s).

(** ** Python idioms *)

(** Truth value of a [str]: only the empty string is false. *)
Definition verdadeira (x : string) : bool := negb (String.eqb x "").

(** [d[k]] on a [defaultdict(list)]: a missing key is created with []. *)
Definition tocar (k : string) (e : gmap string (list ItemDoacao.t)) :
    gmap string (list ItemDoacao.t) :=
  match e !! k with
  | Some _ => e
  | None => <[k := []]> e
  end.

Definition itens_de (k : string) (e : gmap string (list ItemDoacao.t)) :
    list ItemDoacao.t :=
  default [] (e !! k).

(** [deque.remove(x)]: drops the first occurrence. *)
Fixpoint remove (x : string) (fila : list string) : list string :=
  match fila with
  | [] => []
  | y :: resto => if String.eqb y x then resto else y :: remove x resto
  end.

(** [x in fila]. *)
Definition contem (x : string) (fila : list string) : bool :=
  existsb (String.eqb x) fila.

(** [while fila[0] != found: fila.rotate(-1)], run for at most [n] rounds;
    [rotate(-1)] moves the leftmost entry to the right end. *)
Fixpoint girar (n : nat) (found : string) (fila : list string) : list string :=
  match fila with
  | [] => []
  | x :: resto =>
      if String.eqb x found then fila
      else match n with
           | O => fila
           | S n' => girar n' found (resto ++ [x])
           end
  end.

(** [found] is always an entry of [fila] when the loop is entered, so one
    full turn is enough (lemma [achar_frente]). *)
Definition trazer_para_frente (found : string) (fila : list string) : list string :=
  girar (length fila) found fila.

(** ** Queries *)

(** One entry of the lists [ver_estoque] returns: the dictionary with keys
    'id', 'nome', 'qtd' and 'data'. *)
Module ResumoItem.
Record t := mk { id : string; nome : string; qtd : Z; data : string }.
End ResumoItem.

(** The comprehension of line 233, for the units of one category. *)
Definition resumir (itens : list ItemDoacao.t) : list ResumoItem.t :=
  map (λ it, ResumoItem.mk (ItemDoacao.id it) (ItemDoacao.nome it)
               (ItemDoacao.quantidade it) (ItemDoacao.data it)) itens.

(** [ver_estoque]: every key of [self.estoque], with its units summarised
    in order.  The result is a dictionary, compared by its entries. *)
Definition ver_estoque (s : SistemaDoacoes) : gmap string (list ResumoItem.t) :=
  resumir <$> estoque s.

(** A collision-free id generator and a clock, for the closed instances. *)
Definition uuid_ex (n : nat) : string := "id" +:+ pretty n.
Definition agora_ex (n : nat) : string := "t" +:+ pretty n.

Section Motor.

(** The n-th result of [str(uuid.uuid4())[:8]] and of
    [datetime.now().isoformat()]. *)
Variable uuid : nat -> string.
Variable agora : nat -> string.

(** ** Utilities *)

Definition _now (s : SistemaDoacoes) : string * SistemaDoacoes :=
  (agora (leituras_relogio s),
   mkSistema (doadores s) (estoque s) (fila_alta s) (fila_media s) (fila_baixa s)
     (pedidos s) (historico_alocacoes s) (logs s) (ids_gerados s)
     (S (leituras_relogio s))).

Definition _novo_id (s : SistemaDoacoes) : string * SistemaDoacoes :=
  (uuid (ids_gerados s),
   mkSistema (doadores s) (estoque s) (fila_alta s) (fila_media s) (fila_baixa s)
     (pedidos s) (historico_alocacoes s) (logs s) (S (ids_gerados s))
     (leituras_relogio s)).

Definition log (texto : Texto) (s : SistemaDoacoes) : SistemaDoacoes :=
  let '(ts, s) := _now s in
  mkSistema (doadores s) (estoque s) (fila_alta s) (fila_media s) (fila_baixa s)
    (pedidos s) (historico_alocacoes s) (logs s ++ [(ts, texto)]) (ids_gerados s)
    (leituras_relogio s).

Definition cadastrar_doador (nome contato : string) (s : SistemaDoacoes) :
    Doador.t * SistemaDoacoes :=
  let '(id_, s) := _novo_id s in
  let doador := Doador.mk id_ nome contato in
  let s := com_doadores (<[id_ := doador]> (doadores s)) s in
  let s := log (DoadorCadastrado doador) s in
  (doador, s).

(** ** Matching *)

(** [prox_pedido]: head of the first non-empty queue. *)
Definition prox_pedido (s : SistemaDoacoes) : option string :=
  match fila_alta s with
  | x :: _ => Some x
  | [] =>
      match fila_media s with
      | x :: _ => Some x
      | [] =>
          match fila_baixa s with
          | x :: _ => Some x
          | [] => None
          end
      end
  end.

(** [if fila and fila[0] == pedido_id: fila.popleft()], for one queue. *)
Definition descartar_frente (pedido_id : string) (fila : list string) : list string :=
  match fila with
  | x :: resto => if String.eqb x pedido_id then resto else fila
  | [] => []
  end.

(** Lines 147-149: the stale head is dropped from every queue it heads. *)
Definition descartar (pedido_id : string) (s : SistemaDoacoes) : SistemaDoacoes :=
  mkSistema (doadores s) (estoque s)
    (descartar_frente pedido_id (fila_alta s))
    (descartar_frente pedido_id (fila_media s))
    (descartar_frente pedido_id (fila_baixa s))
    (pedidos s) (historico_alocacoes s) (logs s) (ids_gerados s) (leituras_relogio s).

(** [p and not p.atendido and p.categoria == categoria] for
    [p = self.pedidos.get(pid)]. *)
Definition compativel (categoria : string) (ps : gmap string Pedido.t)
    (pid : string) : bool :=
  match ps !! pid with
  | Some p => negb (Pedido.atendido p) && String.eqb (Pedido.categoria p) categoria
  | None => false
  end.

(** The inner [for pid in list(fila)] of lines 155-159. *)
Definition achar (categoria : string) (ps : gmap string Pedido.t)
    (fila : list string) : option string :=
  find (compativel categoria ps) fila.

(** [if found:] after scanning one queue. *)
Definition achado (r : option string) : option string :=
  match r with
  | Some found => if verdadeira found then Some found else None
  | None => None
  end.

(** Lines 153-166: scan the queues in priority order; the first queue with
    a compatible request is rotated until that request is in front. *)
Definition buscar (categoria : string) (s : SistemaDoacoes) :
    option (string * SistemaDoacoes) :=
  match achado (achar categoria (pedidos s) (fila_alta s)) with
  | Some found =>
      Some (found, com_fila_alta (trazer_para_frente found (fila_alta s)) s)
  | None =>
      match achado (achar categoria (pedidos s) (fila_media s)) with
      | Some found =>
          Some (found, com_fila_media (trazer_para_frente found (fila_media s)) s)
      | None =>
          match achado (achar categoria (pedidos s) (fila_baixa s)) with
          | Some found =>
              Some (found, com_fila_baixa (trazer_para_frente found (fila_baixa s)) s)
          | None => None
          end
      end
  end.

(** One queue of the loop of lines 188-194: [Some] when it [break]s. *)
Definition tirar (pid : string) (fila : list string) : option (list string) :=
  match fila with
  | x :: resto =>
      if String.eqb x pid then Some resto
      else if contem pid fila then Some (remove pid fila)
      else None
  | [] => None
  end.

Definition remover_das_filas (pid : string) (s : SistemaDoacoes) : SistemaDoacoes :=
  match tirar pid (fila_alta s) with
  | Some f => com_fila_alta f s
  | None =>
      match tirar pid (fila_media s) with
      | Some f => com_fila_media f s
      | None =>
          match tirar pid (fila_baixa s) with
          | Some f => com_fila_baixa f s
          | None => s
          end
      end
  end.

(** What one round of [while True] ends with. *)
Inductive Passo :=
| Para (s : SistemaDoacoes)       (* break *)
| Continua (s : SistemaDoacoes).  (* continue, or the end of the body *)

(** Lines 173-194: the allocation of the front unit [item] (followed by
    [resto] in its category) to the request stored under [chave]. *)
Definition efetivar (categoria chave : string) (pedido : Pedido.t)
    (item : ItemDoacao.t) (resto : list ItemDoacao.t)
    (s : SistemaDoacoes) : SistemaDoacoes :=
  let alocar_qtd := Z.min (ItemDoacao.quantidade item) (Pedido.quantidade pedido) in
  let '(aloc_id, s) := _novo_id s in
  let '(ts, s) := _now s in
  let aloc :=
    Alocacao.mk aloc_id (ItemDoacao.id item) (Pedido.id pedido) alocar_qtd ts in
  let s := com_historico (historico_alocacoes s ++ [aloc]) s in
  let s :=
    log (Alocado alocar_qtd (ItemDoacao.nome item) categoria (Pedido.id pedido)) s in
  let item :=
    ItemDoacao.set_quantidade (ItemDoacao.quantidade item - alocar_qtd) item in
  let pedido :=
    Pedido.set_quantidade (Pedido.quantidade pedido - alocar_qtd) pedido in
  let s :=
    com_estoque
      (<[categoria := if (ItemDoacao.quantidade item <=? 0)%Z
                      then resto else item :: resto]> (estoque s)) s in
  if (Pedido.quantidade pedido <=? 0)%Z then
    let pedido := Pedido.set_atendido true pedido in
    let s := com_pedidos (<[chave := pedido]> (pedidos s)) s in
    remover_das_filas (Pedido.id pedido) s
  else
    com_pedidos (<[chave := pedido]> (pedidos s)) s.

(** Lines 170-194, entered with the request stored under [chave]. *)
Definition alocar (categoria chave : string) (pedido : Pedido.t)
    (s : SistemaDoacoes) : Passo :=
  let s := com_estoque (tocar categoria (estoque s)) s in
  match itens_de categoria (estoque s) with
  | [] => Para s
  | item :: resto => Continua (efetivar categoria chave pedido item resto s)
  end.

(** The body of [while True] in [_tentar_alocar_para_pedidos]. *)
Definition passo (categoria : string) (s : SistemaDoacoes) : Passo :=
  match prox_pedido s with
  | None => Para s
  | Some pedido_id =>
      if negb (verdadeira pedido_id) then Para s
      else
        match pedidos s !! pedido_id with
        | None => Continua (descartar pedido_id s)
        | Some pedido =>
            if Pedido.atendido pedido then Continua (descartar pedido_id s)
            else if negb (String.eqb (Pedido.categoria pedido) categoria) then
              match buscar categoria s with
              | None => Para s
              | Some (found, s) =>
                  match pedidos s !! found with
                  | Some pedido => alocar categoria found pedido s
                  | None => Para s (* KeyError; [found] was just looked up *)
                  end
              end
            else alocar categoria pedido_id pedido s
        end
  end.

(** The loop, for at most [n] rounds. *)
Fixpoint iterar (n : nat) (categoria : string) (s : SistemaDoacoes) :
    option SistemaDoacoes :=
  match n with
  | O => None
  | S n' =>
      match passo categoria s with
      | Para s' => Some s'
      | Continua s' => iterar n' categoria s'
      end
  end.

(** Number of requests not yet marked [atendido]. *)
Definition pendentes (ps : gmap string Pedido.t) : nat :=
  size (filter (λ kp, Pedido.atendido kp.2 = false) ps).

(** Every round that does not [break] lowers this number (lemma
    [passo_medida]), so [S (medida categoria s)] rounds always reach the
    [break] (lemma [iterar_medida]). *)
Definition medida (categoria : string) (s : SistemaDoacoes) : nat :=
  length (itens_de categoria (estoque s)) + pendentes (pedidos s)
  + (length (fila_alta s) + length (fila_media s) + length (fila_baixa s)).

Definition _tentar_alocar_para_pedidos (categoria : string) (s : SistemaDoacoes) :
    SistemaDoacoes :=
  match iterar (S (medida categoria s)) categoria s with
  | Some s' => s'
  | None => s
  end.

(** ** Donations and requests

    The Python methods return the new record itself, an object the matching
    loop may have updated by the time it is returned; here they return its
    id next to the new state.  A request stays stored under that id in
    [pedidos]; a unit is in the stock of its category until used up. *)

Definition registrar_doacao (nome_item categoria : string) (quantidade : Z)
    (doador_id : option string) (s : SistemaDoacoes) :
    string * SistemaDoacoes :=
  let '(id_, s) := _novo_id s in
  let '(ts, s) := _now s in
  let item := ItemDoacao.mk id_ nome_item categoria quantidade ts in
  let s := com_estoque
             (<[categoria := itens_de categoria (estoque s) ++ [item]]> (estoque s)) s in
  let s := log (DoacaoRegistrada item doador_id) s in
  (id_, _tentar_alocar_para_pedidos categoria s).

Definition cadastrar_pedido (solicitante categoria : string) (quantidade : Z)
    (prioridade : string) (s : SistemaDoacoes) : string * SistemaDoacoes :=
  let '(id_, s) := _novo_id s in
  let '(ts, s) := _now s in
  let pedido := Pedido.mk id_ solicitante categoria quantidade prioridade ts false in
  let s := com_pedidos (<[id_ := pedido]> (pedidos s)) s in
  let s :=
    if String.eqb prioridade "alta" then com_fila_alta (fila_alta s ++ [id_]) s
    else if String.eqb prioridade "media" then com_fila_media (fila_media s ++ [id_]) s
    else com_fila_baixa (fila_baixa s ++ [id_]) s in
  let s := log (PedidoCadastrado pedido) s in
  (id_, _tentar_alocar_para_pedidos categoria s).

(** ** Undo *)

Definition desfazer_ultima_alocacao (s : SistemaDoacoes) : bool * SistemaDoacoes :=
  match reverse (historico_alocacoes s) with
  | [] => (false, log NenhumaAlocacao s)
  | aloc :: antes =>
      let s := com_historico (reverse antes) s in
      let '(ts, s) := _now s in
      let item_recriado :=
        ItemDoacao.mk (Alocacao.item_id aloc)
          ("Item_recuperado_" +:+ Alocacao.item_id aloc)
          "Desconhecido" (Alocacao.quantidade aloc) ts in
      let s :=
        match pedidos s !! Alocacao.pedido_id aloc with
        | Some pedido =>
            let '(pedido, s) :=
              if Pedido.atendido pedido then
                let pedido := Pedido.set_atendido false pedido in
                (pedido,
                 if String.eqb (Pedido.prioridade pedido) "alta"
                 then com_fila_alta (Pedido.id pedido :: fila_alta s) s
                 else if String.eqb (Pedido.prioridade pedido) "media"
                 then com_fila_media (Pedido.id pedido :: fila_media s) s
                 else com_fila_baixa (Pedido.id pedido :: fila_baixa s) s)
              else (pedido, s) in
            let pedido :=
              Pedido.set_quantidade
                (Pedido.quantidade pedido + Alocacao.quantidade aloc) pedido in
            com_pedidos (<[Alocacao.pedido_id aloc := pedido]> (pedidos s)) s
        | None => s
        end in
      let s :=
        com_estoque
          (<[ItemDoacao.categoria item_recriado :=
               itens_de (ItemDoacao.categoria item_recriado) (estoque s)
               ++ [item_recriado]]> (estoque s)) s in
      let s := log (Desfeita (Alocacao.id aloc) (Alocacao.quantidade aloc)) s in
      (true, s)
  end.


(** * Specification *)

(** Number of queued ids. *)
Definition total_filas (s : SistemaDoacoes) : nat :=
  length (fila_alta s) + length (fila_media s) + length (fila_baixa s).

(** The request a round settles on: the head of the first non-empty queue
    when it is compatible, else the one the scan brings to the front. *)
Inductive escolhe (c : string) (s : SistemaDoacoes) :
    string → Pedido.t → SistemaDoacoes → Prop :=
| escolhe_frente pid p :
    prox_pedido s = Some pid → pid ≠ "" →
    pedidos s !! pid = Some p → Pedido.atendido p = false →
    Pedido.categoria p = c →
    escolhe c s pid p s
| escolhe_busca pid p found p' s1 :
    prox_pedido s = Some pid → pid ≠ "" →
    pedidos s !! pid = Some p → Pedido.atendido p = false →
    Pedido.categoria p ≠ c →
    buscar c s = Some (found, s1) → pedidos s !! found = Some p' →
    escolhe c s found p' s1.

(** The five ways through the body of the loop. *)
Inductive caso (c : string) (s : SistemaDoacoes) : Passo → Prop :=
| caso_vazio :
    prox_pedido s = None → caso c s (Para s)
| caso_id_vazio :
    prox_pedido s = Some "" → caso c s (Para s)
| caso_obsoleto pid :
    prox_pedido s = Some pid → pid ≠ "" →
    (pedidos s !! pid = None ∨
     ∃ p, pedidos s !! pid = Some p ∧ Pedido.atendido p = true) →
    caso c s (Continua (descartar pid s))
| caso_sem_pedido pid p :
    prox_pedido s = Some pid → pid ≠ "" →
    pedidos s !! pid = Some p → Pedido.atendido p = false →
    Pedido.categoria p ≠ c → buscar c s = None →
    caso c s (Para s)
| caso_aloca chave p s1 :
    escolhe c s chave p s1 → caso c s (alocar c chave p s1).

(** One round of the loop that does not stop, as a relation; its
    reflexive-transitive closure gives the states a run passes through. *)
Definition rodada (c : string) (s s' : SistemaDoacoes) : Prop :=
  passo c s = Continua s'.

(** Allocation [a] pairs, in state [s], the oldest unit of category [c]
    with a stored request, for the smaller of their two quantities. *)
Definition par_alocado (c : string) (s : SistemaDoacoes) (a : Alocacao.t) : Prop :=
  ∃ chave pedido item resto,
    pedidos s !! chave = Some pedido ∧
    itens_de c (estoque s) = item :: resto ∧
    Alocacao.item_id a = ItemDoacao.id item ∧
    Alocacao.pedido_id a = Pedido.id pedido ∧
    Alocacao.quantidade a =
      Z.min (ItemDoacao.quantidade item) (Pedido.quantidade pedido) ∧
    (Alocacao.quantidade a ≤ ItemDoacao.quantidade item)%Z ∧
    (Alocacao.quantidade a ≤ Pedido.quantidade pedido)%Z.

(** The entries of a queue other than [found], in order. *)
Definition outros (found : string) (fila : list string) : list string :=
  filter (λ x, x ≠ found) fila.

(** Sums over a list and over the values of a dictionary. *)
Definition soma_lista {A} (f : A → Z) (l : list A) : Z :=
  foldr (λ x acc, (f x + acc)%Z) 0%Z l.

Definition soma_mapa {A} (f : A → Z) (m : gmap string A) : Z :=
  map_fold (λ _ x acc, (f x + acc)%Z) 0%Z m.

(** Supply: the units of category [c] in stock.  Demand: what the
    unsatisfied requests of category [c] still ask for. *)
Definition oferta (c : string) (s : SistemaDoacoes) : Z :=
  soma_lista ItemDoacao.quantidade (itens_de c (estoque s)).

Definition falta (c : string) (p : Pedido.t) : Z :=
  if negb (Pedido.atendido p) && String.eqb (Pedido.categoria p) c
  then Pedido.quantidade p else 0%Z.

Definition demanda (c : string) (s : SistemaDoacoes) : Z :=
  soma_mapa (falta c) (pedidos s).

(** The state a round leaves, whether it stops or goes on. *)
Definition estado_de (r : Passo) : SistemaDoacoes :=
  match r with
  | Para s => s
  | Continua s => s
  end.

(** What matching may change in a request: nothing if it is satisfied;
    else only its remaining quantity and its [atendido] flag. *)
Definition mesmo_pedido (p p' : Pedido.t) : Prop :=
  Pedido.id p' = Pedido.id p ∧
  Pedido.solicitante p' = Pedido.solicitante p ∧
  Pedido.categoria p' = Pedido.categoria p ∧
  Pedido.prioridade p' = Pedido.prioridade p ∧
  Pedido.data p' = Pedido.data p.

Definition avanca (p p' : Pedido.t) : Prop :=
  p' = p ∨ (Pedido.atendido p = false ∧ mesmo_pedido p p').

(** What matching for category [c] may change in the system. *)
Record progresso (c : string) (s s' : SistemaDoacoes) : Prop := {
  pr_doadores : doadores s' = doadores s;
  pr_pedidos :
    ∀ k, match pedidos s !! k with
         | Some p => ∃ p', pedidos s' !! k = Some p' ∧ avanca p p'
         | None => pedidos s' !! k = None
         end;
  pr_fila_alta : fila_alta s' ⊆+ fila_alta s;
  pr_fila_media : fila_media s' ⊆+ fila_media s;
  pr_fila_baixa : fila_baixa s' ⊆+ fila_baixa s;
  pr_estoque : ∀ k, k ≠ c → itens_de k (estoque s') = itens_de k (estoque s);
  pr_livros :
    ∃ novas,
      historico_alocacoes s' = historico_alocacoes s ++ novas ∧
      (oferta c s' + soma_lista Alocacao.quantidade novas = oferta c s)%Z
}.

(** The queue a priority string selects (lines 116-121 and 217-222):
    0 for 'alta', 1 for 'media', 2 for anything else. *)
Definition nivel (prioridade : string) : nat :=
  if String.eqb prioridade "alta" then 0
  else if String.eqb prioridade "media" then 1
  else 2.

(** All queued ids, in the order the queues are served. *)
Definition todas (s : SistemaDoacoes) : list string :=
  fila_alta s ++ fila_media s ++ fila_baixa s.

(** Every queued id is a non-empty string under which an unsatisfied
    request is stored. *)
Definition filas_validas (s : SistemaDoacoes) : Prop :=
  ∀ pid, pid ∈ todas s →
    pid ≠ "" ∧ ∃ p, pedidos s !! pid = Some p ∧ Pedido.atendido p = false.

(** No queued request is compatible with category [c]; no unit of
    category [c] is in stock. *)
Definition sem_pedido (c : string) (s : SistemaDoacoes) : Prop :=
  ∀ pid, pid ∈ todas s → compativel c (pedidos s) pid = false.

Definition sem_estoque (c : string) (s : SistemaDoacoes) : Prop :=
  itens_de c (estoque s) = [].

(** An operation left the engine's shared structures as they were. *)
Definition rejeitada (s s' : SistemaDoacoes) : Prop :=
  estoque s' = estoque s ∧ pedidos s' = pedidos s ∧
  fila_alta s' = fila_alta s ∧ fila_media s' = fila_media s ∧
  fila_baixa s' = fila_baixa s ∧
  historico_alocacoes s' = historico_alocacoes s.

(** The public operations, as data, and runs of them from the empty
    system. *)
Inductive Operacao :=
| OpDoador (nome contato : string)
| OpDoacao (nome_item categoria : string) (quantidade : Z)
    (doador_id : option string)
| OpPedido (solicitante categoria : string) (quantidade : Z) (prioridade : string)
| OpDesfazer.

Definition executar (op : Operacao) (s : SistemaDoacoes) : SistemaDoacoes :=
  match op with
  | OpDoador nome contato => (cadastrar_doador nome contato s).2
  | OpDoacao nome_item categoria quantidade doador_id =>
      (registrar_doacao nome_item categoria quantidade doador_id s).2
  | OpPedido solicitante categoria quantidade prioridade =>
      (cadastrar_pedido solicitante categoria quantidade prioridade s).2
  | OpDesfazer => (desfazer_ultima_alocacao s).2
  end.

Definition executar_todas (ops : list Operacao) (s : SistemaDoacoes) :
    SistemaDoacoes :=
  foldl (λ s op, executar op s) s ops.

(** The quantities an operation brings in are positive. *)
Definition op_positiva (op : Operacao) : Prop :=
  match op with
  | OpDoacao _ _ quantidade _ => (0 < quantidade)%Z
  | OpPedido _ _ quantidade _ => (0 < quantidade)%Z
  | _ => True
  end.

(** The queue of a priority string. *)
Definition fila_de (prioridade : string) (s : SistemaDoacoes) : list string :=
  match nivel prioridade with
  | 0 => fila_alta s
  | 1 => fila_media s
  | _ => fila_baixa s
  end.

(** What holds of the request table and the queues in every state the
    operations lead to. *)
Record invariante (s : SistemaDoacoes) : Prop := {
  inv_chaves : ∀ k p, pedidos s !! k = Some p → Pedido.id p = k;
  inv_ids : ∀ k, is_Some (pedidos s !! k) → ∃ n, n < ids_gerados s ∧ k = uuid n;
  inv_nodup : NoDup (todas s);
  inv_fila :
    ∀ k, k ∈ todas s → ∃ p, pedidos s !! k = Some p ∧ Pedido.atendido p = false;
  inv_pendente :
    ∀ k p, pedidos s !! k = Some p → Pedido.atendido p = false →
      k ∈ fila_de (Pedido.prioridade p) s
}.

(** Quantities when only positive ones are brought in. *)
Record positivo (s : SistemaDoacoes) : Prop := {
  pos_pedidos :
    ∀ k p, pedidos s !! k = Some p →
      (0 ≤ Pedido.quantidade p)%Z ∧
      (Pedido.atendido p = false → (0 < Pedido.quantidade p)%Z);
  pos_estoque :
    ∀ c item, item ∈ itens_de c (estoque s) → (0 < ItemDoacao.quantidade item)%Z;
  pos_historico :
    ∀ a, a ∈ historico_alocacoes s → (0 < Alocacao.quantidade a)%Z
}.

(** What is assumed of the id generator: it never repeats an id (the
    "collision-free" of the external interface), and no id is empty. *)
Definition ids_distintos : Prop := ∀ n m, uuid n = uuid m → n = m.
Definition ids_nao_vazios : Prop := ∀ n, uuid n ≠ "".

(** The queues by level, in the order the loop serves them. *)
Definition fila_nivel (n : nat) (s : SistemaDoacoes) : list string :=
  match n with
  | 0 => fila_alta s
  | 1 => fila_media s
  | _ => fila_baixa s
  end.


(** The donations a run registers: id given to the unit, category,
    quantity. *)
Definition doacao_de (op : Operacao) (s : SistemaDoacoes) :
    list (string * string * Z) :=
  match op with
  | OpDoacao _ categoria quantidade _ =>
      [(uuid (ids_gerados s), categoria, quantidade)]
  | _ => []
  end.

Fixpoint doacoes_de (ops : list Operacao) (s : SistemaDoacoes) :
    list (string * string * Z) :=
  match ops with
  | [] => []
  | op :: resto => doacao_de op s ++ doacoes_de resto (executar op s)
  end.

(** The category a unit id was donated to. *)
Fixpoint origem (reg : list (string * string * Z)) (id : string) : option string :=
  match reg with
  | [] => None
  | (i, c, _) :: resto => if String.eqb i id then Some c else origem resto id
  end.

(** Quantity [q] counts for category [c] when it belongs to a unit whose id
    was donated to [c]. *)
Definition peso (reg : list (string * string * Z)) (c id : string) (q : Z) : Z :=
  match origem reg id with
  | Some c' => if String.eqb c' c then q else 0%Z
  | None => 0%Z
  end.

(** Total donated to [c]; what is in stock, in whatever category, of the
    units donated to [c]; what the allocations in the history took from
    units donated to [c]. *)
Definition doado (reg : list (string * string * Z)) (c : string) : Z :=
  soma_lista (λ d, if String.eqb d.1.2 c then d.2 else 0%Z) reg.

Definition em_estoque (reg : list (string * string * Z)) (c : string)
    (s : SistemaDoacoes) : Z :=
  soma_mapa
    (soma_lista (λ u, peso reg c (ItemDoacao.id u) (ItemDoacao.quantidade u)))
    (estoque s).

Definition alocado (reg : list (string * string * Z)) (c : string)
    (s : SistemaDoacoes) : Z :=
  soma_lista (λ a, peso reg c (Alocacao.item_id a) (Alocacao.quantidade a))
    (historico_alocacoes s).

(** The books balance for every category, and every unit id in stock or in
    the history is one of the ids donated. *)
Record contas (reg : list (string * string * Z)) (s : SistemaDoacoes) : Prop := {
  ct_soma : ∀ c, (em_estoque reg c s + alocado reg c s = doado reg c)%Z;
  ct_ids : ∀ d, d ∈ reg → ∃ n, n < ids_gerados s ∧ d.1.1 = uuid n;
  ct_estoque :
    ∀ k u, u ∈ itens_de k (estoque s) → is_Some (origem reg (ItemDoacao.id u));
  ct_historico :
    ∀ a, a ∈ historico_alocacoes s → is_Some (origem reg (Alocacao.item_id a))
}.


Definition ops_ex : list Operacao :=
  [OpDoacao "Arroz" "Alimentos" 5 None;
   OpPedido "Fam A" "Alimentos" 7 "alta";
   OpDesfazer].


(** ** Further notions *)

(** No unsatisfied request of category [c] is stored. *)
Definition sem_pendente (c : string) (s : SistemaDoacoes) : Prop :=
  ∀ k p, pedidos s !! k = Some p → Pedido.atendido p = false →
    Pedido.categoria p ≠ c.

(** Nothing is left to pair, in any category. *)
Definition casado (s : SistemaDoacoes) : Prop :=
  ∀ c, sem_estoque c s ∨ sem_pedido c s.

Definition e_desfazer (op : Operacao) : bool :=
  match op with OpDesfazer => true | _ => false end.

Definition e_pedido (op : Operacao) : bool :=
  match op with OpPedido _ _ _ _ => true | _ => false end.

Definition e_doador (op : Operacao) : bool :=
  match op with OpDoador _ _ => true | _ => false end.

Definition quantos (f : Operacao → bool) (ops : list Operacao) : nat :=
  length (List.filter f ops).

(** [l'] is what is left of the units [l] when they are used from the
    front: a tail of [l], whose first unit may have a new quantity. *)
Definition consumido (l l' : list ItemDoacao.t) : Prop :=
  ∃ antes,
    l = antes ++ l' ∨
    ∃ item resto q,
      l = antes ++ item :: resto ∧
      l' = ItemDoacao.set_quantidade q item :: resto.

(** A satisfied request has nothing left to ask for. *)
Definition quitado (s : SistemaDoacoes) : Prop :=
  ∀ k p, pedidos s !! k = Some p → Pedido.atendido p = true →
    Pedido.quantidade p = 0%Z.

(** Ids of donors and of allocations come from the generator, allocation
    ids do not repeat, and every allocation names a stored request. *)
Record registros (s : SistemaDoacoes) : Prop := {
  rg_doadores :
    ∀ k, is_Some (doadores s !! k) → ∃ n, n < ids_gerados s ∧ k = uuid n;
  rg_aloc_ids :
    ∀ a, a ∈ historico_alocacoes s →
      ∃ n, n < ids_gerados s ∧ Alocacao.id a = uuid n;
  rg_aloc_nodup : NoDup (Alocacao.id <$> historico_alocacoes s);
  rg_aloc_pedido :
    ∀ a, a ∈ historico_alocacoes s → is_Some (pedidos s !! Alocacao.pedido_id a)
}.

(** The requests a run registers: id given, quantity asked. *)
Definition pedido_de (op : Operacao) (s : SistemaDoacoes) : list (string * Z) :=
  match op with
  | OpPedido _ _ quantidade _ => [(uuid (ids_gerados s), quantidade)]
  | _ => []
  end.

Fixpoint pedidos_de (ops : list Operacao) (s : SistemaDoacoes) :
    list (string * Z) :=
  match ops with
  | [] => []
  | op :: resto => pedido_de op s ++ pedidos_de resto (executar op s)
  end.

(** What the allocations in the history gave to the request [k]. *)
Definition recebido (k : string) (s : SistemaDoacoes) : Z :=
  soma_lista
    (λ a, if String.eqb (Alocacao.pedido_id a) k
          then Alocacao.quantidade a else 0%Z)
    (historico_alocacoes s).

(** Every registered request is stored, and what it still asks for plus
    what it was given is what it asked for. *)
Definition pedidos_conferem (reg : list (string * Z)) (s : SistemaDoacoes) : Prop :=
  ∀ k q, (k, q) ∈ reg →
    ∃ p, pedidos s !! k = Some p ∧
      (Pedido.quantidade p + recebido k s = q)%Z.

(** All the units in stock, whatever their category. *)
Definition estoque_total (s : SistemaDoacoes) : Z :=
  soma_mapa (soma_lista ItemDoacao.quantidade) (estoque s).

(** Everything ever put in stock or allocated and not undone. *)
Definition em_circulacao (s : SistemaDoacoes) : Z :=
  (estoque_total s + soma_lista Alocacao.quantidade (historico_alocacoes s))%Z.

(** The quantities the donations of a run bring in. *)
Definition total_doado (ops : list Operacao) : Z :=
  soma_lista
    (λ op, match op with OpDoacao _ _ quantidade _ => quantidade | _ => 0%Z end)
    ops.

(** During a run of the loop started in [s]: the requests that none of the
    new allocations names are as they were, and the requests named were
    unsatisfied in [s]. *)
Definition rastro (s : SistemaDoacoes) (novas : list Alocacao.t)
    (s1 : SistemaDoacoes) : Prop :=
  historico_alocacoes s1 = historico_alocacoes s ++ novas ∧
  (∀ k, (∀ a, a ∈ novas → Alocacao.pedido_id a ≠ k) →
     pedidos s1 !! k = pedidos s !! k) ∧
  (∀ a, a ∈ novas →
     ∃ p, pedidos s !! Alocacao.pedido_id a = Some p ∧ Pedido.atendido p = false).




(** A donation of 5 met by a request for 7: one allocation of 5, and the
    request waits for 2 more. *)
Definition ops_parcial : list Operacao :=
  [OpDoacao "Arroz" "Alimentos" 5 None; OpPedido "Fam A" "Alimentos" 7 "alta"].

(** A donation of 5 met by a request for 4, which it satisfies. *)
Definition ops_atendido : list Operacao :=
  [OpDoacao "Arroz" "Alimentos" 5 None; OpPedido "Fam A" "Alimentos" 4 "alta"].

(** * Properties *)

(** ** Strings and queues *)


Lemma contem_elem (x : string) (fila : list string) :
  contem x fila = true ↔ x ∈ fila.
Proof.
  unfold contem. rewrite existsb_exists. split.
  - intros (y & Hy & Heq). apply String.eqb_eq in Heq. subst.
    by apply list_elem_of_In.
  - intros Hx. exists x. split; [by apply list_elem_of_In | apply String.eqb_refl].
Qed.


Lemma girar_perm n found fila : girar n found fila ≡ₚ fila.
Proof.
  revert fila. induction n as [|n IH]; intros [|x resto]; simpl; try done.
  - by destruct (String.eqb x found).
  - destruct (String.eqb x found); [done|].
    rewrite IH. by rewrite Permutation_app_comm.
Qed.

(** The rotation stops with [found] in front, after moving everything that
    preceded it to the back. *)
Lemma girar_app n found antes depois :
  (found ∉ antes) → length antes ≤ n →
  girar n found (antes ++ found :: depois) = found :: depois ++ antes.
Proof.
  revert n depois. induction antes as [|y antes IH]; intros n depois Hnot Hlen.
  - simpl. destruct n; simpl; rewrite String.eqb_refl; by rewrite app_nil_r.
  - destruct n as [|n]; [simpl in Hlen; lia|].
    simpl. apply not_elem_of_cons in Hnot as [Hne Hnot].
    destruct (String.eqb_spec y found) as [->|_]; [done|].
    rewrite <- app_assoc. simpl.
    rewrite (IH n (depois ++ [y])); [|done|simpl in Hlen; lia].
    by rewrite <- app_assoc.
Qed.

Lemma trazer_para_frente_app found antes depois :
  (found ∉ antes) →
  trazer_para_frente found (antes ++ found :: depois) = found :: depois ++ antes.
Proof.
  intros Hnot. unfold trazer_para_frente. apply girar_app; [done|].
  rewrite length_app. lia.
Qed.

Lemma remove_length x fila : length (remove x fila) ≤ length fila.
Proof.
  induction fila as [|y resto IH]; simpl; [lia|].
  destruct (String.eqb y x); simpl; lia.
Qed.



(** ** The pieces of one round *)

Lemma itens_de_tocar c k e : itens_de c (tocar k e) = itens_de c e.
Proof.
  unfold itens_de, tocar. destruct (e !! k) eqn:Hk; [done|].
  destruct (decide (k = c)) as [->|Hne].
  - by rewrite lookup_insert_eq, Hk.
  - by rewrite lookup_insert_ne.
Qed.

Lemma itens_de_insert c l e : itens_de c (<[c := l]> e) = l.
Proof. unfold itens_de. by rewrite lookup_insert_eq. Qed.

Lemma itens_de_insert_ne c k l e : k ≠ c → itens_de c (<[k := l]> e) = itens_de c e.
Proof. intros. unfold itens_de. by rewrite lookup_insert_ne. Qed.

Lemma descartar_frente_length pid fila :
  length (descartar_frente pid fila) ≤ length fila.
Proof.
  destruct fila as [|x resto]; simpl; [lia|].
  destruct (String.eqb x pid); simpl; lia.
Qed.

Lemma descartar_total pid s :
  prox_pedido s = Some pid → total_filas (descartar pid s) < total_filas s.
Proof.
  unfold prox_pedido, total_filas, descartar. simpl.
  pose proof (descartar_frente_length pid (fila_media s)).
  pose proof (descartar_frente_length pid (fila_baixa s)).
  pose proof (descartar_frente_length pid (fila_alta s)).
  destruct (fila_alta s) as [|a fa].
  - destruct (fila_media s) as [|m fm].
    + destruct (fila_baixa s) as [|b fb]; [done|].
      intros [= ->]. simpl. rewrite String.eqb_refl. lia.
    + intros [= ->]. simpl. rewrite String.eqb_refl. simpl in *. lia.
  - intros [= ->]. simpl. rewrite String.eqb_refl. simpl in *. lia.
Qed.

Lemma tirar_Some pid fila fila' :
  tirar pid fila = Some fila' → pid ∈ fila ∧ fila' = remove pid fila.
Proof.
  destruct fila as [|x resto]; [done|]. unfold tirar.
  destruct (String.eqb_spec x pid) as [->|Hne].
  - intros [= <-]. split; [apply elem_of_cons; by left|].
    simpl. by rewrite String.eqb_refl.
  - destruct (contem pid (x :: resto)) eqn:Hc; [|done].
    intros [= <-]. split; [by apply contem_elem|done].
Qed.

Lemma tirar_None pid fila : tirar pid fila = None → pid ∉ fila.
Proof.
  destruct fila as [|x resto]; [intros _; apply not_elem_of_nil|]. unfold tirar.
  destruct (String.eqb_spec x pid) as [->|Hne]; [done|].
  destruct (contem pid (x :: resto)) eqn:Hc; [done|].
  intros _ Hin. apply contem_elem in Hin. congruence.
Qed.

Lemma remover_das_filas_total pid s :
  total_filas (remover_das_filas pid s) ≤ total_filas s.
Proof.
  unfold remover_das_filas, total_filas.
  destruct (tirar pid (fila_alta s)) as [f|] eqn:Ha.
  { apply tirar_Some in Ha as [_ ->]. simpl.
    pose proof (remove_length pid (fila_alta s)). lia. }
  destruct (tirar pid (fila_media s)) as [f|] eqn:Hm.
  { apply tirar_Some in Hm as [_ ->]. simpl.
    pose proof (remove_length pid (fila_media s)). lia. }
  destruct (tirar pid (fila_baixa s)) as [f|] eqn:Hb; [|done].
  apply tirar_Some in Hb as [_ ->]. simpl.
  pose proof (remove_length pid (fila_baixa s)). lia.
Qed.

(** The queue loop of lines 188-194 touches the queues only. *)
Lemma remover_das_filas_resto pid s :
  doadores (remover_das_filas pid s) = doadores s ∧
  estoque (remover_das_filas pid s) = estoque s ∧
  pedidos (remover_das_filas pid s) = pedidos s ∧
  historico_alocacoes (remover_das_filas pid s) = historico_alocacoes s ∧
  logs (remover_das_filas pid s) = logs s ∧
  ids_gerados (remover_das_filas pid s) = ids_gerados s ∧
  leituras_relogio (remover_das_filas pid s) = leituras_relogio s.
Proof.
  unfold remover_das_filas.
  destruct (tirar pid (fila_alta s)); [done|].
  destruct (tirar pid (fila_media s)); [done|].
  by destruct (tirar pid (fila_baixa s)).
Qed.

Lemma remover_das_filas_filas pid s0 s :
  fila_alta s0 = fila_alta s → fila_media s0 = fila_media s →
  fila_baixa s0 = fila_baixa s →
  fila_alta (remover_das_filas pid s0) = fila_alta (remover_das_filas pid s) ∧
  fila_media (remover_das_filas pid s0) = fila_media (remover_das_filas pid s) ∧
  fila_baixa (remover_das_filas pid s0) = fila_baixa (remover_das_filas pid s).
Proof.
  intros Ha Hm Hb. unfold remover_das_filas. rewrite Ha, Hm, Hb.
  destruct (tirar pid (fila_alta s)); [done|].
  destruct (tirar pid (fila_media s)); [done|].
  by destruct (tirar pid (fila_baixa s)).
Qed.

Lemma achado_Some r found :
  achado r = Some found → r = Some found ∧ found ≠ "".
Proof.
  destruct r as [x|]; [|done]. unfold achado, verdadeira.
  destruct (String.eqb_spec x "") as [->|Hne]; [done|].
  by intros [= <-].
Qed.

Lemma achar_Some c ps fila found :
  achar c ps fila = Some found →
  ∃ antes depois, fila = antes ++ found :: depois ∧
    Forall (λ x, compativel c ps x = false) antes ∧ compativel c ps found = true.
Proof.
  unfold achar. induction fila as [|x resto IH]; [done|]. simpl.
  destruct (compativel c ps x) eqn:Hx.
  - intros [= <-]. by exists [], resto.
  - intros Hf. destruct (IH Hf) as (antes & depois & -> & Hantes & Hfound).
    exists (x :: antes), depois. split_and!; [done| by constructor | done].
Qed.

Lemma achar_None c ps fila :
  achar c ps fila = None → Forall (λ x, compativel c ps x = false) fila.
Proof.
  unfold achar. induction fila as [|x resto IH]; [by constructor|]. simpl.
  destruct (compativel c ps x) eqn:Hx; [done|]. intros Hf. constructor; auto.
Qed.

Lemma achar_frente c ps fila found :
  achar c ps fila = Some found →
  ∃ antes depois, fila = antes ++ found :: depois ∧ (found ∉ antes) ∧
    trazer_para_frente found fila = found :: depois ++ antes.
Proof.
  intros Hf. destruct (achar_Some _ _ _ _ Hf) as (antes & depois & -> & Hantes & Hc).
  assert (found ∉ antes) as Hnot.
  { intros Hin. rewrite Forall_forall in Hantes. specialize (Hantes _ Hin). congruence. }
  exists antes, depois. split_and!; [done..|]. by apply trazer_para_frente_app.
Qed.

(** The scan changes the order of one queue and nothing else. *)
Lemma buscar_Some c s found s1 :
  buscar c s = Some (found, s1) →
  found ≠ "" ∧ compativel c (pedidos s) found = true ∧
  doadores s1 = doadores s ∧ estoque s1 = estoque s ∧ pedidos s1 = pedidos s ∧
  historico_alocacoes s1 = historico_alocacoes s ∧ logs s1 = logs s ∧
  ids_gerados s1 = ids_gerados s ∧ leituras_relogio s1 = leituras_relogio s ∧
  fila_alta s1 ≡ₚ fila_alta s ∧ fila_media s1 ≡ₚ fila_media s ∧
  fila_baixa s1 ≡ₚ fila_baixa s.
Proof.
  unfold buscar, trazer_para_frente.
  destruct (achado (achar c (pedidos s) (fila_alta s))) as [f|] eqn:Ha.
  { intros [= <- <-]. apply achado_Some in Ha as [Ha Hne].
    apply achar_Some in Ha as (? & ? & _ & _ & Hc). simpl.
    split_and!; try done. apply girar_perm. }
  destruct (achado (achar c (pedidos s) (fila_media s))) as [f|] eqn:Hm.
  { intros [= <- <-]. apply achado_Some in Hm as [Hm Hne].
    apply achar_Some in Hm as (? & ? & _ & _ & Hc). simpl.
    split_and!; try done. apply girar_perm. }
  destruct (achado (achar c (pedidos s) (fila_baixa s))) as [f|] eqn:Hb; [|done].
  intros [= <- <-]. apply achado_Some in Hb as [Hb Hne].
  apply achar_Some in Hb as (? & ? & _ & _ & Hc). simpl.
  split_and!; try done. apply girar_perm.
Qed.

Lemma compativel_Some c ps pid :
  compativel c ps pid = true →
  ∃ p, ps !! pid = Some p ∧ Pedido.atendido p = false ∧ Pedido.categoria p = c.
Proof.
  unfold compativel. destruct (ps !! pid) as [p|]; [|done].
  intros [Hat Hcat]%andb_true_iff. exists p. split_and!; [done| |].
  - by destruct (Pedido.atendido p).
  - by apply String.eqb_eq.
Qed.

(** What lines 173-194 commit, for the front unit [item] and the request
    [pedido] stored under [chave]. *)
Lemma alocar_Para c chave pedido s s' :
  alocar c chave pedido s = Para s' →
  itens_de c (estoque s) = [] ∧ s' = com_estoque (tocar c (estoque s)) s.
Proof.
  unfold alocar. cbn. rewrite itens_de_tocar.
  by destruct (itens_de c (estoque s)) as [|item resto]; [intros [= <-]|].
Qed.

Lemma alocar_Continua c chave pedido s s' :
  alocar c chave pedido s = Continua s' →
  ∃ item resto,
    itens_de c (estoque s) = item :: resto ∧
    let qtd := Z.min (ItemDoacao.quantidade item) (Pedido.quantidade pedido) in
    let sobra_item := (ItemDoacao.quantidade item - qtd)%Z in
    let sobra_pedido := (Pedido.quantidade pedido - qtd)%Z in
    historico_alocacoes s' =
      historico_alocacoes s ++
        [Alocacao.mk (uuid (ids_gerados s)) (ItemDoacao.id item) (Pedido.id pedido)
           qtd (agora (leituras_relogio s))] ∧
    estoque s' =
      <[c := if (sobra_item <=? 0)%Z then resto
             else ItemDoacao.set_quantidade sobra_item item :: resto]>
        (tocar c (estoque s)) ∧
    pedidos s' =
      <[chave := if (sobra_pedido <=? 0)%Z
                 then Pedido.set_atendido true (Pedido.set_quantidade sobra_pedido pedido)
                 else Pedido.set_quantidade sobra_pedido pedido]> (pedidos s) ∧
    (if (sobra_pedido <=? 0)%Z
     then fila_alta s' = fila_alta (remover_das_filas (Pedido.id pedido) s) ∧
          fila_media s' = fila_media (remover_das_filas (Pedido.id pedido) s) ∧
          fila_baixa s' = fila_baixa (remover_das_filas (Pedido.id pedido) s)
     else fila_alta s' = fila_alta s ∧ fila_media s' = fila_media s ∧
          fila_baixa s' = fila_baixa s) ∧
    doadores s' = doadores s ∧
    logs s' =
      logs s ++ [(agora (S (leituras_relogio s)),
                  Alocado qtd (ItemDoacao.nome item) c (Pedido.id pedido))] ∧
    ids_gerados s' = S (ids_gerados s) ∧
    leituras_relogio s' = S (S (leituras_relogio s)).
Proof.
  unfold alocar. cbn. rewrite itens_de_tocar.
  destruct (itens_de c (estoque s)) as [|item resto]; [done|].
  intros Heq. exists item, resto. split; [done|]. unfold efetivar in Heq. cbn in *.
  destruct (_ <=? 0)%Z eqn:Hp.
  - injection Heq as <-.
    match goal with |- context [remover_das_filas ?p ?s0] =>
      destruct (remover_das_filas_resto p s0) as (Hd & He & Hpd & Hh & Hl & Hi & Hr);
      rewrite Hd, He, Hpd, Hh, Hl, Hi, Hr; cbn;
      split_and!; try done; by apply remover_das_filas_filas
    end.
  - injection Heq as <-. cbn. split_and!; done.
Qed.

Lemma passo_caso c s : caso c s (passo c s).
Proof.
  unfold passo. destruct (prox_pedido s) as [pid|] eqn:Hprox; [|by constructor].
  unfold verdadeira. rewrite negb_involutive.
  destruct (String.eqb_spec pid "") as [->|Hne]; [by apply caso_id_vazio|].
  destruct (pedidos s !! pid) as [p|] eqn:Hp.
  2:{ apply caso_obsoleto; auto. }
  destruct (Pedido.atendido p) eqn:Hat.
  { apply caso_obsoleto; eauto. }
  destruct (String.eqb_spec (Pedido.categoria p) c) as [Hc|Hc]; simpl.
  { apply caso_aloca. by apply escolhe_frente. }
  destruct (buscar c s) as [[found s1]|] eqn:Hb.
  2:{ by apply caso_sem_pedido with pid p. }
  destruct (buscar_Some _ _ _ _ Hb) as (Hne' & Hcomp & _ & _ & Hps & _).
  apply compativel_Some in Hcomp as (p' & Hp' & _).
  rewrite Hps, Hp'. apply caso_aloca. by apply escolhe_busca with pid p.
Qed.

(** The request a round settles on is stored, unsatisfied and of the
    category asked for; choosing it changes at most the order of a queue. *)
Lemma escolhe_props c s chave p s1 :
  escolhe c s chave p s1 →
  chave ≠ "" ∧ pedidos s !! chave = Some p ∧ Pedido.atendido p = false ∧
  Pedido.categoria p = c ∧
  doadores s1 = doadores s ∧ estoque s1 = estoque s ∧ pedidos s1 = pedidos s ∧
  historico_alocacoes s1 = historico_alocacoes s ∧ logs s1 = logs s ∧
  ids_gerados s1 = ids_gerados s ∧ leituras_relogio s1 = leituras_relogio s ∧
  fila_alta s1 ≡ₚ fila_alta s ∧ fila_media s1 ≡ₚ fila_media s ∧
  fila_baixa s1 ≡ₚ fila_baixa s.
Proof.
  intros [pid p0 Hprox Hne Hp Hat Hc | pid p0 found p' s1' Hprox Hne Hp Hat Hc Hb Hp'].
  - split_and!; done.
  - destruct (buscar_Some _ _ _ _ Hb)
      as (Hne' & Hcomp & Hd & He & Hps & Hh & Hl & Hi & Hr & Ha & Hm & Hbx).
    apply compativel_Some in Hcomp as (p'' & Hp'' & Hat' & Hc').
    assert (p'' = p') as -> by congruence.
    split_and!; done.
Qed.

(** ** Termination of the matching loop *)

Lemma pendentes_insert ps chave p p' :
  ps !! chave = Some p → Pedido.atendido p = false →
  pendentes (<[chave := p']> ps) =
    if Pedido.atendido p' then pred (pendentes ps) else pendentes ps.
Proof.
  intros Hp Hat. unfold pendentes.
  assert (filter (λ kp : string * Pedido.t, Pedido.atendido kp.2 = false) ps
            !! chave = Some p) as Hf.
  { by apply map_lookup_filter_Some. }
  destruct (Pedido.atendido p') eqn:Hat'.
  - rewrite map_filter_insert_False by (simpl; congruence).
    rewrite map_filter_delete. by rewrite map_size_delete, Hf.
  - rewrite map_filter_insert_True by done.
    by rewrite map_size_insert, Hf.
Qed.

Lemma pendentes_pos ps chave p :
  ps !! chave = Some p → Pedido.atendido p = false → 0 < pendentes ps.
Proof.
  intros Hp Hat. unfold pendentes.
  assert (filter (λ kp : string * Pedido.t, Pedido.atendido kp.2 = false) ps
            !! chave = Some p) as Hf.
  { by apply map_lookup_filter_Some. }
  destruct (size _) eqn:Hs; [|lia].
  apply map_size_empty_inv in Hs. rewrite Hs in Hf. by rewrite lookup_empty in Hf.
Qed.

Lemma alocar_medida c chave p s s' :
  pedidos s !! chave = Some p → Pedido.atendido p = false →
  alocar c chave p s = Continua s' → medida c s' < medida c s.
Proof.
  intros Hp Hat Hal.
  destruct (alocar_Continua _ _ _ _ _ Hal)
    as (item & resto & Hit & Hh & He & Hps & Hf & _).
  cbn zeta in *. unfold medida. rewrite He, Hps, Hit, itens_de_insert.
  erewrite pendentes_insert by done.
  pose proof (pendentes_pos _ _ _ Hp Hat) as Hpos.
  pose proof (remover_das_filas_total (Pedido.id p) s) as Hrem.
  unfold total_filas in Hrem.
  set (qtd := Z.min (ItemDoacao.quantidade item) (Pedido.quantidade p)) in *.
  destruct (Pedido.quantidade p - qtd <=? 0)%Z eqn:Hq.
  - destruct Hf as (-> & -> & ->). simpl.
    destruct (ItemDoacao.quantidade item - qtd <=? 0)%Z; simpl; lia.
  - destruct Hf as (-> & -> & ->). simpl. rewrite Hat.
    destruct (ItemDoacao.quantidade item - qtd <=? 0)%Z eqn:Hi; simpl; [lia|].
    apply Z.leb_gt in Hq, Hi. lia.
Qed.

(** Every round that does not stop lowers the measure. *)
Lemma passo_medida c s s' :
  passo c s = Continua s' → medida c s' < medida c s.
Proof.
  intros Hpasso. pose proof (passo_caso c s) as Hcaso. rewrite Hpasso in Hcaso.
  inversion Hcaso as [| |pid Hprox Hne Hst| |chave p s1 Hesc Hal]; subst.
  - pose proof (descartar_total _ _ Hprox). unfold medida, total_filas in *.
    simpl in *. lia.
  - destruct (escolhe_props _ _ _ _ _ Hesc)
      as (_ & Hp & Hat & _ & _ & He & Hps & _ & _ & _ & _ & Ha & Hm & Hb).
    apply alocar_medida in Hal; [|by rewrite Hps|done].
    unfold medida in *. rewrite He, Hps, Ha, Hm, Hb in Hal. done.
Qed.

Lemma iterar_medida n c s :
  medida c s < n → ∃ s', iterar n c s = Some s'.
Proof.
  revert s. induction n as [|n IH]; intros s Hlt; [lia|]. simpl.
  destruct (passo c s) as [s'|s'] eqn:Hp; [by exists s'|].
  apply IH. apply passo_medida in Hp. lia.
Qed.

Lemma iterar_mais n m c s s' :
  iterar n c s = Some s' → n ≤ m → iterar m c s = Some s'.
Proof.
  revert m s. induction n as [|n IH]; intros m s; [done|].
  intros Hit Hle. destruct m as [|m]; [lia|]. simpl in *.
  destruct (passo c s); [done|]. apply IH; [done|lia].
Qed.

(** The function is the loop: it stops where a round breaks, and otherwise
    goes on from the state the round leaves. *)
Lemma tentar_alocar_eq c s :
  _tentar_alocar_para_pedidos c s =
    match passo c s with
    | Para s' => s'
    | Continua s' => _tentar_alocar_para_pedidos c s'
    end.
Proof.
  unfold _tentar_alocar_para_pedidos at 1. simpl.
  destruct (passo c s) as [s'|s'] eqn:Hp; [done|].
  apply passo_medida in Hp as Hlt.
  destruct (iterar_medida (S (medida c s')) c s') as [r Hr]; [lia|].
  unfold _tentar_alocar_para_pedidos. rewrite Hr.
  by rewrite (iterar_mais _ (medida c s) _ _ _ Hr) by lia.
Qed.

Lemma tentar_alocar_iterar c s :
  iterar (S (medida c s)) c s = Some (_tentar_alocar_para_pedidos c s).
Proof.
  unfold _tentar_alocar_para_pedidos.
  destruct (iterar_medida (S (medida c s)) c s) as [r Hr]; [lia|]. by rewrite Hr.
Qed.

(** ** Rounds on known states *)

Lemma passo_vazio c s : prox_pedido s = None → passo c s = Para s.
Proof. intros H. unfold passo. by rewrite H. Qed.

Lemma passo_frente c s pid p :
  prox_pedido s = Some pid → pid ≠ "" → pedidos s !! pid = Some p →
  Pedido.atendido p = false → Pedido.categoria p = c →
  passo c s = alocar c pid p s.
Proof.
  intros Hprox Hne Hp Hat Hc. unfold passo, verdadeira. rewrite Hprox.
  apply String.eqb_neq in Hne. rewrite Hne. simpl. rewrite Hp, Hat, Hc.
  by rewrite String.eqb_refl.
Qed.

Lemma alocar_vazio c chave p s :
  itens_de c (estoque s) = [] →
  alocar c chave p s = Para (com_estoque (tocar c (estoque s)) s).
Proof. intros H. unfold alocar. cbn. by rewrite itens_de_tocar, H. Qed.

Lemma alocar_item c chave p s item resto :
  itens_de c (estoque s) = item :: resto →
  alocar c chave p s =
    Continua (efetivar c chave p item resto (com_estoque (tocar c (estoque s)) s)).
Proof. intros H. unfold alocar. cbn. by rewrite itens_de_tocar, H. Qed.

Lemma tocar_presente c e l : e !! c = Some l → tocar c e = e.
Proof. intros H. unfold tocar. by rewrite H. Qed.

(** A round that goes on either drops a stale head, or commits exactly one
    allocation between the front unit and the chosen request. *)
Lemma rodada_historico c s s' :
  rodada c s s' →
  historico_alocacoes s' = historico_alocacoes s ∨
  ∃ a, historico_alocacoes s' = historico_alocacoes s ++ [a] ∧ par_alocado c s a.
Proof.
  unfold rodada. intros Hpasso.
  pose proof (passo_caso c s) as Hcaso. rewrite Hpasso in Hcaso.
  inversion Hcaso as [| |pid Hprox Hne Hst| |chave p s1 Hesc Hal]; subst.
  - by left.
  - right.
    destruct (escolhe_props _ _ _ _ _ Hesc)
      as (_ & Hp & _ & _ & _ & He & _ & Hh & _).
    destruct (alocar_Continua _ _ _ _ _ Hal) as (item & resto & Hit & Hhist & _).
    cbn zeta in Hhist. rewrite Hh in Hhist. eexists. split; [exact Hhist|].
    exists chave, p, item, resto. rewrite <- He. simpl.
    split_and!; try done; lia.
Qed.

Lemma passo_Para_historico c s s' :
  passo c s = Para s' → historico_alocacoes s' = historico_alocacoes s.
Proof.
  intros Hpasso. pose proof (passo_caso c s) as Hcaso. rewrite Hpasso in Hcaso.
  inversion Hcaso as [| | | |chave p s1 Hesc Hal]; subst; try done.
  destruct (escolhe_props _ _ _ _ _ Hesc) as (_ & _ & _ & _ & _ & _ & _ & Hh & _).
  apply alocar_Para in Hal as [_ ->]. by simpl.
Qed.

Lemma iterar_historico n c s s' :
  iterar n c s = Some s' →
  ∃ novas, historico_alocacoes s' = historico_alocacoes s ++ novas ∧
    Forall (λ a, ∃ s0, rtc (rodada c) s s0 ∧ par_alocado c s0 a) novas.
Proof.
  revert s. induction n as [|n IH]; intros s; [done|]. simpl.
  destruct (passo c s) as [sf|s1] eqn:Hpasso.
  - intros [= <-]. exists []. rewrite app_nil_r.
    split; [by eapply passo_Para_historico|constructor].
  - intros Hit. destruct (IH _ Hit) as (novas & Hh & Hall).
    assert (Forall (λ a, ∃ s0, rtc (rodada c) s s0 ∧ par_alocado c s0 a) novas)
      as Hall'.
    { eapply Forall_impl; [exact Hall|]. intros a (s0 & Hrtc & Hpar).
      exists s0. split; [|done]. by eapply rtc_l. }
    destruct (rodada_historico c s s1 Hpasso) as [Heq|(a & Heq & Hpar)].
    + exists novas. by rewrite Hh, Heq.
    + exists (a :: novas). split.
      * by rewrite Hh, Heq, <- app_assoc.
      * constructor; [|done]. exists s. split; [apply rtc_refl|done].
Qed.

(** ** Sums *)

Lemma soma_lista_app {A} (f : A → Z) l1 l2 :
  soma_lista f (l1 ++ l2) = (soma_lista f l1 + soma_lista f l2)%Z.
Proof. induction l1 as [|x l1 IH]; simpl; [done|]. rewrite IH. lia. Qed.

Lemma soma_mapa_empty {A} (f : A → Z) : soma_mapa f ∅ = 0%Z.
Proof. unfold soma_mapa. by rewrite map_fold_empty. Qed.

Lemma soma_mapa_insert_None {A} (f : A → Z) (m : gmap string A) k x :
  m !! k = None → soma_mapa f (<[k := x]> m) = (f x + soma_mapa f m)%Z.
Proof.
  intros Hk. unfold soma_mapa. rewrite map_fold_insert_L; [done| |done].
  intros. lia.
Qed.

Lemma soma_mapa_delete {A} (f : A → Z) (m : gmap string A) k x :
  m !! k = Some x → soma_mapa f m = (f x + soma_mapa f (delete k m))%Z.
Proof.
  intros Hk. unfold soma_mapa. rewrite (map_fold_delete_L _ _ k x m); [done| |done].
  intros. lia.
Qed.

Lemma soma_mapa_insert_Some {A} (f : A → Z) (m : gmap string A) k x y :
  m !! k = Some y →
  soma_mapa f (<[k := x]> m) = (soma_mapa f m - f y + f x)%Z.
Proof.
  intros Hk. rewrite (soma_mapa_delete f m k y Hk).
  rewrite <- (insert_delete_eq m). rewrite soma_mapa_insert_None.
  - lia.
  - apply lookup_delete_eq.
Qed.

(** An allocation lowers the supply and the demand of its category by the
    quantity allocated. *)
Lemma efetivar_oferta_demanda c chave p item resto s s' :
  pedidos s !! chave = Some p → Pedido.atendido p = false →
  Pedido.categoria p = c → itens_de c (estoque s) = item :: resto →
  alocar c chave p s = Continua s' →
  let qtd := Z.min (ItemDoacao.quantidade item) (Pedido.quantidade p) in
  oferta c s' = (oferta c s - qtd)%Z ∧ demanda c s' = (demanda c s - qtd)%Z.
Proof.
  intros Hp Hat Hc Hit Hal.
  destruct (alocar_Continua _ _ _ _ _ Hal)
    as (item' & resto' & Hit' & _ & He & Hps & _).
  rewrite Hit in Hit'. injection Hit' as <- <-. cbn zeta in *.
  unfold oferta, demanda. rewrite He, Hps, Hit, itens_de_insert.
  erewrite soma_mapa_insert_Some by done.
  set (qtd := Z.min (ItemDoacao.quantidade item) (Pedido.quantidade p)) in *.
  assert (falta c p = Pedido.quantidade p) as ->.
  { unfold falta. by rewrite Hat, Hc, String.eqb_refl. }
  split.
  - destruct (ItemDoacao.quantidade item - qtd <=? 0)%Z eqn:Hi; simpl.
    + apply Z.leb_le in Hi. lia.
    + lia.
  - destruct (Pedido.quantidade p - qtd <=? 0)%Z eqn:Hq; unfold falta; simpl.
    + apply Z.leb_le in Hq. lia.
    + rewrite Hat, Hc, String.eqb_refl. simpl. lia.
Qed.

Lemma itens_de_vazio c : itens_de c ∅ = [].
Proof. unfold itens_de. by rewrite lookup_empty. Qed.

(** Normalises stock and request lookups on states built by insertions. *)
Ltac arruma :=
  repeat first
    [ rewrite itens_de_insert
    | rewrite itens_de_tocar
    | rewrite itens_de_vazio
    | rewrite lookup_insert_eq
    | rewrite insert_insert_eq
    | rewrite itens_de_insert_ne by done ].

(** ** Loop invariants *)

(** A property kept by every round is kept by the loop. *)
Lemma iterar_invariante (P : SistemaDoacoes → Prop) c :
  (∀ s, P s → P (estado_de (passo c s))) →
  ∀ n s s', P s → iterar n c s = Some s' → P s'.
Proof.
  intros Hpasso n. induction n as [|n IH]; intros s s' Hs Hit; [done|].
  simpl in Hit. specialize (Hpasso s Hs).
  destruct (passo c s) as [s1|s1] eqn:Hp; simpl in Hpasso.
  - by injection Hit as <-.
  - eapply IH; [exact Hpasso|exact Hit].
Qed.

Lemma tentar_alocar_invariante (P : SistemaDoacoes → Prop) c :
  (∀ s, P s → P (estado_de (passo c s))) →
  ∀ s, P s → P (_tentar_alocar_para_pedidos c s).
Proof.
  intros Hpasso s Hs.
  eapply iterar_invariante; [exact Hpasso|exact Hs|apply tentar_alocar_iterar].
Qed.

Lemma avanca_refl p : avanca p p.
Proof. by left. Qed.

Lemma avanca_trans p1 p2 p3 : avanca p1 p2 → avanca p2 p3 → avanca p1 p3.
Proof.
  intros [->|(Hat & H1)] [->|(Hat' & H2)].
  - by left.
  - by right.
  - by right.
  - right. split; [done|]. unfold mesmo_pedido in *.
    destruct H1 as (? & ? & ? & ? & ?), H2 as (? & ? & ? & ? & ?).
    split_and!; congruence.
Qed.

Lemma progresso_refl c s : progresso c s s.
Proof.
  split; try done.
  - intros k. destruct (pedidos s !! k) as [p|]; [|done].
    exists p. split; [done|apply avanca_refl].
  - exists []. rewrite app_nil_r. split; [done|]. simpl. lia.
Qed.

Lemma progresso_trans c s1 s2 s3 :
  progresso c s1 s2 → progresso c s2 s3 → progresso c s1 s3.
Proof.
  intros [Hd1 Hp1 Ha1 Hm1 Hb1 He1 (n1 & Hh1 & Hl1)]
         [Hd2 Hp2 Ha2 Hm2 Hb2 He2 (n2 & Hh2 & Hl2)].
  split.
  - congruence.
  - intros k. specialize (Hp1 k). specialize (Hp2 k).
    destruct (pedidos s1 !! k) as [p|].
    + destruct Hp1 as (p' & Hk & Hav). rewrite Hk in Hp2.
      destruct Hp2 as (p'' & Hk' & Hav'). exists p''. split; [done|].
      by eapply avanca_trans.
    + by rewrite Hp1 in Hp2.
  - by etrans.
  - by etrans.
  - by etrans.
  - intros k Hk. rewrite He2, He1; done.
  - exists (n1 ++ n2). split.
    + by rewrite Hh2, Hh1, <- app_assoc.
    + rewrite soma_lista_app. lia.
Qed.

Lemma descartar_frente_submseteq pid fila : descartar_frente pid fila ⊆+ fila.
Proof.
  destruct fila as [|x resto]; simpl; [done|].
  destruct (String.eqb x pid); [|done]. by apply submseteq_cons.
Qed.

Lemma remove_submseteq x fila : remove x fila ⊆+ fila.
Proof.
  induction fila as [|y resto IH]; simpl; [done|].
  destruct (String.eqb y x); [by apply submseteq_cons|]. by apply submseteq_skip.
Qed.

Lemma remover_das_filas_submseteq pid s :
  fila_alta (remover_das_filas pid s) ⊆+ fila_alta s ∧
  fila_media (remover_das_filas pid s) ⊆+ fila_media s ∧
  fila_baixa (remover_das_filas pid s) ⊆+ fila_baixa s.
Proof.
  unfold remover_das_filas.
  destruct (tirar pid (fila_alta s)) as [f|] eqn:Ha.
  { apply tirar_Some in Ha as [_ ->]. simpl.
    split_and!; [apply remove_submseteq|done..]. }
  destruct (tirar pid (fila_media s)) as [f|] eqn:Hm.
  { apply tirar_Some in Hm as [_ ->]. simpl.
    split_and!; [done|apply remove_submseteq|done]. }
  destruct (tirar pid (fila_baixa s)) as [f|] eqn:Hb; [|done].
  apply tirar_Some in Hb as [_ ->]. simpl.
  split_and!; [done..|apply remove_submseteq].
Qed.

Lemma passo_progresso c s : progresso c s (estado_de (passo c s)).
Proof.
  destruct (passo_caso c s) as [| |pid Hprox Hne Hst| |chave p s1 Hesc];
    simpl; try apply progresso_refl.
  - split; simpl; try done; try apply descartar_frente_submseteq.
    + intros k. destruct (pedidos s !! k) as [p|]; [|done].
      exists p. split; [done|apply avanca_refl].
    + exists []. rewrite app_nil_r. split; [done|]. unfold oferta. simpl. lia.
  - destruct (escolhe_props _ _ _ _ _ Hesc)
      as (_ & Hp & Hat & Hc & Hd & He & Hps & Hh & Hl & Hi & Hr & Ha & Hm & Hb).
    destruct (alocar c chave p s1) as [s'|s'] eqn:Hal; simpl.
    + apply alocar_Para in Hal as [Hvazio ->]. split; simpl; try done.
      * intros k. rewrite Hps. destruct (pedidos s !! k) as [p0|]; [|done].
        exists p0. split; [done|apply avanca_refl].
      * by apply Permutation_submseteq.
      * by apply Permutation_submseteq.
      * by apply Permutation_submseteq.
      * intros k _. by rewrite itens_de_tocar, He.
      * exists []. rewrite app_nil_r. split; [done|].
        unfold oferta. simpl. rewrite itens_de_tocar, He. lia.
    + destruct (efetivar_oferta_demanda c chave p) with (s := s1) (s' := s')
        (item := hd (ItemDoacao.mk "" "" "" 0 "") (itens_de c (estoque s1)))
        (resto := tl (itens_de c (estoque s1))) as [Ho _]; try done.
      { by rewrite Hps. }
      { destruct (alocar_Continua _ _ _ _ _ Hal) as (item & resto & -> & _).
        done. }
      destruct (alocar_Continua _ _ _ _ _ Hal)
        as (item & resto & Hit & Hhist & Hest & Hped & Hfil & Hdo & _).
      rewrite Hit in Ho. cbn zeta in *. simpl in Ho.
      match type of Hfil with if ?b then _ else _ => set (bq := b) in * end.
      assert (fila_alta s' ⊆+ fila_alta s1 ∧ fila_media s' ⊆+ fila_media s1 ∧
              fila_baixa s' ⊆+ fila_baixa s1) as (Hfa & Hfm & Hfb).
      { destruct bq.
        - destruct Hfil as (-> & -> & ->). apply remover_das_filas_submseteq.
        - by destruct Hfil as (-> & -> & ->). }
      split.
      * congruence.
      * intros k. rewrite Hped, <- Hps.
        destruct (decide (chave = k)) as [<-|Hk].
        -- rewrite Hps, Hp, lookup_insert_eq. eexists. split; [done|].
           right. split; [done|]. by destruct bq.
        -- rewrite lookup_insert_ne by done.
           destruct (pedidos s1 !! k) as [p0|]; [|done].
           exists p0. split; [done|apply avanca_refl].
      * by rewrite <- Ha.
      * by rewrite <- Hm.
      * by rewrite <- Hb.
      * intros k Hk. rewrite Hest, itens_de_insert_ne, itens_de_tocar, He by done.
        done.
      * eexists. split; [by rewrite Hhist, Hh|].
        unfold oferta in Ho |- *. rewrite <- He. simpl. lia.
Qed.

Lemma tentar_alocar_progresso c s : progresso c s (_tentar_alocar_para_pedidos c s).
Proof.
  apply (tentar_alocar_invariante (progresso c s)).
  - intros s1 H1. eapply progresso_trans; [exact H1|apply passo_progresso].
  - apply progresso_refl.
Qed.

(** ** Rounds that allocate nothing *)

Lemma prox_pedido_elem s pid : prox_pedido s = Some pid → pid ∈ todas s.
Proof.
  unfold prox_pedido, todas.
  destruct (fila_alta s) as [|a fa]; [|intros [= ->]; set_solver].
  destruct (fila_media s) as [|m fm]; [|intros [= ->]; set_solver].
  destruct (fila_baixa s) as [|b fb]; [done|intros [= ->]; set_solver].
Qed.

Lemma achar_elem c ps fila found : achar c ps fila = Some found → found ∈ fila.
Proof.
  intros (antes & depois & -> & _)%achar_Some. set_solver.
Qed.

Lemma buscar_elem c s found s1 : buscar c s = Some (found, s1) → found ∈ todas s.
Proof.
  unfold buscar, todas.
  destruct (achado (achar c (pedidos s) (fila_alta s))) as [f|] eqn:Ha.
  { intros [= <- <-]. apply achado_Some in Ha as [Ha%achar_elem _]. set_solver. }
  destruct (achado (achar c (pedidos s) (fila_media s))) as [f|] eqn:Hm.
  { intros [= <- <-]. apply achado_Some in Hm as [Hm%achar_elem _]. set_solver. }
  destruct (achado (achar c (pedidos s) (fila_baixa s))) as [f|] eqn:Hb; [|done].
  intros [= <- <-]. apply achado_Some in Hb as [Hb%achar_elem _]. set_solver.
Qed.

Lemma escolhe_elem c s chave p s1 : escolhe c s chave p s1 → chave ∈ todas s.
Proof.
  intros [pid p0 Hprox _ _ _ _ | pid p0 found p' s1' _ _ _ _ _ Hb _].
  - by apply prox_pedido_elem.
  - by eapply buscar_elem.
Qed.

Lemma escolhe_compativel c s chave p s1 :
  escolhe c s chave p s1 → compativel c (pedidos s) chave = true.
Proof.
  intros Hesc. destruct (escolhe_props _ _ _ _ _ Hesc) as (_ & Hp & Hat & Hc & _).
  unfold compativel. by rewrite Hp, Hat, Hc, String.eqb_refl.
Qed.

Lemma tocar_tocar c e : tocar c (tocar c e) = tocar c e.
Proof.
  destruct (e !! c) as [l|] eqn:He.
  - by rewrite !(tocar_presente c e l).
  - assert (tocar c e = <[c := []]> e) as -> by (unfold tocar; by rewrite He).
    apply tocar_presente with []. apply lookup_insert_eq.
Qed.

(** With valid queues, a round that finds no compatible request or no stock
    stops at once, having at most turned one queue. *)
Lemma passo_sem_alocar c s :
  filas_validas s → sem_pedido c s ∨ sem_estoque c s →
  ∃ r, passo c s = Para r ∧
    historico_alocacoes r = historico_alocacoes s ∧
    pedidos r = pedidos s ∧
    (∀ k, itens_de k (estoque r) = itens_de k (estoque s)) ∧
    fila_alta r ≡ₚ fila_alta s ∧ fila_media r ≡ₚ fila_media s ∧
    fila_baixa r ≡ₚ fila_baixa s ∧
    doadores r = doadores s ∧ logs r = logs s ∧
    ids_gerados r = ids_gerados s ∧ leituras_relogio r = leituras_relogio s ∧
    (sem_pedido c s → r = s).
Proof.
  intros Hval Hsem.
  destruct (passo_caso c s) as [| |pid Hprox Hne Hst| |chave p s1 Hesc].
  - exists s. by split_and!.
  - exists s. by split_and!.
  - exfalso. destruct (Hval pid (prox_pedido_elem _ _ Hprox)) as (_ & p & Hp & Hat).
    destruct Hst as [Hst|(p' & Hp' & Hat')]; congruence.
  - exists s. by split_and!.
  - assert (¬ sem_pedido c s) as Hcom.
    { intros Hs. specialize (Hs chave (escolhe_elem _ _ _ _ _ Hesc)).
      apply escolhe_compativel in Hesc. congruence. }
    destruct Hsem as [Hs|Hs]; [done|].
    destruct (escolhe_props _ _ _ _ _ Hesc)
      as (_ & Hp & Hat & Hc & Hd & He & Hps & Hh & Hl & Hi & Hr & Ha & Hm & Hb).
    rewrite alocar_vazio by (by rewrite He).
    eexists. split; [done|]. simpl. split_and!; try done.
    intros k. by rewrite itens_de_tocar, He.
Qed.

(** ** Running the loop again *)

Lemma trazer_para_frente_frente found resto :
  trazer_para_frente found (found :: resto) = found :: resto.
Proof. unfold trazer_para_frente. simpl. by rewrite String.eqb_refl. Qed.

Lemma achado_achar_frente c ps found resto :
  found ≠ "" → compativel c ps found = true →
  achado (achar c ps (found :: resto)) = Some found.
Proof.
  intros Hne Hc. unfold achar. simpl. rewrite Hc. unfold achado, verdadeira.
  apply String.eqb_neq in Hne. by rewrite Hne.
Qed.

Lemma achado_girado c ps fila found :
  achado (achar c ps fila) = Some found →
  ∃ resto, trazer_para_frente found fila = found :: resto ∧
    achado (achar c ps (found :: resto)) = Some found.
Proof.
  intros [Ha Hne]%achado_Some.
  destruct (achar_frente _ _ _ _ Ha) as (antes & depois & _ & _ & Htr).
  apply achar_Some in Ha as (? & ? & _ & _ & Hc).
  eexists. split; [exact Htr|]. by apply achado_achar_frente.
Qed.

(** Once the scan has turned a queue, scanning again finds the same request
    and turns nothing. *)
Lemma buscar_de_novo c s found s1 e :
  buscar c s = Some (found, s1) →
  buscar c (com_estoque e s1) = Some (found, com_estoque e s1).
Proof.
  unfold buscar.
  destruct (achado (achar c (pedidos s) (fila_alta s))) as [f|] eqn:Ha.
  { intros [= <- <-]. destruct (achado_girado _ _ _ _ Ha) as (resto & Htr & Hag).
    simpl. rewrite Htr, Hag. by rewrite trazer_para_frente_frente. }
  destruct (achado (achar c (pedidos s) (fila_media s))) as [f|] eqn:Hm.
  { intros [= <- <-]. destruct (achado_girado _ _ _ _ Hm) as (resto & Htr & Hag).
    simpl. rewrite Ha, Htr, Hag. by rewrite trazer_para_frente_frente. }
  destruct (achado (achar c (pedidos s) (fila_baixa s))) as [f|] eqn:Hb; [|done].
  intros [= <- <-]. destruct (achado_girado _ _ _ _ Hb) as (resto & Htr & Hag).
  simpl. rewrite Ha, Hm, Htr, Hag. by rewrite trazer_para_frente_frente.
Qed.

(** After the scan, the head of the first non-empty queue is either the
    request found or what it was. *)
Lemma buscar_prox_pedido c s found s1 pid :
  buscar c s = Some (found, s1) → prox_pedido s = Some pid →
  prox_pedido s1 = Some found ∨ prox_pedido s1 = Some pid.
Proof.
  unfold buscar, prox_pedido.
  destruct (achado (achar c (pedidos s) (fila_alta s))) as [f|] eqn:Ha.
  { intros [= <- <-] _. destruct (achado_girado _ _ _ _ Ha) as (resto & Htr & _).
    simpl. rewrite Htr. by left. }
  destruct (achado (achar c (pedidos s) (fila_media s))) as [f|] eqn:Hm.
  { intros [= <- <-]. destruct (achado_girado _ _ _ _ Hm) as (resto & Htr & _).
    simpl. rewrite Htr. destruct (fila_alta s); [by left|by right]. }
  destruct (achado (achar c (pedidos s) (fila_baixa s))) as [f|] eqn:Hb; [|done].
  intros [= <- <-]. destruct (achado_girado _ _ _ _ Hb) as (resto & Htr & _).
  simpl. rewrite Htr. destruct (fila_alta s); [|by right].
  destruct (fila_media s); [by left|by right].
Qed.

Lemma passo_busca c s pid p found s1 p' :
  prox_pedido s = Some pid → pid ≠ "" → pedidos s !! pid = Some p →
  Pedido.atendido p = false → Pedido.categoria p ≠ c →
  buscar c s = Some (found, s1) → pedidos s !! found = Some p' →
  passo c s = alocar c found p' s1.
Proof.
  intros Hprox Hne Hp Hat Hc Hb Hp'. unfold passo, verdadeira. rewrite Hprox.
  apply String.eqb_neq in Hne. rewrite Hne. simpl. rewrite Hp, Hat.
  apply String.eqb_neq in Hc. rewrite Hc. simpl. rewrite Hb.
  destruct (buscar_Some _ _ _ _ Hb) as (_ & _ & _ & _ & Hps & _).
  by rewrite Hps, Hp'.
Qed.

(** The state a round stops in is one the next round stops in as well. *)
Lemma passo_Para_de_novo c s r : passo c s = Para r → passo c r = Para r.
Proof.
  intros Hal. pose proof (passo_caso c s) as Hcaso.
  remember (passo c s) as r0 eqn:Hr0.
  destruct Hcaso as [| | | |chave p s1 Hesc]; try discriminate Hal;
    try (injection Hal as <-; by symmetry).
  apply alocar_Para in Hal as [Hvazio ->]. clear Hr0.
  assert (∀ chave' p', alocar c chave' p' (com_estoque (tocar c (estoque s1)) s1)
            = Para (com_estoque (tocar c (estoque s1)) s1)) as Hpara.
  { intros chave' p'. rewrite alocar_vazio; simpl.
    - by rewrite tocar_tocar.
    - by rewrite itens_de_tocar. }
  destruct Hesc as [pid p0 Hprox Hne Hp Hat Hc | pid p0 found p' s1' Hprox Hne Hp Hat Hc Hb Hp'].
  - etrans; [|apply (Hpara pid p0)]. by apply passo_frente.
  - destruct (buscar_Some _ _ _ _ Hb) as (Hne' & Hcomp & _ & _ & Hps & _).
    apply compativel_Some in Hcomp as (p'' & Hp'' & Hat' & Hc').
    destruct (buscar_prox_pedido _ _ _ _ _ Hb Hprox) as [Hpx|Hpx].
    + etrans; [|apply (Hpara found p'')]. apply passo_frente; try done.
      simpl. by rewrite Hps.
    + etrans; [|apply (Hpara found p'')].
      apply passo_busca with pid p0; simpl; try done; try (by rewrite Hps).
      eapply buscar_de_novo, Hb.
Qed.

Lemma iterar_Para_de_novo n c s r : iterar n c s = Some r → passo c r = Para r.
Proof.
  revert s. induction n as [|n IH]; intros s; [done|]. simpl.
  destruct (passo c s) as [s'|s'] eqn:Hp.
  - intros [= <-]. by eapply passo_Para_de_novo.
  - apply IH.
Qed.

(** Matching is idempotent. *)
Lemma tentar_alocar_de_novo c s :
  _tentar_alocar_para_pedidos c (_tentar_alocar_para_pedidos c s) =
  _tentar_alocar_para_pedidos c s.
Proof.
  rewrite tentar_alocar_eq.
  by rewrite (iterar_Para_de_novo _ _ _ _ (tentar_alocar_iterar c s)).
Qed.

(** ** Queues without repetition *)

Lemma elem_of_remove_ne x y fila : y ≠ x → y ∈ remove x fila ↔ y ∈ fila.
Proof.
  intros Hne. induction fila as [|z resto IH]; simpl; [done|].
  destruct (String.eqb_spec z x) as [->|Hzx].
  - rewrite elem_of_cons. split; [by right|]. by intros [?|?].
  - rewrite !elem_of_cons, IH. done.
Qed.

Lemma elem_of_remove x y fila : y ∈ remove x fila → y ∈ fila.
Proof. intros Hy. eapply elem_of_submseteq; [exact Hy|apply remove_submseteq]. Qed.

Lemma NoDup_remove x fila : NoDup fila → NoDup (remove x fila) ∧ (x ∉ remove x fila).
Proof.
  induction 1 as [|z resto Hz Hnd IH]; simpl.
  - split; [constructor|apply not_elem_of_nil].
  - destruct (String.eqb_spec z x) as [->|Hzx]; [done|].
    destruct IH as [IH1 IH2]. split.
    + constructor; [|done]. intros Hin. by apply elem_of_remove in Hin.
    + apply not_elem_of_cons. split; [congruence|done].
Qed.

Lemma remove_not_elem x fila : x ∉ fila → remove x fila = fila.
Proof.
  induction fila as [|z resto IH]; simpl; [done|].
  intros [Hne Hnot]%not_elem_of_cons.
  destruct (String.eqb_spec z x) as [->|_]; [done|]. by rewrite IH.
Qed.

Lemma remove_app_elem x l1 l2 : x ∈ l1 → remove x (l1 ++ l2) = remove x l1 ++ l2.
Proof.
  induction l1 as [|z l1 IH]; simpl; intros Hx.
  - by apply elem_of_nil in Hx.
  - destruct (String.eqb_spec z x) as [->|Hzx]; [done|].
    apply elem_of_cons in Hx as [->|Hx]; [done|]. by rewrite IH.
Qed.

Lemma remove_app_not_elem x l1 l2 :
  x ∉ l1 → remove x (l1 ++ l2) = l1 ++ remove x l2.
Proof.
  induction l1 as [|z l1 IH]; simpl; [done|].
  intros [Hne Hnot]%not_elem_of_cons.
  destruct (String.eqb_spec z x) as [->|_]; [done|]. by rewrite IH.
Qed.

(** The loop of lines 188-194 drops the first occurrence of the id in the
    queues taken in order. *)
Lemma remover_das_filas_todas pid s :
  todas (remover_das_filas pid s) = remove pid (todas s).
Proof.
  unfold remover_das_filas, todas.
  destruct (tirar pid (fila_alta s)) as [f|] eqn:Ha.
  { apply tirar_Some in Ha as [Hin ->]. simpl. by rewrite remove_app_elem. }
  apply tirar_None in Ha. rewrite remove_app_not_elem by done.
  destruct (tirar pid (fila_media s)) as [f|] eqn:Hm.
  { apply tirar_Some in Hm as [Hin ->]. simpl. by rewrite remove_app_elem. }
  apply tirar_None in Hm. rewrite remove_app_not_elem by done.
  destruct (tirar pid (fila_baixa s)) as [f|] eqn:Hb.
  { apply tirar_Some in Hb as [Hin ->]. done. }
  apply tirar_None in Hb. by rewrite remove_not_elem.
Qed.

Lemma remover_das_filas_elem pid s y :
  y ≠ pid →
  (y ∈ fila_alta (remover_das_filas pid s) ↔ y ∈ fila_alta s) ∧
  (y ∈ fila_media (remover_das_filas pid s) ↔ y ∈ fila_media s) ∧
  (y ∈ fila_baixa (remover_das_filas pid s) ↔ y ∈ fila_baixa s).
Proof.
  intros Hne. unfold remover_das_filas.
  destruct (tirar pid (fila_alta s)) as [f|] eqn:Ha.
  { apply tirar_Some in Ha as [_ ->]. simpl. by rewrite elem_of_remove_ne. }
  destruct (tirar pid (fila_media s)) as [f|] eqn:Hm.
  { apply tirar_Some in Hm as [_ ->]. simpl. by rewrite elem_of_remove_ne. }
  destruct (tirar pid (fila_baixa s)) as [f|] eqn:Hb; [|done].
  apply tirar_Some in Hb as [_ ->]. simpl. by rewrite elem_of_remove_ne.
Qed.

Lemma fila_de_elem prio s s' y :
  (y ∈ fila_alta s' ↔ y ∈ fila_alta s) →
  (y ∈ fila_media s' ↔ y ∈ fila_media s) →
  (y ∈ fila_baixa s' ↔ y ∈ fila_baixa s) →
  y ∈ fila_de prio s' ↔ y ∈ fila_de prio s.
Proof. unfold fila_de. by destruct (nivel prio) as [|[|?]]. Qed.

(** ** The invariant of the request table and the queues *)

Lemma invariante_ext s s1 :
  pedidos s1 = pedidos s → ids_gerados s ≤ ids_gerados s1 →
  fila_alta s1 ≡ₚ fila_alta s → fila_media s1 ≡ₚ fila_media s →
  fila_baixa s1 ≡ₚ fila_baixa s →
  invariante s → invariante s1.
Proof.
  intros Hps Hi Ha Hm Hb [Hch Hids Hnd Hfila Hpend].
  assert (todas s1 ≡ₚ todas s) as Htodas.
  { unfold todas. by rewrite Ha, Hm, Hb. }
  split.
  - intros k p. rewrite Hps. apply Hch.
  - intros k. rewrite Hps. intros Hk. destruct (Hids k Hk) as (n & Hn & ->).
    exists n. split; [lia|done].
  - by rewrite Htodas.
  - intros k. rewrite Htodas, Hps. apply Hfila.
  - intros k p. rewrite Hps. intros Hk Hat. specialize (Hpend k p Hk Hat).
    revert Hpend. apply fila_de_elem; by rewrite ?Ha, ?Hm, ?Hb.
Qed.

Lemma invariante_atualiza s s' chave p p' :
  invariante s → pedidos s !! chave = Some p → Pedido.atendido p = false →
  mesmo_pedido p p' →
  pedidos s' = <[chave := p']> (pedidos s) → ids_gerados s ≤ ids_gerados s' →
  (if Pedido.atendido p'
   then fila_alta s' = fila_alta (remover_das_filas chave s) ∧
        fila_media s' = fila_media (remover_das_filas chave s) ∧
        fila_baixa s' = fila_baixa (remover_das_filas chave s)
   else fila_alta s' = fila_alta s ∧ fila_media s' = fila_media s ∧
        fila_baixa s' = fila_baixa s) →
  invariante s'.
Proof.
  intros [Hch Hids Hnd Hfila Hpend] Hp Hat (Hid & _ & _ & Hprio & _) Hps Hi Hfilas.
  assert (todas s' = if Pedido.atendido p' then remove chave (todas s) else todas s)
    as Htodas.
  { destruct (Pedido.atendido p').
    - rewrite <- remover_das_filas_todas. unfold todas.
      by destruct Hfilas as (-> & -> & ->).
    - unfold todas. by destruct Hfilas as (-> & -> & ->). }
  split.
  - intros k pk. rewrite Hps. destruct (decide (chave = k)) as [<-|Hk].
    + rewrite lookup_insert_eq. intros [= <-]. rewrite Hid. by apply Hch.
    + rewrite lookup_insert_ne by done. apply Hch.
  - intros k. rewrite Hps. destruct (decide (chave = k)) as [<-|Hk].
    + intros _. destruct (Hids chave) as (n & Hn & ->); [by eexists|].
      exists n. split; [lia|done].
    + rewrite lookup_insert_ne by done. intros Hk'.
      destruct (Hids k Hk') as (n & Hn & ->). exists n. split; [lia|done].
  - rewrite Htodas. destruct (Pedido.atendido p'); [|done].
    by apply NoDup_remove.
  - intros k. rewrite Htodas, Hps. destruct (Pedido.atendido p') eqn:Hat'.
    + intros Hk. destruct (NoDup_remove chave _ Hnd) as [_ Hnot].
      assert (k ≠ chave) as Hne by (intros ->; done).
      rewrite lookup_insert_ne by done. apply Hfila. by eapply elem_of_remove.
    + intros Hk. destruct (decide (chave = k)) as [<-|Hne].
      * rewrite lookup_insert_eq. by exists p'.
      * rewrite lookup_insert_ne by done. by apply Hfila.
  - intros k pk. rewrite Hps. destruct (decide (chave = k)) as [<-|Hne].
    + rewrite lookup_insert_eq. intros [= <-] Hat'. rewrite Hat' in Hfilas.
      rewrite Hprio. specialize (Hpend chave p Hp Hat). revert Hpend.
      destruct Hfilas as (Ha & Hm & Hb). apply fila_de_elem; by rewrite ?Ha, ?Hm, ?Hb.
    + rewrite lookup_insert_ne by done. intros Hk Hatk.
      specialize (Hpend k pk Hk Hatk). revert Hpend.
      destruct (Pedido.atendido p').
      * destruct Hfilas as (Ha & Hm & Hb).
        destruct (remover_das_filas_elem chave s k) as (Ha' & Hm' & Hb'); [done|].
        apply fila_de_elem; by rewrite ?Ha, ?Hm, ?Hb.
      * destruct Hfilas as (Ha & Hm & Hb).
        apply fila_de_elem; by rewrite ?Ha, ?Hm, ?Hb.
Qed.

Lemma passo_invariante c s : invariante s → invariante (estado_de (passo c s)).
Proof.
  intros Hinv.
  destruct (passo_caso c s) as [| |pid Hprox Hne Hst| |chave p s1 Hesc];
    simpl; try done.
  - exfalso. destruct (inv_fila s Hinv pid (prox_pedido_elem _ _ Hprox))
      as (p & Hp & Hat).
    destruct Hst as [Hst|(p' & Hp' & Hat')]; congruence.
  - destruct (escolhe_props _ _ _ _ _ Hesc)
      as (_ & Hp & Hat & Hc & Hd & He & Hps & Hh & Hl & Hi & Hr & Ha & Hm & Hb).
    assert (invariante s1) as Hinv1.
    { apply (invariante_ext s); try done. lia. }
    destruct (alocar c chave p s1) as [s'|s'] eqn:Hal; simpl.
    + apply alocar_Para in Hal as [_ ->].
      apply (invariante_ext s1); simpl; done.
    + destruct (alocar_Continua _ _ _ _ _ Hal)
        as (item & resto & Hit & _ & _ & Hped & Hfil & _ & _ & Hids & _).
      cbn zeta in *.
      assert (Pedido.id p = chave) as Hidp by (by apply (inv_chaves s Hinv)).
      rewrite Hidp in Hfil.
      refine (invariante_atualiza s1 s' chave p _ Hinv1 _ Hat _ Hped _ _).
      * by rewrite Hps.
      * by destruct (_ <=? 0)%Z.
      * lia.
      * destruct (_ <=? 0)%Z; simpl; [done|]. by rewrite Hat.
Qed.

Lemma tentar_alocar_invariante_filas c s :
  invariante s → invariante (_tentar_alocar_para_pedidos c s).
Proof. apply tentar_alocar_invariante. intros s1. apply passo_invariante. Qed.

Lemma invariante_entra s s' k p :
  invariante s → (k ∉ todas s) → Pedido.id p = k → Pedido.atendido p = false →
  (∃ n, n < ids_gerados s' ∧ k = uuid n) → ids_gerados s ≤ ids_gerados s' →
  pedidos s' = <[k := p]> (pedidos s) →
  todas s' ≡ₚ k :: todas s →
  (∀ y prio, y ∈ fila_de prio s → y ∈ fila_de prio s') →
  k ∈ fila_de (Pedido.prioridade p) s' →
  invariante s'.
Proof.
  intros [Hch Hids Hnd Hfila Hpend] Hnot Hid Hat Hk Hi Hps Htodas Hcresce Hin.
  split.
  - intros k' pk. rewrite Hps. destruct (decide (k = k')) as [<-|Hne].
    + rewrite lookup_insert_eq. by intros [= <-].
    + rewrite lookup_insert_ne by done. apply Hch.
  - intros k'. rewrite Hps. destruct (decide (k = k')) as [<-|Hne]; [done|].
    rewrite lookup_insert_ne by done. intros Hk'.
    destruct (Hids k' Hk') as (n & Hn & ->). exists n. split; [lia|done].
  - rewrite Htodas. by constructor.
  - intros k'. rewrite Htodas, Hps, elem_of_cons. intros [->|Hk'].
    + rewrite lookup_insert_eq. by exists p.
    + rewrite lookup_insert_ne by (intros ->; done). by apply Hfila.
  - intros k' pk. rewrite Hps. destruct (decide (k = k')) as [<-|Hne].
    + rewrite lookup_insert_eq. by intros [= <-].
    + rewrite lookup_insert_ne by done. intros Hk' Hat'. by apply Hcresce, Hpend.
Qed.

Lemma invariante_novo : invariante novo.
Proof.
  split; simpl.
  - intros k p. by rewrite lookup_empty.
  - intros k [p Hp]. by rewrite lookup_empty in Hp.
  - constructor.
  - intros k Hk. by apply elem_of_nil in Hk.
  - intros k p. by rewrite lookup_empty.
Qed.

Lemma invariante_chave_nova s :
  ids_distintos → invariante s →
  pedidos s !! uuid (ids_gerados s) = None ∧ (uuid (ids_gerados s) ∉ todas s).
Proof.
  intros Hinj Hinv.
  assert (pedidos s !! uuid (ids_gerados s) = None) as Hnone.
  { destruct (pedidos s !! uuid (ids_gerados s)) as [p|] eqn:Hp; [|done].
    destruct (inv_ids s Hinv (uuid (ids_gerados s))) as (n & Hn & Heq);
      [by eexists|].
    apply Hinj in Heq. lia. }
  split; [done|]. intros Hin.
  destruct (inv_fila s Hinv _ Hin) as (p & Hp & _). congruence.
Qed.

Lemma cadastrar_doador_invariante nome contato s :
  invariante s → invariante (cadastrar_doador nome contato s).2.
Proof.
  intros Hinv. apply (invariante_ext s); simpl; try done. lia.
Qed.

Lemma registrar_doacao_invariante nome c q d s :
  invariante s → invariante (registrar_doacao nome c q d s).2.
Proof.
  intros Hinv. unfold registrar_doacao. cbn -[_tentar_alocar_para_pedidos].
  apply tentar_alocar_invariante_filas.
  apply (invariante_ext s); simpl; try done. lia.
Qed.

Lemma nivel_casos prio : nivel prio = 0 ∨ nivel prio = 1 ∨ nivel prio = 2.
Proof.
  unfold nivel. destruct (String.eqb prio "alta"); [by left|].
  destruct (String.eqb prio "media"); [by right; left|by right; right].
Qed.

(** The state [cadastrar_pedido] hands to the matching loop. *)
Lemma cadastrar_pedido_eq sol c q prio s :
  let id_ := uuid (ids_gerados s) in
  let pedido := Pedido.mk id_ sol c q prio (agora (leituras_relogio s)) false in
  ∃ s1,
    cadastrar_pedido sol c q prio s = (id_, _tentar_alocar_para_pedidos c s1) ∧
    pedidos s1 = <[id_ := pedido]> (pedidos s) ∧
    fila_alta s1 = fila_alta s ++ (if decide (nivel prio = 0) then [id_] else []) ∧
    fila_media s1 = fila_media s ++ (if decide (nivel prio = 1) then [id_] else []) ∧
    fila_baixa s1 = fila_baixa s ++ (if decide (nivel prio = 2) then [id_] else []) ∧
    doadores s1 = doadores s ∧ estoque s1 = estoque s ∧
    historico_alocacoes s1 = historico_alocacoes s ∧
    logs s1 = logs s ++ [(agora (S (leituras_relogio s)), PedidoCadastrado pedido)] ∧
    ids_gerados s1 = S (ids_gerados s) ∧
    leituras_relogio s1 = S (S (leituras_relogio s)).
Proof.
  cbv zeta. unfold cadastrar_pedido, nivel. cbn -[_tentar_alocar_para_pedidos].
  eexists. split; [reflexivity|].
  destruct (String.eqb prio "alta"); [|destruct (String.eqb prio "media")];
    simpl; rewrite ?app_nil_r; by split_and!.
Qed.

Lemma cadastrar_pedido_invariante sol c q prio s :
  ids_distintos → invariante s → invariante (cadastrar_pedido sol c q prio s).2.
Proof.
  intros Hinj Hinv. destruct (invariante_chave_nova s Hinj Hinv) as [Hnone Hnot].
  destruct (cadastrar_pedido_eq sol c q prio s)
    as (s1 & -> & Hps & Ha & Hm & Hb & _ & _ & _ & _ & Hi & _).
  cbn [snd]. apply tentar_alocar_invariante_filas.
  refine (invariante_entra s s1 (uuid (ids_gerados s)) _ Hinv Hnot _ _ _ _ Hps _ _ _);
    simpl; try done.
  - exists (ids_gerados s). split; [lia|done].
  - lia.
  - unfold todas. rewrite Ha, Hm, Hb.
    destruct (nivel_casos prio) as [Hn|[Hn|Hn]]; rewrite Hn; simpl;
      rewrite ?app_nil_r.
    + rewrite <- app_assoc. simpl. by rewrite <- Permutation_middle.
    + rewrite <- !app_assoc. simpl. by rewrite <- !Permutation_middle.
    + rewrite (app_assoc (fila_alta s)), (app_assoc _ _ [_]).
      rewrite <- Permutation_cons_append. by rewrite <- !app_assoc.
  - intros y prio' Hy. unfold fila_de in *.
    destruct (nivel prio') as [|[|?]]; rewrite ?Ha, ?Hm, ?Hb; set_solver.
  - unfold fila_de. rewrite Ha, Hm, Hb.
    destruct (nivel_casos prio) as [Hn|[Hn|Hn]]; rewrite Hn; simpl; set_solver.
Qed.

(** ** Undo, case by case *)

Lemma desfazer_vazio s :
  historico_alocacoes s = [] →
  desfazer_ultima_alocacao s = (false, log NenhumaAlocacao s).
Proof. intros H. unfold desfazer_ultima_alocacao. by rewrite H. Qed.

Lemma set_atendido_id p :
  Pedido.set_atendido (Pedido.atendido p) p = p.
Proof. by destruct p. Qed.

Lemma desfazer_eq s antes aloc :
  historico_alocacoes s = antes ++ [aloc] →
  let item_recriado :=
    ItemDoacao.mk (Alocacao.item_id aloc)
      ("Item_recuperado_" +:+ Alocacao.item_id aloc) "Desconhecido"
      (Alocacao.quantidade aloc) (agora (leituras_relogio s)) in
  ∃ s',
    desfazer_ultima_alocacao s = (true, s') ∧
    historico_alocacoes s' = antes ∧
    estoque s' =
      <["Desconhecido" := itens_de "Desconhecido" (estoque s) ++ [item_recriado]]>
        (estoque s) ∧
    doadores s' = doadores s ∧ ids_gerados s' = ids_gerados s ∧
    match pedidos s !! Alocacao.pedido_id aloc with
    | None =>
        pedidos s' = pedidos s ∧ fila_alta s' = fila_alta s ∧
        fila_media s' = fila_media s ∧ fila_baixa s' = fila_baixa s
    | Some pedido =>
        let volta :=
          if Pedido.atendido pedido then [Pedido.id pedido] else [] in
        pedidos s' =
          <[Alocacao.pedido_id aloc :=
              Pedido.set_quantidade
                (Pedido.quantidade pedido + Alocacao.quantidade aloc)
                (Pedido.set_atendido false pedido)]> (pedidos s) ∧
        fila_alta s' =
          (if decide (nivel (Pedido.prioridade pedido) = 0) then volta else [])
          ++ fila_alta s ∧
        fila_media s' =
          (if decide (nivel (Pedido.prioridade pedido) = 1) then volta else [])
          ++ fila_media s ∧
        fila_baixa s' =
          (if decide (nivel (Pedido.prioridade pedido) = 2) then volta else [])
          ++ fila_baixa s
    end.
Proof.
  intros Hh. cbv zeta. unfold desfazer_ultima_alocacao.
  rewrite Hh, reverse_snoc. cbn. rewrite reverse_involutive.
  destruct (pedidos s !! Alocacao.pedido_id aloc) as [pedido|] eqn:Hp.
  2:{ eexists. split; [reflexivity|]. by split_and!. }
  destruct (Pedido.atendido pedido) eqn:Hat.
  - unfold nivel. cbn.
    destruct (String.eqb (Pedido.prioridade pedido) "alta");
      [|destruct (String.eqb (Pedido.prioridade pedido) "media")];
      (eexists; split; [reflexivity|]; by split_and!).
  - eexists. split; [reflexivity|]. cbn. split_and!; try done.
    + by rewrite <- Hat, set_atendido_id.
    + by destruct (decide _).
    + by destruct (decide _).
    + by destruct (decide _).
Qed.

Lemma lista_fim {A} (l : list A) : l = [] ∨ ∃ antes x, l = antes ++ [x].
Proof.
  induction l as [|x l _] using rev_ind; [by left|right]. by exists l, x.
Qed.

Lemma desfazer_invariante s :
  invariante s → invariante (desfazer_ultima_alocacao s).2.
Proof.
  intros Hinv. destruct (lista_fim (historico_alocacoes s)) as [Hh|(antes & aloc & Hh)].
  { rewrite desfazer_vazio by done. apply (invariante_ext s); simpl; done. }
  destruct (desfazer_eq s antes aloc Hh) as (s' & -> & _ & _ & _ & Hi & Hcaso).
  cbn [snd].
  destruct (pedidos s !! Alocacao.pedido_id aloc) as [pedido|] eqn:Hp.
  2:{ destruct Hcaso as (Hps & Ha & Hm & Hb).
      apply (invariante_ext s); try done; try lia; by rewrite ?Ha, ?Hm, ?Hb. }
  cbn zeta in Hcaso. destruct Hcaso as (Hps & Ha & Hm & Hb).
  pose proof (inv_chaves s Hinv _ _ Hp) as Hid.
  destruct (Pedido.atendido pedido) eqn:Hat.
  - assert (Alocacao.pedido_id aloc ∉ todas s) as Hnot.
    { intros Hin. destruct (inv_fila s Hinv _ Hin) as (p' & Hp' & Hat'). congruence. }
    refine (invariante_entra s s' (Alocacao.pedido_id aloc) _ Hinv Hnot _ _ _ _ Hps _ _ _);
      simpl; try done.
    + rewrite Hi. apply (inv_ids s Hinv). by eexists.
    + lia.
    + unfold todas. rewrite Ha, Hm, Hb, Hid.
      destruct (nivel_casos (Pedido.prioridade pedido)) as [Hn|[Hn|Hn]];
        rewrite Hn; simpl.
      * done.
      * by rewrite <- Permutation_middle.
      * by rewrite <- !Permutation_middle.
    + intros y prio' Hy. unfold fila_de in *.
      destruct (nivel prio') as [|[|?]]; rewrite ?Ha, ?Hm, ?Hb; set_solver.
    + unfold fila_de. rewrite Ha, Hm, Hb, Hid.
      destruct (nivel_casos (Pedido.prioridade pedido)) as [Hn|[Hn|Hn]];
        rewrite Hn; simpl; set_solver.
  - refine (invariante_atualiza s s' _ pedido _ Hinv Hp Hat _ Hps _ _); simpl.
    + done.
    + lia.
    + rewrite Ha, Hm, Hb. by repeat destruct (decide _).
Qed.

Lemma executar_invariante op s :
  ids_distintos → invariante s → invariante (executar op s).
Proof.
  intros Hinj Hinv. destruct op; simpl.
  - by apply cadastrar_doador_invariante.
  - by apply registrar_doacao_invariante.
  - by apply cadastrar_pedido_invariante.
  - by apply desfazer_invariante.
Qed.

Lemma executar_todas_invariante ops s :
  ids_distintos → invariante s → invariante (executar_todas ops s).
Proof.
  intros Hinj. revert s. induction ops as [|op ops IH]; intros s Hinv; [done|].
  simpl. apply IH. by apply executar_invariante.
Qed.

(** ** Positive quantities *)

Lemma positivo_novo : positivo novo.
Proof.
  split; simpl.
  - intros k p. by rewrite lookup_empty.
  - intros c item. rewrite itens_de_vazio. by intros ?%elem_of_nil.
  - by intros a ?%elem_of_nil.
Qed.

Lemma positivo_ext s s' :
  pedidos s' = pedidos s → (∀ k, itens_de k (estoque s') = itens_de k (estoque s)) →
  historico_alocacoes s' = historico_alocacoes s →
  positivo s → positivo s'.
Proof.
  intros Hps He Hh [Hp Hest Hhist]. split.
  - intros k p. rewrite Hps. apply Hp.
  - intros c item. rewrite He. apply Hest.
  - intros a. rewrite Hh. apply Hhist.
Qed.

Lemma passo_positivo c s : positivo s → positivo (estado_de (passo c s)).
Proof.
  intros Hpos.
  destruct (passo_caso c s) as [| |pid Hprox Hne Hst| |chave p s1 Hesc];
    simpl; try done.
  - by apply (positivo_ext s).
  - destruct (escolhe_props _ _ _ _ _ Hesc)
      as (_ & Hp & Hat & Hc & Hd & He & Hps & Hh & _).
    assert (positivo s1) as Hpos1.
    { apply (positivo_ext s); try done. intros k. by rewrite He. }
    destruct (alocar c chave p s1) as [s'|s'] eqn:Hal; simpl.
    + apply alocar_Para in Hal as [_ ->].
      apply (positivo_ext s1); simpl; try done. intros k. apply itens_de_tocar.
    + destruct (alocar_Continua _ _ _ _ _ Hal)
        as (item & resto & Hit & Hhist & Hest & Hped & _).
      cbn zeta in *. destruct Hpos1 as [Hpp Hpe Hph].
      assert (0 < ItemDoacao.quantidade item)%Z as Hqi.
      { apply (Hpe c). rewrite Hit. apply elem_of_cons. by left. }
      assert (0 < Pedido.quantidade p)%Z as Hqp.
      { apply (Hpp chave); [by rewrite Hps|done]. }
      split.
      * intros k pk. rewrite Hped. destruct (decide (chave = k)) as [<-|Hk].
        -- rewrite lookup_insert_eq. intros [= <-].
           match goal with |- context [if ?b then _ else _] =>
             destruct b eqn:Hq end; simpl.
           ++ apply Z.leb_le in Hq. split; [lia|done].
           ++ apply Z.leb_gt in Hq. split; [lia|done].
        -- rewrite lookup_insert_ne by done. apply Hpp.
      * intros k it. rewrite Hest. destruct (decide (c = k)) as [<-|Hk].
        -- rewrite itens_de_insert.
           match goal with |- context [if ?b then _ else _] =>
             destruct b eqn:Hq end.
           ++ intros Hin. apply (Hpe c). rewrite Hit. apply elem_of_cons. by right.
           ++ apply Z.leb_gt in Hq. intros [->|Hin]%elem_of_cons; [done|].
              apply (Hpe c). rewrite Hit. apply elem_of_cons. by right.
        -- rewrite itens_de_insert_ne, itens_de_tocar by done. apply Hpe.
      * intros a. rewrite Hhist. intros [Hin|Hin%list_elem_of_singleton]%elem_of_app.
        -- by apply Hph.
        -- subst a. simpl. lia.
Qed.

Lemma tentar_alocar_positivo c s :
  positivo s → positivo (_tentar_alocar_para_pedidos c s).
Proof. apply tentar_alocar_invariante. intros s1. apply passo_positivo. Qed.

Lemma executar_positivo op s :
  op_positiva op → positivo s → positivo (executar op s).
Proof.
  intros Hop Hpos. destruct op as [nome contato|nome c q d|sol c q prio|];
    unfold executar; simpl in Hop.
  - by apply (positivo_ext s).
  - unfold registrar_doacao. cbn -[_tentar_alocar_para_pedidos].
    apply tentar_alocar_positivo. destruct Hpos as [Hpp Hpe Hph].
    split; simpl; try done.
    intros k it. destruct (decide (c = k)) as [<-|Hk].
    + rewrite itens_de_insert. intros [Hin|Hin%list_elem_of_singleton]%elem_of_app.
      * by apply (Hpe c).
      * by subst it.
    + rewrite itens_de_insert_ne by done. apply Hpe.
  - destruct (cadastrar_pedido_eq sol c q prio s)
      as (s1 & -> & Hps & _ & _ & _ & _ & He & Hh & _).
    cbn [snd]. apply tentar_alocar_positivo. destruct Hpos as [Hpp Hpe Hph].
    split.
    + intros k pk. rewrite Hps.
      destruct (decide (uuid (ids_gerados s) = k)) as [<-|Hk].
      * rewrite lookup_insert_eq. intros [= <-]. simpl in *. split; [lia|done].
      * rewrite lookup_insert_ne by done. apply Hpp.
    + intros k it. rewrite He. apply Hpe.
    + intros a. rewrite Hh. apply Hph.
  - destruct (lista_fim (historico_alocacoes s)) as [Hh|(antes & aloc & Hh)].
    { rewrite desfazer_vazio by done. by apply (positivo_ext s). }
    destruct (desfazer_eq s antes aloc Hh) as (s' & -> & Hh' & He & _ & _ & Hcaso).
    cbn [snd]. destruct Hpos as [Hpp Hpe Hph].
    assert (0 < Alocacao.quantidade aloc)%Z as Hqa.
    { apply Hph. rewrite Hh. apply elem_of_app. right. apply elem_of_cons. by left. }
    split.
    + intros k pk.
      destruct (pedidos s !! Alocacao.pedido_id aloc) as [pedido|] eqn:Hp.
      * cbn zeta in Hcaso. destruct Hcaso as (-> & _).
        destruct (decide (Alocacao.pedido_id aloc = k)) as [<-|Hk].
        -- rewrite lookup_insert_eq. intros [= <-]. simpl.
           destruct (Hpp _ _ Hp) as [H0 _]. split; [lia|intros _; lia].
        -- rewrite lookup_insert_ne by done. apply Hpp.
      * destruct Hcaso as (-> & _). apply Hpp.
    + intros k it. rewrite He.
      destruct (decide ("Desconhecido" = k)) as [<-|Hk].
      * rewrite itens_de_insert.
        intros [Hin|Hin%list_elem_of_singleton]%elem_of_app.
        -- by apply (Hpe "Desconhecido").
        -- by subst it.
      * rewrite itens_de_insert_ne by done. apply Hpe.
    + intros a Hin. apply Hph. rewrite Hh. rewrite Hh' in Hin.
      apply elem_of_app. by left.
Qed.

Lemma executar_todas_positivo ops s :
  Forall op_positiva ops → positivo s → positivo (executar_todas ops s).
Proof.
  intros Hops. revert s. induction Hops as [|op ops Hop Hops IH]; intros s Hpos;
    [done|].
  simpl. apply IH. by apply executar_positivo.
Qed.

(** ** Priority *)


Lemma fila_nivel_todas n s k : k ∈ fila_nivel n s → k ∈ todas s.
Proof. unfold todas. destruct n as [|[|?]]; simpl; set_solver. Qed.




(** A queue holding a compatible request is not passed over by the scan. *)
Lemma achado_compativel c s fila k :
  ids_nao_vazios → invariante s →
  (∀ y, y ∈ fila → y ∈ todas s) →
  k ∈ fila → compativel c (pedidos s) k = true →
  achado (achar c (pedidos s) fila) ≠ None.
Proof.
  intros Hnv Hinv Hsub Hk Hcomp.
  destruct (achar c (pedidos s) fila) as [f|] eqn:Ha.
  - pose proof (achar_elem _ _ _ _ Ha) as Hf.
    destruct (inv_fila s Hinv f (Hsub f Hf)) as (p & Hp & _).
    destruct (inv_ids s Hinv f) as (n & _ & ->); [by eexists|].
    unfold achado, verdadeira. specialize (Hnv n).
    apply String.eqb_neq in Hnv. by rewrite Hnv.
  - apply achar_None in Ha. rewrite Forall_forall in Ha.
    specialize (Ha k Hk). congruence.
Qed.




(** ** Conservation *)

Lemma soma_lista_ext {A} (f g : A → Z) l :
  (∀ x, x ∈ l → f x = g x) → soma_lista f l = soma_lista g l.
Proof.
  induction l as [|x l IH]; simpl; intros H; [done|].
  rewrite H, IH; [done| |apply elem_of_cons; by left].
  intros y Hy. apply H. apply elem_of_cons. by right.
Qed.

Lemma soma_mapa_ext {A} (f g : A → Z) (m : gmap string A) :
  (∀ k x, m !! k = Some x → f x = g x) → soma_mapa f m = soma_mapa g m.
Proof.
  induction m as [|k x m Hk IH] using map_ind; intros H.
  - by rewrite !soma_mapa_empty.
  - rewrite !soma_mapa_insert_None by done. rewrite IH.
    + rewrite (H k x); [done|apply lookup_insert_eq].
    + intros k' x' Hk'. apply (H k'). rewrite lookup_insert_ne; [done|].
      intros ->. congruence.
Qed.

Lemma soma_estoque_insert (f : ItemDoacao.t → Z) e k l :
  soma_mapa (soma_lista f) (<[k := l]> e) =
    (soma_mapa (soma_lista f) e - soma_lista f (itens_de k e) + soma_lista f l)%Z.
Proof.
  unfold itens_de. destruct (e !! k) as [l0|] eqn:Hk; simpl.
  - by erewrite soma_mapa_insert_Some.
  - rewrite soma_mapa_insert_None by done. lia.
Qed.

Lemma soma_estoque_tocar (f : ItemDoacao.t → Z) e k :
  soma_mapa (soma_lista f) (tocar k e) = soma_mapa (soma_lista f) e.
Proof.
  unfold tocar. destruct (e !! k) eqn:Hk; [done|].
  rewrite soma_mapa_insert_None by done. simpl. lia.
Qed.


Lemma origem_app_Some reg reg' id :
  is_Some (origem reg id) → origem (reg ++ reg') id = origem reg id.
Proof.
  induction reg as [|[[i c] q] reg IH]; simpl; [by intros [? ?]|].
  destruct (String.eqb i id); [done|]. apply IH.
Qed.

Lemma origem_app_None reg reg' id :
  origem reg id = None → origem (reg ++ reg') id = origem reg' id.
Proof.
  induction reg as [|[[i c] q] reg IH]; simpl; [done|].
  destruct (String.eqb i id); [done|]. apply IH.
Qed.

Lemma origem_None reg id :
  (∀ d, d ∈ reg → d.1.1 ≠ id) → origem reg id = None.
Proof.
  induction reg as [|[[i c] q] reg IH]; simpl; intros H; [done|].
  destruct (String.eqb_spec i id) as [->|_].
  - exfalso. apply (H (id, c, q)); [apply elem_of_cons; by left|done].
  - apply IH. intros d Hd. apply H. apply elem_of_cons. by right.
Qed.

Lemma peso_app reg reg' c id q :
  is_Some (origem reg id) → peso (reg ++ reg') c id q = peso reg c id q.
Proof. intros H. unfold peso. by rewrite origem_app_Some. Qed.

Lemma doado_app reg reg' c : doado (reg ++ reg') c = (doado reg c + doado reg' c)%Z.
Proof. unfold doado. apply soma_lista_app. Qed.

Lemma contas_novo : contas [] novo.
Proof.
  split; simpl.
  - intros c. unfold em_estoque, alocado, doado. simpl.
    by rewrite soma_mapa_empty.
  - by intros d ?%elem_of_nil.
  - intros k u. rewrite itens_de_vazio. by intros ?%elem_of_nil.
  - by intros a ?%elem_of_nil.
Qed.

Lemma contas_ext reg s s' :
  estoque s' = estoque s → historico_alocacoes s' = historico_alocacoes s →
  ids_gerados s ≤ ids_gerados s' →
  contas reg s → contas reg s'.
Proof.
  intros He Hh Hi [Hs Hids Hest Hhist]. split.
  - intros c. unfold em_estoque, alocado. rewrite He, Hh. apply Hs.
  - intros d Hd. destruct (Hids d Hd) as (n & Hn & ->). exists n. split; [lia|done].
  - intros k u. rewrite He. apply Hest.
  - intros a. rewrite Hh. apply Hhist.
Qed.

Lemma peso_linear reg c id q1 q2 :
  peso reg c id (q1 + q2) = (peso reg c id q1 + peso reg c id q2)%Z.
Proof.
  unfold peso. destruct (origem reg id) as [c'|]; [|lia].
  destruct (String.eqb c' c); lia.
Qed.

Lemma peso_zero reg c id : peso reg c id 0 = 0%Z.
Proof.
  unfold peso. destruct (origem reg id) as [c'|]; [|done].
  by destruct (String.eqb c' c).
Qed.

Lemma passo_contas reg c s : contas reg s → contas reg (estado_de (passo c s)).
Proof.
  intros Hct.
  destruct (passo_caso c s) as [| |pid Hprox Hne Hst| |chave p s1 Hesc];
    simpl; try done.
  - by apply (contas_ext reg s).
  - destruct (escolhe_props _ _ _ _ _ Hesc)
      as (_ & _ & _ & _ & _ & He & _ & Hh & _ & Hi & _).
    assert (contas reg s1) as Hct1.
    { apply (contas_ext reg s); try done. lia. }
    clear Hct. destruct Hct1 as [Hs Hids Hest Hhist].
    destruct (alocar c chave p s1) as [s'|s'] eqn:Hal; simpl.
    + apply alocar_Para in Hal as [_ ->]. split; simpl; try done.
      * intros c0. unfold em_estoque, alocado. simpl.
        rewrite soma_estoque_tocar. apply Hs.
      * intros k u. rewrite itens_de_tocar. apply Hest.
    + destruct (alocar_Continua _ _ _ _ _ Hal)
        as (item & resto & Hit & Hhs & Hes & _ & _ & _ & _ & Hids' & _).
      cbn zeta in *.
      set (qtd := Z.min (ItemDoacao.quantidade item) (Pedido.quantidade p)) in *.
      split.
      * intros c0. specialize (Hs c0). unfold em_estoque, alocado in *.
        rewrite Hes, Hhs, soma_estoque_insert, soma_estoque_tocar, itens_de_tocar,
          Hit, soma_lista_app.
        simpl. rewrite <- Hs. clear Hs.
        assert (peso reg c0 (ItemDoacao.id item) (ItemDoacao.quantidade item) =
                (peso reg c0 (ItemDoacao.id item) (ItemDoacao.quantidade item - qtd)
                 + peso reg c0 (ItemDoacao.id item) qtd)%Z) as Hlin.
        { rewrite <- peso_linear. f_equal. lia. }
        destruct (ItemDoacao.quantidade item - qtd <=? 0)%Z eqn:Hq; simpl.
        -- apply Z.leb_le in Hq.
           assert (ItemDoacao.quantidade item - qtd = 0)%Z as H0 by lia.
           rewrite H0, peso_zero in Hlin. lia.
        -- lia.
      * intros d Hd. destruct (Hids d Hd) as (n & Hn & ->).
        exists n. split; [lia|done].
      * intros k u. rewrite Hes. destruct (decide (c = k)) as [<-|Hk].
        -- rewrite itens_de_insert.
           assert (u ∈ resto → is_Some (origem reg (ItemDoacao.id u))) as Hresto.
           { intros Hu. apply (Hest c). rewrite Hit. apply elem_of_cons. by right. }
           destruct (_ <=? 0)%Z; [done|].
           intros [->|Hu]%elem_of_cons; [|by apply Hresto].
           simpl. apply (Hest c). rewrite Hit. apply elem_of_cons. by left.
        -- rewrite itens_de_insert_ne, itens_de_tocar by done. apply Hest.
      * intros a. rewrite Hhs.
        intros [Ha|Ha%list_elem_of_singleton]%elem_of_app; [by apply Hhist|].
        subst a. simpl. apply (Hest c). rewrite Hit. apply elem_of_cons. by left.
Qed.

Lemma tentar_alocar_contas reg c s :
  contas reg s → contas reg (_tentar_alocar_para_pedidos c s).
Proof. apply tentar_alocar_invariante. intros s1. apply passo_contas. Qed.

Lemma itens_de_Some k e l : e !! k = Some l → itens_de k e = l.
Proof. intros H. unfold itens_de. by rewrite H. Qed.

Lemma contas_mais reg reg' s :
  contas reg s →
  (∀ c, em_estoque (reg ++ reg') c s = em_estoque reg c s) ∧
  (∀ c, alocado (reg ++ reg') c s = alocado reg c s).
Proof.
  intros [_ _ Hest Hhist]. split; intros c.
  - unfold em_estoque. apply soma_mapa_ext. intros k l Hk.
    apply soma_lista_ext. intros u Hu. apply peso_app, (Hest k).
    by rewrite (itens_de_Some k _ l).
  - unfold alocado. apply soma_lista_ext. intros a Ha. by apply peso_app, Hhist.
Qed.

Lemma executar_contas reg op s :
  ids_distintos → contas reg s →
  contas (reg ++ doacao_de op s) (executar op s).
Proof.
  intros Hinj Hct.
  destruct op as [nome contato|nome c q d|sol c q prio|]; unfold executar;
    simpl doacao_de; rewrite ?app_nil_r.
  - apply (contas_ext reg s); simpl; try done. lia.
  - unfold registrar_doacao. cbn -[_tentar_alocar_para_pedidos].
    apply tentar_alocar_contas.
    destruct (contas_mais reg [(uuid (ids_gerados s), c, q)] s Hct) as [Hem Hal].
    destruct Hct as [Hs Hids Hest Hhist].
    assert (origem (reg ++ [(uuid (ids_gerados s), c, q)]) (uuid (ids_gerados s))
              = Some c) as Horig.
    { rewrite origem_app_None.
      - simpl. by rewrite String.eqb_refl.
      - apply origem_None. intros d' Hd' Heq.
        destruct (Hids d' Hd') as (n & Hn & Hdn). rewrite Hdn in Heq.
        apply Hinj in Heq. lia. }
    split; simpl.
    + intros c0. unfold em_estoque, alocado in *. simpl.
      rewrite soma_estoque_insert, soma_lista_app. simpl.
      rewrite Hem, Hal, doado_app, <- (Hs c0).
      unfold peso. rewrite Horig. unfold doado. simpl. lia.
    + intros d' [Hd'|Hd'%list_elem_of_singleton]%elem_of_app.
      * destruct (Hids d' Hd') as (n & Hn & ->). exists n. split; [lia|done].
      * subst d'. exists (ids_gerados s). split; [lia|done].
    + intros k u. destruct (decide (c = k)) as [<-|Hk].
      * rewrite itens_de_insert.
        intros [Hu|Hu%list_elem_of_singleton]%elem_of_app.
        -- rewrite origem_app_Some; by apply (Hest c).
        -- subst u. simpl. by rewrite Horig.
      * rewrite itens_de_insert_ne by done. intros Hu.
        rewrite origem_app_Some; by apply (Hest k).
    + intros a Ha. rewrite origem_app_Some; by apply Hhist.
  - destruct (cadastrar_pedido_eq sol c q prio s)
      as (s1 & -> & _ & _ & _ & _ & _ & He & Hh & _ & Hi & _).
    cbn [snd]. apply tentar_alocar_contas.
    apply (contas_ext reg s); try done. lia.
  - destruct (lista_fim (historico_alocacoes s)) as [Hh|(antes & aloc & Hh)].
    { rewrite desfazer_vazio by done. by apply (contas_ext reg s). }
    destruct (desfazer_eq s antes aloc Hh) as (s' & -> & Hh' & He & _ & Hi & _).
    cbn [snd]. destruct Hct as [Hs Hids Hest Hhist].
    assert (is_Some (origem reg (Alocacao.item_id aloc))) as Horig.
    { apply Hhist. rewrite Hh. apply elem_of_app. right. apply elem_of_cons. by left. }
    split.
    + intros c0. specialize (Hs c0). unfold em_estoque, alocado in *.
      rewrite He, Hh', soma_estoque_insert, soma_lista_app. simpl.
      rewrite Hh, soma_lista_app in Hs. simpl in Hs. lia.
    + intros d' Hd'. rewrite Hi. by apply Hids.
    + intros k u. rewrite He. destruct (decide ("Desconhecido" = k)) as [<-|Hk].
      * rewrite itens_de_insert.
        intros [Hu|Hu%list_elem_of_singleton]%elem_of_app.
        -- by apply (Hest "Desconhecido").
        -- by subst u.
      * rewrite itens_de_insert_ne by done. apply Hest.
    + intros a Ha. apply Hhist. rewrite Hh. apply elem_of_app. left.
      by rewrite <- Hh'.
Qed.

Lemma executar_todas_contas ops reg s :
  ids_distintos → contas reg s →
  contas (reg ++ doacoes_de ops s) (executar_todas ops s).
Proof.
  intros Hinj. revert reg s. induction ops as [|op ops IH]; intros reg s Hct.
  - simpl. by rewrite app_nil_r.
  - simpl. rewrite app_assoc. apply IH. by apply executar_contas.
Qed.

(** * The claims *)

(** C3, as amended: the matched request is brought to the front by turning
    the queue, so the entries that stood before it end up, in their own
    order, behind those that stood after it; only the cyclic order of the
    queue is kept. *)
Theorem promover_gira_a_fila c ps fila found :
  achar c ps fila = Some found →
  ∃ antes depois,
    fila = antes ++ found :: depois ∧ (found ∉ antes) ∧
    trazer_para_frente found fila = found :: depois ++ antes.
Proof.
  intros Hf. destruct (achar_Some _ _ _ _ Hf) as (antes & depois & -> & Hantes & Hc).
  assert (found ∉ antes) as Hnot.
  { intros Hin. rewrite Forall_forall in Hantes. specialize (Hantes _ Hin).
    congruence. }
  exists antes, depois. split_and!; [done..|]. by apply trazer_para_frente_app.
Qed.

(** C6 (invariant I1): every allocation a run of the matching loop appends
    to the history was committed in a state the run passed through, between
    the oldest unit of the category and a stored request, for exactly the
    minimum of their two remaining quantities, hence for no more than
    either. *)
Theorem I1_quantidade_alocada c s :
  ∃ novas,
    historico_alocacoes (_tentar_alocar_para_pedidos c s) =
      historico_alocacoes s ++ novas ∧
    Forall (λ a, ∃ s0, rtc (rodada c) s s0 ∧ par_alocado c s0 a) novas.
Proof. eapply iterar_historico, tentar_alocar_iterar. Qed.


(** C10: units are consumed oldest first.  Every allocation a round commits
    takes from the unit at the head of its category, i.e. the one donated
    first; and after donating 5 and then 3 units of "Alimentos" to an empty
    system and asking for 4 at priority "alta", the history holds the single
    allocation of 4 from the first donation, the stock of the category is
    the first unit with 1 left followed by the untouched second one (4 in
    all), and the request is satisfied and off the queues. *)
Theorem fifo_por_categoria (n1 n2 sol : string) (d1 d2 : option string) :
  uuid 2 ≠ "" →
  (∀ c s s' a, rodada c s s' →
     historico_alocacoes s' = historico_alocacoes s ++ [a] →
     ∃ item resto, itens_de c (estoque s) = item :: resto ∧
       Alocacao.item_id a = ItemDoacao.id item) ∧
  let s1 := (registrar_doacao n1 "Alimentos" 5 d1 novo).2 in
  let s2 := (registrar_doacao n2 "Alimentos" 3 d2 s1).2 in
  let s3 := (cadastrar_pedido sol "Alimentos" 4 "alta" s2).2 in
  historico_alocacoes s3 =
    [Alocacao.mk (uuid 3) (uuid 0) (uuid 2) 4 (agora 6)] ∧
  itens_de "Alimentos" (estoque s3) =
    [ItemDoacao.mk (uuid 0) n1 "Alimentos" 1 (agora 0);
     ItemDoacao.mk (uuid 1) n2 "Alimentos" 3 (agora 2)] ∧
  oferta "Alimentos" s3 = 4%Z ∧
  pedidos s3 !! uuid 2 =
    Some (Pedido.mk (uuid 2) sol "Alimentos" 0 "alta" (agora 4) true) ∧
  fila_alta s3 = [] ∧ fila_media s3 = [] ∧ fila_baixa s3 = [].
Proof.
  intros Hne. split.
  { intros c s s' a Hrod Hhist.
    destruct (rodada_historico _ _ _ Hrod) as [Heq|(a' & Heq & Hpar)].
    - rewrite Heq in Hhist. apply (f_equal length) in Hhist.
      rewrite length_app in Hhist. simpl in Hhist. lia.
    - rewrite Heq in Hhist. apply app_inj_tail in Hhist as [_ ->].
      destruct Hpar as (chave & p & item & resto & _ & Hit & Hid & _).
      by exists item, resto. }
  cbv zeta.
  destruct (registrar_doacao n1 "Alimentos" 5 d1 novo) as [i1 s1] eqn:H1.
  unfold registrar_doacao in H1. cbn -[_tentar_alocar_para_pedidos] in H1.
  rewrite tentar_alocar_eq, passo_vazio in H1 by done.
  injection H1 as <- <-. cbn [snd].
  destruct (registrar_doacao n2 _ _ _ _) as [i2 s2] eqn:H2.
  unfold registrar_doacao in H2. cbn -[_tentar_alocar_para_pedidos] in H2.
  rewrite tentar_alocar_eq, passo_vazio in H2 by done.
  injection H2 as <- <-. cbn [snd].
  destruct (cadastrar_pedido  _ _ _ _ _) as [i3 s3] eqn:H3.
  unfold cadastrar_pedido in H3. cbn -[_tentar_alocar_para_pedidos] in H3.
  rewrite itens_de_vazio, itens_de_insert in H3. cbn [app] in H3.
  rewrite tentar_alocar_eq in H3.
  erewrite passo_frente in H3; [|done|done|apply lookup_insert_eq|done|done].
  erewrite alocar_item in H3; [|cbn; by rewrite itens_de_insert].
  unfold efetivar in H3. cbn -[_tentar_alocar_para_pedidos] in H3.
  unfold remover_das_filas in H3. cbn -[_tentar_alocar_para_pedidos] in H3.
  rewrite String.eqb_refl in H3. cbn -[_tentar_alocar_para_pedidos] in H3.
  rewrite tentar_alocar_eq, passo_vazio in H3 by done.
  injection H3 as <- <-. unfold oferta. cbn.
  rewrite itens_de_insert, lookup_insert_eq. done.
Qed.

(** C1, as amended: after a donation of 10 units in a category other than
    "Desconhecido" and a request for 4 of them at priority "alta", the
    history holds one allocation of 4; undoing it succeeds, empties the
    history, gives the request its 4 units back, unsatisfied and at the
    front of the high queue, and puts the 4 units in stock as a new unit
    with the id of the donated one, named "Item_recuperado_<id>", under the
    category "Desconhecido"; the donated category keeps its 6 units. *)
Theorem desfazer_devolve_a_desconhecido (nome sol cat : string) (d : option string) :
  uuid 1 ≠ "" → cat ≠ "Desconhecido" →
  let s1 := (registrar_doacao nome cat 10 d novo).2 in
  let s2 := (cadastrar_pedido sol cat 4 "alta" s1).2 in
  let r := desfazer_ultima_alocacao s2 in
  historico_alocacoes s2 = [Alocacao.mk (uuid 2) (uuid 0) (uuid 1) 4 (agora 4)] ∧
  r.1 = true ∧
  historico_alocacoes r.2 = [] ∧
  pedidos r.2 !! uuid 1 = Some (Pedido.mk (uuid 1) sol cat 4 "alta" (agora 2) false) ∧
  fila_alta r.2 = [uuid 1] ∧
  itens_de cat (estoque r.2) = [ItemDoacao.mk (uuid 0) nome cat 6 (agora 0)] ∧
  itens_de "Desconhecido" (estoque r.2) =
    [ItemDoacao.mk (uuid 0) ("Item_recuperado_" +:+ uuid 0) "Desconhecido" 4
       (agora 6)] ∧
  oferta cat r.2 = 6%Z ∧ oferta "Desconhecido" r.2 = 4%Z.
Proof.
  intros Hne Hcat. cbv zeta.
  destruct (registrar_doacao nome cat 10 d novo) as [i1 s1] eqn:H1.
  unfold registrar_doacao in H1. cbn -[_tentar_alocar_para_pedidos] in H1.
  rewrite tentar_alocar_eq, passo_vazio in H1 by done.
  injection H1 as <- <-. cbn [snd].
  destruct (cadastrar_pedido  _ _ _ _ _) as [i2 s2] eqn:H2.
  unfold cadastrar_pedido in H2. cbn -[_tentar_alocar_para_pedidos] in H2.
  rewrite itens_de_vazio in H2. cbn [app] in H2.
  rewrite tentar_alocar_eq in H2.
  erewrite passo_frente in H2; [|done|done|apply lookup_insert_eq|done|done].
  erewrite alocar_item in H2; [|cbn; by rewrite itens_de_insert].
  unfold efetivar in H2. cbn -[_tentar_alocar_para_pedidos] in H2.
  unfold remover_das_filas in H2. cbn -[_tentar_alocar_para_pedidos] in H2.
  rewrite String.eqb_refl in H2. cbn -[_tentar_alocar_para_pedidos] in H2.
  rewrite tentar_alocar_eq, passo_vazio in H2 by done.
  injection H2 as <- <-. cbn [snd].
  unfold desfazer_ultima_alocacao. cbn. rewrite lookup_insert_eq. cbn.
  unfold oferta. cbn.
  arruma. done.
Qed.


(** C4, as amended: in a state whose queues hold only stored, unsatisfied
    requests, if no queued request is compatible with the category or the
    category has no stock, the matching step adds nothing to the history
    and changes neither the requests, nor the units of any category, nor
    the donors, the log or the counters; every queue keeps its entries,
    though the one holding the first compatible request may have been
    turned to bring it to the front.  When no queued request is compatible
    the state is left exactly as it was.  Running the step again changes
    nothing more. *)
Theorem casamento_sem_alocacao c s :
  filas_validas s → sem_pedido c s ∨ sem_estoque c s →
  let s' := _tentar_alocar_para_pedidos c s in
  historico_alocacoes s' = historico_alocacoes s ∧
  pedidos s' = pedidos s ∧
  (∀ k, itens_de k (estoque s') = itens_de k (estoque s)) ∧
  fila_alta s' ≡ₚ fila_alta s ∧ fila_media s' ≡ₚ fila_media s ∧
  fila_baixa s' ≡ₚ fila_baixa s ∧
  doadores s' = doadores s ∧ logs s' = logs s ∧
  ids_gerados s' = ids_gerados s ∧ leituras_relogio s' = leituras_relogio s ∧
  (sem_pedido c s → s' = s) ∧
  _tentar_alocar_para_pedidos c s' = s'.
Proof.
  intros Hval Hsem. cbv zeta.
  destruct (passo_sem_alocar c s Hval Hsem)
    as (r & Hpasso & Hh & Hp & He & Ha & Hm & Hb & Hd & Hl & Hi & Hr & Hs).
  assert (_tentar_alocar_para_pedidos c s = r) as Heq.
  { by rewrite tentar_alocar_eq, Hpasso. }
  rewrite tentar_alocar_de_novo, Heq. by split_and!.
Qed.


(** C8, as amended: in every state the operations lead to, no id occurs
    twice in the three queues taken together; every queued id is that of a
    stored request that is not satisfied, so a satisfied request is in no
    queue; and when all the donations and requests registered had positive
    quantities, every queued request has a positive remaining quantity. *)
Theorem filas_sem_repeticao ops :
  ids_distintos →
  let s := executar_todas ops novo in
  NoDup (todas s) ∧
  (∀ k, k ∈ todas s →
     ∃ p, pedidos s !! k = Some p ∧ Pedido.id p = k ∧ Pedido.atendido p = false) ∧
  (∀ k p, pedidos s !! k = Some p → Pedido.atendido p = true → k ∉ todas s) ∧
  (Forall op_positiva ops →
   ∀ k, k ∈ todas s →
     ∃ p, pedidos s !! k = Some p ∧ (0 < Pedido.quantidade p)%Z).
Proof.
  intros Hinj s.
  assert (invariante s) as Hinv.
  { apply executar_todas_invariante; [done|apply invariante_novo]. }
  split_and!.
  - apply Hinv.
  - intros k Hk. destruct (inv_fila s Hinv k Hk) as (p & Hp & Hat).
    exists p. split_and!; [done| |done]. by apply (inv_chaves s Hinv).
  - intros k p Hp Hat Hk. destruct (inv_fila s Hinv k Hk) as (p' & Hp' & Hat').
    congruence.
  - intros Hops k Hk. destruct (inv_fila s Hinv k Hk) as (p & Hp & Hat).
    assert (positivo s) as Hpos.
    { apply executar_todas_positivo; [done|apply positivo_novo]. }
    exists p. split; [done|]. by apply (pos_pedidos s Hpos k p Hp).
Qed.

(** C2, as amended: for every sequence of donations, requests, donor
    registrations and undos, and for every category, the quantities of the
    units in stock that were donated to the category, wherever they are now
    filed (an undo files them under "Desconhecido"), plus the quantities of
    the allocations still in the history that took from units donated to
    the category, equal the total donated to the category. *)
Theorem conservacao_por_origem ops c :
  ids_distintos →
  let s := executar_todas ops novo in
  let reg := doacoes_de ops novo in
  (em_estoque reg c s + alocado reg c s = doado reg c)%Z.
Proof.
  intros Hinj. cbv zeta.
  pose proof (executar_todas_contas ops [] novo Hinj contas_novo) as Hct.
  simpl in Hct. apply Hct.
Qed.

(** * Further properties *)

(** ** Where the loop stops *)

Lemma prox_pedido_None s : prox_pedido s = None → todas s = [].
Proof.
  unfold prox_pedido, todas.
  destruct (fila_alta s); [|done]. destruct (fila_media s); [|done].
  by destruct (fila_baixa s).
Qed.

Lemma buscar_None c s :
  buscar c s = None →
  ∀ n, achado (achar c (pedidos s) (fila_nivel n s)) = None.
Proof.
  unfold buscar.
  destruct (achado (achar c (pedidos s) (fila_alta s))) eqn:Ha; [done|].
  destruct (achado (achar c (pedidos s) (fila_media s))) eqn:Hm; [done|].
  destruct (achado (achar c (pedidos s) (fila_baixa s))) eqn:Hb; [done|].
  intros _ [|[|?]]; done.
Qed.

Lemma todas_nivel s k : k ∈ todas s → ∃ n, k ∈ fila_nivel n s.
Proof.
  unfold todas. rewrite !elem_of_app. intros [H|[H|H]].
  - by exists 0.
  - by exists 1.
  - by exists 2.
Qed.

Lemma id_na_fila_nao_vazio s k :
  ids_nao_vazios → invariante s → k ∈ todas s → k ≠ "".
Proof.
  intros Hnv Hinv Hk. destruct (inv_fila s Hinv k Hk) as (p & Hp & _).
  destruct (inv_ids s Hinv k) as (n & _ & ->); [by eexists|]. apply Hnv.
Qed.

(** A round stops only when the category has no stock or no queued request
    is compatible with it. *)
Lemma passo_Para_fim c s r :
  ids_nao_vazios → invariante s → passo c s = Para r →
  sem_estoque c r ∨ sem_pedido c r.
Proof.
  intros Hnv Hinv Hal. pose proof (passo_caso c s) as Hcaso.
  remember (passo c s) as r0 eqn:Hr0.
  destruct Hcaso as [Hprox|Hprox| |pid p Hprox Hne Hp Hat Hc Hb|chave p s1 Hesc];
    try discriminate Hal.
  - injection Hal as <-. right. intros k Hk.
    rewrite (prox_pedido_None _ Hprox) in Hk. by apply elem_of_nil in Hk.
  - exfalso. apply (id_na_fila_nao_vazio s "" Hnv Hinv); [|done].
    by apply prox_pedido_elem.
  - injection Hal as <-. right. intros k Hk.
    destruct (compativel c (pedidos s) k) eqn:Hcomp; [exfalso|done].
    destruct (todas_nivel _ _ Hk) as (n & Hn).
    eapply (achado_compativel c s _ k Hnv Hinv); [|exact Hn|exact Hcomp|].
    + intros y. apply fila_nivel_todas.
    + by apply buscar_None.
  - apply alocar_Para in Hal as [Hvazio ->]. left.
    unfold sem_estoque. simpl. by rewrite itens_de_tocar.
Qed.

Lemma iterar_fim n c s r :
  ids_nao_vazios → invariante s → iterar n c s = Some r →
  sem_estoque c r ∨ sem_pedido c r.
Proof.
  intros Hnv. revert s. induction n as [|n IH]; intros s Hinv; [done|]. simpl.
  destruct (passo c s) as [s'|s'] eqn:Hp.
  - intros [= <-]. by eapply passo_Para_fim.
  - apply IH. pose proof (passo_invariante c s Hinv) as H. by rewrite Hp in H.
Qed.

Lemma tentar_alocar_fim c s :
  ids_nao_vazios → invariante s →
  sem_estoque c (_tentar_alocar_para_pedidos c s) ∨
  sem_pedido c (_tentar_alocar_para_pedidos c s).
Proof.
  intros Hnv Hinv. eapply iterar_fim; [done|exact Hinv|apply tentar_alocar_iterar].
Qed.

Lemma sem_pedido_pendente c s :
  invariante s → sem_pedido c s → sem_pendente c s.
Proof.
  intros Hinv Hsem k p Hp Hat Hc.
  pose proof (inv_pendente s Hinv k p Hp Hat) as Hin.
  assert (k ∈ todas s) as Hk by (by apply (fila_nivel_todas (nivel (Pedido.prioridade p)))).
  specialize (Hsem k Hk). unfold compativel in Hsem.
  rewrite Hp, Hat, Hc, String.eqb_refl in Hsem. done.
Qed.

Lemma elem_of_se (P : Prop) `{Decision P} (x k : string) :
  k ∈ (if decide P then [x] else []) → k = x.
Proof.
  destruct (decide P); [by intros ?%list_elem_of_singleton|by intros ?%elem_of_nil].
Qed.

Lemma eqb_troca (x y : string) : String.eqb x y = String.eqb y x.
Proof.
  destruct (String.eqb_spec x y) as [->|Hne].
  - by rewrite String.eqb_refl.
  - symmetry. apply String.eqb_neq. congruence.
Qed.

(** Matching for [c] makes no queued request compatible with any category,
    and leaves the other categories without stock if they were. *)
Lemma progresso_sem_pedido c c' s s' :
  progresso c s s' → sem_pedido c' s → sem_pedido c' s'.
Proof.
  intros [_ Hps Ha Hm Hb _ _] Hsem k Hk.
  assert (k ∈ todas s) as Hk0.
  { unfold todas in *. rewrite !elem_of_app in Hk. rewrite !elem_of_app.
    destruct Hk as [H|[H|H]]; [left|right; left|right; right];
      eapply elem_of_submseteq; eauto. }
  specialize (Hsem k Hk0). specialize (Hps k). unfold compativel in *.
  destruct (pedidos s !! k) as [p|].
  - destruct Hps as (p' & -> & [->|(Hat & _ & _ & Hc & _)]); [done|].
    rewrite Hc. rewrite Hat in Hsem. simpl in Hsem. rewrite Hsem.
    by destruct (Pedido.atendido p').
  - by rewrite Hps.
Qed.

Lemma progresso_casado c s s' :
  progresso c s s' →
  (∀ c', c' ≠ c → sem_estoque c' s ∨ sem_pedido c' s) →
  (sem_estoque c s' ∨ sem_pedido c s') → casado s'.
Proof.
  intros Hpr Hcas Hfim c'. destruct (decide (c' = c)) as [->|Hne]; [done|].
  destruct (Hcas c' Hne) as [Hs|Hs].
  - left. unfold sem_estoque in *. by rewrite (pr_estoque c s s' Hpr).
  - right. by eapply progresso_sem_pedido.
Qed.

(** The state [registrar_doacao] hands to the matching loop. *)
Lemma registrar_doacao_eq nome c q d s :
  let id_ := uuid (ids_gerados s) in
  let item := ItemDoacao.mk id_ nome c q (agora (leituras_relogio s)) in
  ∃ s1,
    registrar_doacao nome c q d s = (id_, _tentar_alocar_para_pedidos c s1) ∧
    estoque s1 = <[c := itens_de c (estoque s) ++ [item]]> (estoque s) ∧
    pedidos s1 = pedidos s ∧
    fila_alta s1 = fila_alta s ∧ fila_media s1 = fila_media s ∧
    fila_baixa s1 = fila_baixa s ∧
    doadores s1 = doadores s ∧
    historico_alocacoes s1 = historico_alocacoes s ∧
    logs s1 = logs s ++ [(agora (S (leituras_relogio s)), DoacaoRegistrada item d)] ∧
    ids_gerados s1 = S (ids_gerados s) ∧
    leituras_relogio s1 = S (S (leituras_relogio s)).
Proof.
  cbv zeta. unfold registrar_doacao. cbn -[_tentar_alocar_para_pedidos].
  eexists. split; [reflexivity|]. simpl. by split_and!.
Qed.

Lemma todas_igual s s1 :
  fila_alta s1 = fila_alta s → fila_media s1 = fila_media s →
  fila_baixa s1 = fila_baixa s → todas s1 = todas s.
Proof. intros Ha Hm Hb. unfold todas. by rewrite Ha, Hm, Hb. Qed.

Lemma pedido_novo_invariante s s1 prio p :
  ids_distintos → invariante s →
  Pedido.id p = uuid (ids_gerados s) → Pedido.prioridade p = prio →
  Pedido.atendido p = false →
  pedidos s1 = <[uuid (ids_gerados s) := p]> (pedidos s) →
  fila_alta s1 =
    fila_alta s ++ (if decide (nivel prio = 0) then [uuid (ids_gerados s)] else []) →
  fila_media s1 =
    fila_media s ++ (if decide (nivel prio = 1) then [uuid (ids_gerados s)] else []) →
  fila_baixa s1 =
    fila_baixa s ++ (if decide (nivel prio = 2) then [uuid (ids_gerados s)] else []) →
  ids_gerados s1 = S (ids_gerados s) →
  invariante s1.
Proof.
  intros Hinj Hinv Hid Hprio Hat Hps Ha Hm Hb Hi.
  destruct (invariante_chave_nova s Hinj Hinv) as [Hnone Hnot].
  refine (invariante_entra s s1 (uuid (ids_gerados s)) p Hinv Hnot _ _ _ _ Hps _ _ _);
    try done.
  - exists (ids_gerados s). split; [lia|done].
  - lia.
  - unfold todas. rewrite Ha, Hm, Hb.
    destruct (nivel_casos prio) as [Hn|[Hn|Hn]]; rewrite Hn; simpl;
      rewrite ?app_nil_r.
    + rewrite <- app_assoc. simpl. by rewrite <- Permutation_middle.
    + rewrite <- !app_assoc. simpl. by rewrite <- !Permutation_middle.
    + rewrite (app_assoc (fila_alta s)), (app_assoc _ _ [_]).
      rewrite <- Permutation_cons_append. by rewrite <- !app_assoc.
  - intros y prio' Hy. unfold fila_de in *.
    destruct (nivel prio') as [|[|?]]; rewrite ?Ha, ?Hm, ?Hb; set_solver.
  - unfold fila_de. rewrite Hprio, Ha, Hm, Hb.
    destruct (nivel_casos prio) as [Hn|[Hn|Hn]]; rewrite Hn; simpl; set_solver.
Qed.

Lemma executar_casado op s :
  ids_distintos → ids_nao_vazios → invariante s → casado s →
  e_desfazer op = false → casado (executar op s).
Proof.
  intros Hinj Hnv Hinv Hcas Hop.
  destruct op as [nome contato|nome c q d|sol c q prio|]; unfold executar;
    [| | |done].
  - intros c. destruct (Hcas c) as [H|H]; [by left|by right].
  - destruct (registrar_doacao_eq nome c q d s)
      as (s1 & -> & He & Hps & Ha & Hm & Hb & _ & _ & _ & Hi & _).
    cbn [snd].
    assert (invariante s1) as Hinv1.
    { apply (invariante_ext s); try done; try lia; by rewrite ?Ha, ?Hm, ?Hb. }
    apply (progresso_casado c s1); [apply tentar_alocar_progresso| |
      by apply tentar_alocar_fim].
    intros c' Hne. destruct (Hcas c') as [H|H].
    + left. unfold sem_estoque in *. by rewrite He, itens_de_insert_ne.
    + right. intros k. rewrite (todas_igual s s1), Hps by done. apply H.
  - destruct (invariante_chave_nova s Hinj Hinv) as [Hnone Hnot].
    pose proof (cadastrar_pedido_invariante sol c q prio s Hinj Hinv) as Hinv'.
    destruct (cadastrar_pedido_eq sol c q prio s)
      as (s1 & Heq & Hps & Ha & Hm & Hb & _ & He & _ & _ & Hi & _).
    rewrite Heq in Hinv' |- *. cbn [snd] in *.
    assert (invariante s1) as Hinv1.
    { eapply (pedido_novo_invariante s s1 prio); [done|done| | | |exact Hps|
        exact Ha|exact Hm|exact Hb|exact Hi]; done. }
    apply (progresso_casado c s1); [apply tentar_alocar_progresso| |
      by apply tentar_alocar_fim].
    intros c' Hne. destruct (Hcas c') as [H|H].
    + left. unfold sem_estoque in *. by rewrite He.
    + right. intros k Hk. unfold compativel. rewrite Hps.
      destruct (decide (uuid (ids_gerados s) = k)) as [<-|Hk'].
      * rewrite lookup_insert_eq. simpl.
        apply String.eqb_neq in Hne. by rewrite eqb_troca, Hne.
      * rewrite lookup_insert_ne by done. apply H.
        unfold todas in *. rewrite Ha, Hm, Hb in Hk.
        rewrite !elem_of_app in Hk. rewrite !elem_of_app.
        destruct Hk as [[?|Hx]|[[?|Hx]|[?|Hx]]]; auto;
          apply elem_of_se in Hx; congruence.
Qed.

Lemma executar_todas_casado ops s :
  ids_distintos → ids_nao_vazios → invariante s → casado s →
  forallb (λ op, negb (e_desfazer op)) ops = true →
  casado (executar_todas ops s).
Proof.
  intros Hinj Hnv. revert s. induction ops as [|op ops IH]; intros s Hinv Hcas Hops;
    [done|].
  simpl in Hops. apply andb_true_iff in Hops as [Hop Hops].
  simpl. apply IH; [by apply executar_invariante| |done].
  apply executar_casado; try done. by destruct (e_desfazer op).
Qed.

(** ** Stock is used from the front *)

Lemma consumido_refl l : consumido l l.
Proof. exists []. by left. Qed.

Lemma consumido_trans l1 l2 l3 :
  consumido l1 l2 → consumido l2 l3 → consumido l1 l3.
Proof.
  intros (a1 & H1) (a2 & H2).
  destruct H1 as [H1|(item & resto & q & H1 & H1')].
  - subst l1. destruct H2 as [H2|(item & resto & q & H2 & H2')].
    + subst l2. exists (a1 ++ a2). left. by rewrite app_assoc.
    + subst l2 l3. exists (a1 ++ a2). right. exists item, resto, q.
      split; [by rewrite app_assoc|done].
  - subst l1 l2. destruct a2 as [|x a2]; simpl in H2.
    + destruct H2 as [H2|(item' & resto' & q' & H2 & H2')].
      * subst l3. exists a1. right. by exists item, resto, q.
      * injection H2 as H2a H2b. subst item' resto' l3.
        exists a1. right. by exists item, resto, q'.
    + destruct H2 as [H2|(item' & resto' & q' & H2 & H2')].
      * injection H2 as H2a H2b. subst x resto.
        exists (a1 ++ item :: a2). left. by rewrite <- app_assoc.
      * injection H2 as H2a H2b. subst x resto l3.
        exists (a1 ++ item :: a2). right. exists item', resto', q'.
        split; [by rewrite <- app_assoc|done].
Qed.

Lemma passo_consumido c s :
  consumido (itens_de c (estoque s)) (itens_de c (estoque (estado_de (passo c s)))).
Proof.
  destruct (passo_caso c s) as [| |pid Hprox Hne Hst| |chave p s1 Hesc];
    simpl; try apply consumido_refl.
  destruct (escolhe_props _ _ _ _ _ Hesc) as (_ & _ & _ & _ & _ & He & _).
  destruct (alocar c chave p s1) as [s'|s'] eqn:Hal; simpl.
  - apply alocar_Para in Hal as [_ ->]. simpl. rewrite itens_de_tocar, He.
    apply consumido_refl.
  - destruct (alocar_Continua _ _ _ _ _ Hal) as (item & resto & Hit & _ & Hes & _).
    cbn zeta in Hes. rewrite Hes, itens_de_insert, <- He, Hit.
    match goal with |- context [if ?b then _ else _] => destruct b end.
    + exists [item]. by left.
    + exists []. right. by eexists item, resto, _.
Qed.

Lemma tentar_alocar_consumido c s :
  consumido (itens_de c (estoque s))
    (itens_de c (estoque (_tentar_alocar_para_pedidos c s))).
Proof.
  apply (tentar_alocar_invariante
           (λ s1, consumido (itens_de c (estoque s)) (itens_de c (estoque s1)))).
  - intros s1 H1. eapply consumido_trans; [exact H1|apply passo_consumido].
  - apply consumido_refl.
Qed.

(** ** Satisfied means nothing left *)

Lemma quitado_ext s s' : pedidos s' = pedidos s → quitado s → quitado s'.
Proof. intros Hps H k p. rewrite Hps. apply H. Qed.

Lemma quitado_insert s s' chave p :
  pedidos s' = <[chave := p]> (pedidos s) →
  (Pedido.atendido p = true → Pedido.quantidade p = 0%Z) →
  quitado s → quitado s'.
Proof.
  intros Hps Hp H k pk. rewrite Hps. destruct (decide (chave = k)) as [<-|Hk].
  - rewrite lookup_insert_eq. by intros [= <-].
  - rewrite lookup_insert_ne by done. apply H.
Qed.

Lemma passo_quitado c s : quitado s → quitado (estado_de (passo c s)).
Proof.
  intros Hq.
  destruct (passo_caso c s) as [| |pid Hprox Hne Hst| |chave p s1 Hesc];
    simpl; try done.
  destruct (escolhe_props _ _ _ _ _ Hesc) as (_ & Hp & Hat & _ & _ & _ & Hps & _).
  assert (quitado s1) as Hq1 by (by apply (quitado_ext s)).
  destruct (alocar c chave p s1) as [s'|s'] eqn:Hal; simpl.
  - apply alocar_Para in Hal as [_ ->]. by apply (quitado_ext s1).
  - destruct (alocar_Continua _ _ _ _ _ Hal) as (item & resto & _ & _ & _ & Hped & _).
    cbn zeta in Hped. eapply (quitado_insert s1); [exact Hped| |done].
    match goal with |- context [if ?b then _ else _] => destruct b eqn:Hb end;
      simpl.
    + intros _. apply Z.leb_le in Hb. lia.
    + by rewrite Hat.
Qed.

Lemma tentar_alocar_quitado c s :
  quitado s → quitado (_tentar_alocar_para_pedidos c s).
Proof. apply tentar_alocar_invariante. intros s1. apply passo_quitado. Qed.

Lemma executar_quitado op s : quitado s → quitado (executar op s).
Proof.
  intros Hq. destruct op as [nome contato|nome c q d|sol c q prio|];
    unfold executar.
  - by apply (quitado_ext s).
  - destruct (registrar_doacao_eq nome c q d s) as (s1 & -> & _ & Hps & _).
    cbn [snd]. apply tentar_alocar_quitado. by apply (quitado_ext s).
  - destruct (cadastrar_pedido_eq sol c q prio s) as (s1 & -> & Hps & _).
    cbn [snd]. apply tentar_alocar_quitado.
    by eapply (quitado_insert s); [exact Hps| |].
  - destruct (lista_fim (historico_alocacoes s)) as [Hh|(antes & aloc & Hh)].
    { rewrite desfazer_vazio by done. by apply (quitado_ext s). }
    destruct (desfazer_eq s antes aloc Hh) as (s' & -> & _ & _ & _ & _ & Hcaso).
    cbn [snd].
    destruct (pedidos s !! Alocacao.pedido_id aloc) as [pedido|] eqn:Hp.
    + cbn zeta in Hcaso. destruct Hcaso as (Hps & _).
      by eapply (quitado_insert s); [exact Hps| |].
    + destruct Hcaso as (Hps & _). by apply (quitado_ext s).
Qed.

Lemma executar_todas_quitado ops s : quitado s → quitado (executar_todas ops s).
Proof.
  revert s. induction ops as [|op ops IH]; intros s Hq; [done|].
  simpl. by apply IH, executar_quitado.
Qed.

(** ** Ids in use *)

Lemma registros_novo : registros novo.
Proof.
  split; simpl.
  - intros k [d Hd]. by rewrite lookup_empty in Hd.
  - by intros a ?%elem_of_nil.
  - constructor.
  - by intros a ?%elem_of_nil.
Qed.

Lemma registros_ext s s1 resto :
  doadores s1 = doadores s →
  historico_alocacoes s = historico_alocacoes s1 ++ resto →
  (∀ k, is_Some (pedidos s !! k) → is_Some (pedidos s1 !! k)) →
  ids_gerados s ≤ ids_gerados s1 →
  registros s → registros s1.
Proof.
  intros Hd Hh Hps Hi [Hdo Hids Hnd Hped].
  assert (∀ a, a ∈ historico_alocacoes s1 → a ∈ historico_alocacoes s) as Hsub.
  { intros a Ha. rewrite Hh. apply elem_of_app. by left. }
  split.
  - intros k. rewrite Hd. intros Hk. destruct (Hdo k Hk) as (n & Hn & ->).
    exists n. split; [lia|done].
  - intros a Ha. destruct (Hids a (Hsub a Ha)) as (n & Hn & Heq).
    exists n. split; [lia|done].
  - rewrite Hh, fmap_app in Hnd. by apply NoDup_app in Hnd as (Hnd & _).
  - intros a Ha. by apply Hps, Hped, Hsub.
Qed.

Lemma is_Some_insert {A} (m : gmap string A) k k' x :
  is_Some (m !! k') → is_Some (<[k := x]> m !! k').
Proof.
  intros H. destruct (decide (k = k')) as [->|Hne].
  - rewrite lookup_insert_eq. by eexists.
  - by rewrite lookup_insert_ne.
Qed.

Lemma passo_registros c s :
  ids_distintos → invariante s → registros s →
  registros (estado_de (passo c s)).
Proof.
  intros Hinj Hinv Hrg.
  destruct (passo_caso c s) as [| |pid Hprox Hne Hst| |chave p s1 Hesc];
    simpl; try done.
  - apply (registros_ext s _ []); simpl; try done. by rewrite app_nil_r.
  - destruct (escolhe_props _ _ _ _ _ Hesc)
      as (_ & Hp & Hat & _ & Hd & _ & Hps & Hh & _ & Hi & _).
    assert (registros s1) as Hrg1.
    { apply (registros_ext s _ []); try done; try lia.
      - by rewrite app_nil_r.
      - intros k. by rewrite Hps. }
    destruct (alocar c chave p s1) as [s'|s'] eqn:Hal; simpl.
    + apply alocar_Para in Hal as [_ ->].
      apply (registros_ext s1 _ []); simpl; try done. by rewrite app_nil_r.
    + destruct (alocar_Continua _ _ _ _ _ Hal)
        as (item & resto & _ & Hhist & _ & Hped & _ & Hdo & _ & Hids & _).
      cbn zeta in *. destruct Hrg1 as [Hdo1 Hids1 Hnd1 Hped1].
      split.
      * intros k. rewrite Hdo. intros Hk. destruct (Hdo1 k Hk) as (n & Hn & ->).
        exists n. split; [lia|done].
      * intros a. rewrite Hhist.
        intros [Ha|Ha%list_elem_of_singleton]%elem_of_app.
        -- destruct (Hids1 a Ha) as (n & Hn & Heq). exists n. split; [lia|done].
        -- subst a. simpl. exists (ids_gerados s1). split; [lia|done].
      * rewrite Hhist, fmap_app. simpl. apply NoDup_app. split_and!; [done| |].
        -- intros x Hx Hx'. apply list_elem_of_singleton in Hx'. subst x.
           apply list_elem_of_fmap in Hx as (a & Heq & Ha).
           destruct (Hids1 a Ha) as (n & Hn & Heq'). rewrite Heq' in Heq.
           apply Hinj in Heq. lia.
        -- apply NoDup_singleton.
      * intros a. rewrite Hhist, Hped.
        intros [Ha|Ha%list_elem_of_singleton]%elem_of_app.
        -- by apply is_Some_insert, Hped1.
        -- subst a. simpl. rewrite (inv_chaves s Hinv chave p Hp).
           rewrite lookup_insert_eq. by eexists.
Qed.

Lemma tentar_alocar_registros c s :
  ids_distintos → invariante s → registros s →
  registros (_tentar_alocar_para_pedidos c s).
Proof.
  intros Hinj Hinv Hrg.
  assert (invariante (_tentar_alocar_para_pedidos c s) ∧
          registros (_tentar_alocar_para_pedidos c s)) as [_ H]; [|exact H].
  apply (tentar_alocar_invariante (λ s1, invariante s1 ∧ registros s1)); [|done].
  intros s1 [H1 H2]. split; [by apply passo_invariante|by apply passo_registros].
Qed.

Lemma executar_registros op s :
  ids_distintos → invariante s → registros s → registros (executar op s).
Proof.
  intros Hinj Hinv Hrg.
  destruct op as [nome contato|nome c q d|sol c q prio|]; unfold executar.
  - destruct Hrg as [Hdo Hids Hnd Hped]. split; simpl; try done.
    + intros k. destruct (decide (uuid (ids_gerados s) = k)) as [<-|Hk].
      * intros _. exists (ids_gerados s). split; [lia|done].
      * rewrite lookup_insert_ne by done. intros Hk'.
        destruct (Hdo k Hk') as (n & Hn & ->). exists n. split; [lia|done].
    + intros a Ha. destruct (Hids a Ha) as (n & Hn & Heq).
      exists n. split; [lia|done].
  - destruct (registrar_doacao_eq nome c q d s)
      as (s1 & -> & _ & Hps & Ha & Hm & Hb & Hd & Hh & _ & Hi & _).
    cbn [snd]. apply tentar_alocar_registros; [done| |].
    + apply (invariante_ext s); try done; try lia; by rewrite ?Ha, ?Hm, ?Hb.
    + apply (registros_ext s _ []); try done; try lia.
      * by rewrite Hh, app_nil_r.
      * intros k. by rewrite Hps.
  - destruct (cadastrar_pedido_eq sol c q prio s)
      as (s1 & -> & Hps & Ha & Hm & Hb & Hd & _ & Hh & _ & Hi & _).
    cbn [snd]. apply tentar_alocar_registros; [done| |].
    + eapply (pedido_novo_invariante s s1 prio); [done|done| | | |exact Hps|
        exact Ha|exact Hm|exact Hb|exact Hi]; done.
    + apply (registros_ext s _ []); try done; try lia.
      * by rewrite Hh, app_nil_r.
      * intros k. rewrite Hps. apply is_Some_insert.
  - destruct (lista_fim (historico_alocacoes s)) as [Hh|(antes & aloc & Hh)].
    { rewrite desfazer_vazio by done.
      apply (registros_ext s _ []); simpl; try done. by rewrite app_nil_r. }
    destruct (desfazer_eq s antes aloc Hh) as (s' & -> & Hh' & _ & Hd & Hi & Hcaso).
    cbn [snd]. apply (registros_ext s _ [aloc]); try done; try lia.
    + by rewrite Hh'.
    + intros k.
      destruct (pedidos s !! Alocacao.pedido_id aloc) as [pedido|].
      * cbn zeta in Hcaso. destruct Hcaso as (-> & _). apply is_Some_insert.
      * by destruct Hcaso as (-> & _).
Qed.

Lemma executar_todas_registros ops s :
  ids_distintos → invariante s → registros s →
  registros (executar_todas ops s).
Proof.
  intros Hinj. revert s. induction ops as [|op ops IH]; intros s Hinv Hrg; [done|].
  simpl. apply IH; [by apply executar_invariante|by apply executar_registros].
Qed.

(** ** Nothing is overwritten *)

Lemma progresso_dom c s s' : progresso c s s' → dom (pedidos s') = dom (pedidos s).
Proof.
  intros Hpr. apply set_eq. intros k. rewrite !elem_of_dom.
  pose proof (pr_pedidos c s s' Hpr k) as Hk.
  destruct (pedidos s !! k) as [p|].
  - destruct Hk as (p' & -> & _). split; intros _; by eexists.
  - by rewrite Hk.
Qed.

Lemma progresso_size c s s' :
  progresso c s s' → size (pedidos s') = size (pedidos s).
Proof.
  intros Hpr. rewrite <- !(size_dom (D := gset string)).
  by rewrite (progresso_dom c s s').
Qed.

Lemma executar_tamanho op s :
  ids_distintos → invariante s → registros s →
  size (pedidos (executar op s)) =
    size (pedidos s) + (if e_pedido op then 1 else 0) ∧
  size (doadores (executar op s)) =
    size (doadores s) + (if e_doador op then 1 else 0).
Proof.
  intros Hinj Hinv Hrg.
  destruct op as [nome contato|nome c q d|sol c q prio|]; unfold executar;
    cbn [e_pedido e_doador].
  - simpl. split; [lia|]. rewrite map_size_insert_None; [lia|].
    destruct (doadores s !! uuid (ids_gerados s)) eqn:Hd; [|done].
    destruct (rg_doadores s Hrg (uuid (ids_gerados s))) as (n & Hn & Heq);
      [by eexists|].
    apply Hinj in Heq. lia.
  - destruct (registrar_doacao_eq nome c q d s)
      as (s1 & -> & _ & Hps & _ & _ & _ & Hd & _).
    cbn [snd]. pose proof (tentar_alocar_progresso c s1) as Hpr.
    rewrite (progresso_size c s1 _ Hpr), (pr_doadores c s1 _ Hpr), Hps, Hd. lia.
  - destruct (invariante_chave_nova s Hinj Hinv) as [Hnone _].
    destruct (cadastrar_pedido_eq sol c q prio s)
      as (s1 & -> & Hps & _ & _ & _ & Hd & _).
    cbn [snd]. pose proof (tentar_alocar_progresso c s1) as Hpr.
    rewrite (progresso_size c s1 _ Hpr), (pr_doadores c s1 _ Hpr), Hps, Hd.
    rewrite map_size_insert_None by done. lia.
  - destruct (lista_fim (historico_alocacoes s)) as [Hh|(antes & aloc & Hh)].
    { rewrite desfazer_vazio by done. simpl. lia. }
    destruct (desfazer_eq s antes aloc Hh) as (s' & -> & _ & _ & Hd & _ & Hcaso).
    cbn [snd]. rewrite Hd. split; [|lia].
    destruct (pedidos s !! Alocacao.pedido_id aloc) as [pedido|] eqn:Hp.
    + cbn zeta in Hcaso. destruct Hcaso as (-> & _).
      rewrite map_size_insert_Some; [lia|by eexists].
    + destruct Hcaso as (-> & _). lia.
Qed.

Lemma executar_todas_tamanho ops s :
  ids_distintos → invariante s → registros s →
  size (pedidos (executar_todas ops s)) = size (pedidos s) + quantos e_pedido ops ∧
  size (doadores (executar_todas ops s)) = size (doadores s) + quantos e_doador ops.
Proof.
  intros Hinj. revert s. induction ops as [|op ops IH]; intros s Hinv Hrg.
  - unfold quantos. simpl. lia.
  - simpl. destruct (IH (executar op s)) as [H1 H2];
      [by apply executar_invariante|by apply executar_registros|].
    destruct (executar_tamanho op s Hinj Hinv Hrg) as [H3 H4].
    rewrite H1, H2, H3, H4. unfold quantos. simpl.
    destruct (e_pedido op), (e_doador op); simpl; lia.
Qed.

(** ** What a request asked for *)

Lemma recebido_app k s s' novas :
  historico_alocacoes s' = historico_alocacoes s ++ novas →
  recebido k s' =
    (recebido k s +
     soma_lista (λ a, if String.eqb (Alocacao.pedido_id a) k
                      then Alocacao.quantidade a else 0) novas)%Z.
Proof. intros Hh. unfold recebido. by rewrite Hh, soma_lista_app. Qed.

Lemma recebido_zero k s :
  (∀ a, a ∈ historico_alocacoes s → Alocacao.pedido_id a ≠ k) →
  recebido k s = 0%Z.
Proof.
  unfold recebido. induction (historico_alocacoes s) as [|a l IH]; intros H;
    simpl; [done|].
  rewrite IH.
  - assert (Alocacao.pedido_id a ≠ k) as Hne by (apply H, elem_of_cons; by left).
    apply String.eqb_neq in Hne. rewrite Hne. lia.
  - intros a' Ha'. apply H, elem_of_cons. by right.
Qed.

Lemma conferem_ext reg s s' :
  pedidos s' = pedidos s → historico_alocacoes s' = historico_alocacoes s →
  pedidos_conferem reg s → pedidos_conferem reg s'.
Proof.
  intros Hps Hh H k q Hk. destruct (H k q Hk) as (p & Hp & Hq).
  exists p. rewrite Hps. split; [done|]. unfold recebido in *. by rewrite Hh.
Qed.

Lemma passo_conferem reg c s :
  invariante s → pedidos_conferem reg s →
  pedidos_conferem reg (estado_de (passo c s)).
Proof.
  intros Hinv Hcf.
  destruct (passo_caso c s) as [| |pid Hprox Hne Hst| |chave p s1 Hesc];
    simpl; try done.
  destruct (escolhe_props _ _ _ _ _ Hesc)
    as (_ & Hp & Hat & _ & _ & _ & Hps & Hh & _).
  assert (pedidos_conferem reg s1) as Hcf1 by (by apply (conferem_ext reg s)).
  destruct (alocar c chave p s1) as [s'|s'] eqn:Hal; simpl.
  - apply alocar_Para in Hal as [_ ->]. by apply (conferem_ext reg s1).
  - destruct (alocar_Continua _ _ _ _ _ Hal)
      as (item & resto & _ & Hhist & _ & Hped & _).
    cbn zeta in *. intros k q Hk. destruct (Hcf1 k q Hk) as (p0 & Hp0 & Hq).
    rewrite (recebido_app k s1 s' _ Hhist). simpl.
    rewrite (inv_chaves s Hinv chave p Hp), Hped.
    destruct (decide (chave = k)) as [<-|Hne].
    + rewrite lookup_insert_eq, String.eqb_refl. eexists. split; [done|].
      assert (p0 = p) as -> by congruence.
      match goal with |- context [if ?b then _ else _] => destruct b end;
        simpl; lia.
    + rewrite lookup_insert_ne by done. exists p0. split; [done|].
      apply String.eqb_neq in Hne. rewrite Hne. lia.
Qed.

Lemma tentar_alocar_conferem reg c s :
  invariante s → pedidos_conferem reg s →
  pedidos_conferem reg (_tentar_alocar_para_pedidos c s).
Proof.
  intros Hinv Hcf.
  assert (invariante (_tentar_alocar_para_pedidos c s) ∧
          pedidos_conferem reg (_tentar_alocar_para_pedidos c s)) as [_ H];
    [|exact H].
  apply (tentar_alocar_invariante (λ s1, invariante s1 ∧ pedidos_conferem reg s1));
    [|done].
  intros s1 [H1 H2]. split; [by apply passo_invariante|by apply passo_conferem].
Qed.

Lemma executar_conferem reg op s :
  ids_distintos → invariante s → registros s → pedidos_conferem reg s →
  pedidos_conferem (reg ++ pedido_de op s) (executar op s).
Proof.
  intros Hinj Hinv Hrg Hcf.
  destruct op as [nome contato|nome c q d|sol c q prio|]; unfold executar;
    simpl pedido_de; rewrite ?app_nil_r.
  - by apply (conferem_ext reg s).
  - destruct (registrar_doacao_eq nome c q d s)
      as (s1 & -> & _ & Hps & Ha & Hm & Hb & _ & Hh & _ & Hi & _).
    cbn [snd]. apply tentar_alocar_conferem.
    + apply (invariante_ext s); try done; try lia; by rewrite ?Ha, ?Hm, ?Hb.
    + by apply (conferem_ext reg s).
  - destruct (invariante_chave_nova s Hinj Hinv) as [Hnone _].
    destruct (cadastrar_pedido_eq sol c q prio s)
      as (s1 & -> & Hps & Ha & Hm & Hb & _ & _ & Hh & _ & Hi & _).
    cbn [snd]. apply tentar_alocar_conferem.
    + eapply (pedido_novo_invariante s s1 prio); [done|done| | | |exact Hps|
        exact Ha|exact Hm|exact Hb|exact Hi]; done.
    + intros k q0 [Hk|Hk%list_elem_of_singleton]%elem_of_app.
      * destruct (Hcf k q0 Hk) as (p & Hp & Hq). exists p.
        rewrite Hps, lookup_insert_ne by (intros <-; congruence).
        split; [done|]. unfold recebido in *. by rewrite Hh.
      * injection Hk as -> ->. rewrite Hps, lookup_insert_eq.
        eexists. split; [done|]. simpl. rewrite recebido_zero; [lia|].
        intros a Ha' Heq. rewrite Hh in Ha'.
        destruct (rg_aloc_pedido s Hrg a Ha') as [p Hp]. congruence.
  - destruct (lista_fim (historico_alocacoes s)) as [Hh|(antes & aloc & Hh)].
    { rewrite desfazer_vazio by done. by apply (conferem_ext reg s). }
    destruct (desfazer_eq s antes aloc Hh) as (s' & -> & Hh' & _ & _ & _ & Hcaso).
    cbn [snd]. intros k q0 Hk. destruct (Hcf k q0 Hk) as (p & Hp & Hq).
    assert (recebido k s =
            (recebido k s' + (if String.eqb (Alocacao.pedido_id aloc) k
                              then Alocacao.quantidade aloc else 0))%Z) as Hrec.
    { unfold recebido. rewrite Hh, Hh', soma_lista_app. simpl. lia. }
    destruct (decide (Alocacao.pedido_id aloc = k)) as [<-|Hne].
    + rewrite Hp in Hcaso. cbn zeta in Hcaso. destruct Hcaso as (-> & _).
      rewrite lookup_insert_eq. eexists. split; [done|]. simpl.
      rewrite String.eqb_refl in Hrec. lia.
    + exists p. apply String.eqb_neq in Hne as Hne'. rewrite Hne' in Hrec.
      split; [|lia].
      destruct (pedidos s !! Alocacao.pedido_id aloc).
      * cbn zeta in Hcaso. destruct Hcaso as (-> & _).
        by rewrite lookup_insert_ne.
      * by destruct Hcaso as (-> & _).
Qed.

Lemma executar_todas_conferem ops reg s :
  ids_distintos → invariante s → registros s → pedidos_conferem reg s →
  pedidos_conferem (reg ++ pedidos_de ops s) (executar_todas ops s).
Proof.
  intros Hinj. revert reg s.
  induction ops as [|op ops IH]; intros reg s Hinv Hrg Hcf.
  - simpl. by rewrite app_nil_r.
  - simpl. rewrite app_assoc.
    apply IH; [by apply executar_invariante|by apply executar_registros|].
    by apply executar_conferem.
Qed.

(** ** Undo *)

Lemma estoque_total_insert s k l e :
  e = <[k := l]> (estoque s) →
  soma_mapa (soma_lista ItemDoacao.quantidade) e =
    (estoque_total s - soma_lista ItemDoacao.quantidade (itens_de k (estoque s))
     + soma_lista ItemDoacao.quantidade l)%Z.
Proof. intros ->. apply soma_estoque_insert. Qed.

Lemma fila_de_nivel prio s : fila_de prio s = fila_nivel (nivel prio) s.
Proof. done. Qed.

(** ** Everything in circulation *)

Lemma passo_em_circulacao c s :
  em_circulacao (estado_de (passo c s)) = em_circulacao s.
Proof.
  destruct (passo_caso c s) as [| |pid Hprox Hne Hst| |chave p s1 Hesc];
    simpl; try done.
  destruct (escolhe_props _ _ _ _ _ Hesc) as (_ & _ & _ & _ & _ & He & _ & Hh & _).
  assert (em_circulacao s1 = em_circulacao s) as <-.
  { unfold em_circulacao, estoque_total. by rewrite He, Hh. }
  destruct (alocar c chave p s1) as [s'|s'] eqn:Hal; simpl.
  - apply alocar_Para in Hal as [_ ->]. unfold em_circulacao, estoque_total.
    simpl. by rewrite soma_estoque_tocar.
  - destruct (alocar_Continua _ _ _ _ _ Hal) as (item & resto & Hit & Hhs & Hes & _).
    cbn zeta in *. unfold em_circulacao, estoque_total.
    rewrite Hes, Hhs, soma_estoque_insert, soma_estoque_tocar, itens_de_tocar, Hit,
      soma_lista_app.
    simpl.
    match goal with |- context [if ?b then _ else _] => destruct b eqn:Hb end;
      simpl.
    + apply Z.leb_le in Hb. lia.
    + lia.
Qed.

Lemma tentar_alocar_em_circulacao c s :
  em_circulacao (_tentar_alocar_para_pedidos c s) = em_circulacao s.
Proof.
  apply (tentar_alocar_invariante (λ s1, em_circulacao s1 = em_circulacao s));
    [|done].
  intros s1 <-. apply passo_em_circulacao.
Qed.

Lemma executar_em_circulacao op s :
  em_circulacao (executar op s) = (em_circulacao s + total_doado [op])%Z.
Proof.
  destruct op as [nome contato|nome c q d|sol c q prio|]; unfold executar;
    unfold total_doado; simpl soma_lista.
  - unfold em_circulacao, estoque_total. simpl. lia.
  - destruct (registrar_doacao_eq nome c q d s) as (s1 & -> & He & _ & _ & _ & _ & _ & Hh & _).
    cbn [snd]. rewrite tentar_alocar_em_circulacao.
    unfold em_circulacao, estoque_total. rewrite He, Hh, soma_estoque_insert,
      soma_lista_app. simpl. lia.
  - destruct (cadastrar_pedido_eq sol c q prio s)
      as (s1 & -> & _ & _ & _ & _ & _ & He & Hh & _).
    cbn [snd]. rewrite tentar_alocar_em_circulacao.
    unfold em_circulacao, estoque_total. rewrite He, Hh. lia.
  - destruct (lista_fim (historico_alocacoes s)) as [Hh|(antes & aloc & Hh)].
    { rewrite desfazer_vazio by done. unfold em_circulacao, estoque_total.
      simpl. lia. }
    destruct (desfazer_eq s antes aloc Hh) as (s' & -> & Hh' & He & _).
    cbn [snd]. unfold em_circulacao, estoque_total.
    rewrite He, Hh', Hh, soma_estoque_insert, !soma_lista_app. simpl. lia.
Qed.

Lemma total_doado_cons op ops :
  total_doado (op :: ops) = (total_doado [op] + total_doado ops)%Z.
Proof. unfold total_doado. simpl. lia. Qed.

Lemma executar_todas_em_circulacao ops s :
  em_circulacao (executar_todas ops s) = (em_circulacao s + total_doado ops)%Z.
Proof.
  revert s. induction ops as [|op ops IH]; intros s.
  - unfold total_doado. simpl. lia.
  - rewrite (total_doado_cons op ops). cbn [executar_todas foldl].
    change (foldl (λ s0 op0, executar op0 s0) (executar op s) ops)
      with (executar_todas ops (executar op s)).
    rewrite IH, executar_em_circulacao. lia.
Qed.

(** ** The requests a run of the loop touches *)

Lemma passo_rastro c s novas s1 :
  invariante s1 → progresso c s s1 → rastro s novas s1 →
  ∃ novas', rastro s novas' (estado_de (passo c s1)).
Proof.
  intros Hinv Hpr (Hh & Hout & Hin).
  destruct (passo_caso c s1) as [| |pid Hprox Hne Hst| |chave p s2 Hesc];
    simpl; try (by exists novas).
  destruct (escolhe_props _ _ _ _ _ Hesc) as (_ & Hp & Hat & _ & _ & _ & Hps & Hhs & _).
  destruct (alocar c chave p s2) as [s'|s'] eqn:Hal; simpl.
  - apply alocar_Para in Hal as [_ ->]. exists novas. split_and!; simpl.
    + by rewrite Hhs.
    + intros k Hk. rewrite Hps. by apply Hout.
    + done.
  - destruct (alocar_Continua _ _ _ _ _ Hal) as (item & resto & _ & Hhist & _ & Hped & _).
    cbn zeta in *. eexists (novas ++ [_]). split_and!.
    + rewrite Hhist, Hhs, Hh, <- app_assoc. reflexivity.
    + intros k Hk. rewrite Hped, Hps.
      assert (chave ≠ k) as Hne.
      { intros <-. apply (Hk _ ltac:(apply elem_of_app; right; apply elem_of_cons; by left)).
        simpl. by apply (inv_chaves s1 Hinv). }
      rewrite lookup_insert_ne by done. apply Hout.
      intros a Ha. apply Hk. apply elem_of_app. by left.
    + intros a [Ha|Ha%list_elem_of_singleton]%elem_of_app; [by apply Hin|].
      subst a. simpl. rewrite (inv_chaves s1 Hinv chave p Hp).
      pose proof (pr_pedidos c s s1 Hpr chave) as Hk.
      destruct (pedidos s !! chave) as [p0|]; [|congruence].
      destruct Hk as (p' & Hp' & Hav). exists p0. split; [done|].
      destruct Hav as [->|[Hat0 _]]; [congruence|done].
Qed.

Lemma tentar_alocar_rastro c s :
  invariante s → ∃ novas, rastro s novas (_tentar_alocar_para_pedidos c s).
Proof.
  intros Hinv.
  assert (invariante (_tentar_alocar_para_pedidos c s) ∧
          progresso c s (_tentar_alocar_para_pedidos c s) ∧
          ∃ novas, rastro s novas (_tentar_alocar_para_pedidos c s))
    as (_ & _ & H); [|exact H].
  apply (tentar_alocar_invariante
           (λ s1, invariante s1 ∧ progresso c s s1 ∧ ∃ novas, rastro s novas s1)).
  - intros s1 (H1 & H2 & novas & H3). split_and!.
    + by apply passo_invariante.
    + eapply progresso_trans; [exact H2|apply passo_progresso].
    + by eapply passo_rastro.
  - split_and!; [done|apply progresso_refl|]. exists [].
    split_and!; [by rewrite app_nil_r|done|]. by intros a ?%elem_of_nil.
Qed.

(** ** Undoing the only allocation of a run of the loop *)

Lemma desfazer_anula_rodada c s a :
  invariante s →
  historico_alocacoes (_tentar_alocar_para_pedidos c s) =
    historico_alocacoes s ++ [a] →
  pedidos (desfazer_ultima_alocacao (_tentar_alocar_para_pedidos c s)).2 =
    pedidos s.
Proof.
  intros Hinv Hh.
  destruct (tentar_alocar_rastro c s Hinv) as (novas & Hh' & Hout & Hin).
  assert (novas = [a]) as ->.
  { rewrite Hh in Hh'. by apply app_inv_head in Hh'. }
  destruct (Hin a) as (p0 & Hp0 & Hat0); [apply elem_of_cons; by left|].
  pose proof (pr_pedidos c s _ (tentar_alocar_progresso c s) (Alocacao.pedido_id a))
    as Hpr.
  rewrite Hp0 in Hpr. destruct Hpr as (p' & Hp' & Hav).
  assert (mesmo_pedido p0 p') as (Hid & Hso & Hca & Hpri & Hda).
  { destruct Hav as [->|[_ H]]; [by repeat split|done]. }
  destruct (tentar_alocar_conferem
              [(Alocacao.pedido_id a,
                (Pedido.quantidade p0 + recebido (Alocacao.pedido_id a) s)%Z)] c s Hinv)
    with (k := Alocacao.pedido_id a)
         (q := (Pedido.quantidade p0 + recebido (Alocacao.pedido_id a) s)%Z)
    as (p'' & Hp'' & Hq).
  { intros k q [= -> ->]%list_elem_of_singleton. by exists p0. }
  { apply elem_of_cons. by left. }
  rewrite Hp' in Hp''. injection Hp'' as <-.
  rewrite (recebido_app _ s _ [a] Hh) in Hq. simpl in Hq.
  rewrite String.eqb_refl in Hq.
  destruct (desfazer_eq _ _ a Hh) as (s2 & -> & _ & _ & _ & _ & Hcaso).
  rewrite Hp' in Hcaso. cbn zeta in Hcaso. destruct Hcaso as (Hps & _).
  cbn [snd]. rewrite Hps. apply map_eq. intros k.
  destruct (decide (k = Alocacao.pedido_id a)) as [->|Hne].
  - rewrite lookup_insert_eq, Hp0. f_equal.
    destruct p0, p'; simpl in *. subst.
    unfold Pedido.set_quantidade, Pedido.set_atendido. simpl. f_equal. lia.
  - rewrite lookup_insert_ne by done. apply Hout.
    intros a' ->%list_elem_of_singleton. done.
Qed.

(** ** The categories of the stock *)

Lemma dom_tocar c (e : gmap string (list ItemDoacao.t)) :
  dom e ⊆ dom (tocar c e) ∧ c ∈ dom (tocar c e).
Proof.
  unfold tocar. destruct (e !! c) as [l|] eqn:Hc.
  - split; [done|]. apply elem_of_dom. by exists l.
  - rewrite dom_insert. split.
    + intros k Hk. apply elem_of_union. by right.
    + apply elem_of_union. left. by apply elem_of_singleton.
Qed.

Lemma dom_insert_tocar c l (e : gmap string (list ItemDoacao.t)) :
  dom e ⊆ dom (<[c := l]> (tocar c e)) ∧ c ∈ dom (<[c := l]> (tocar c e)).
Proof.
  rewrite dom_insert. split.
  - intros k Hk. apply elem_of_union. right. by apply (dom_tocar c e).
  - apply elem_of_union. left. by apply elem_of_singleton.
Qed.

Lemma passo_dom c s :
  dom (estoque s) ⊆ dom (estoque (estado_de (passo c s))).
Proof.
  destruct (passo_caso c s) as [| |pid Hprox Hne Hst| |chave p s1 Hesc];
    simpl; try done.
  destruct (escolhe_props _ _ _ _ _ Hesc) as (_ & _ & _ & _ & _ & He & _).
  rewrite <- He.
  destruct (alocar c chave p s1) as [s'|s'] eqn:Hal; simpl.
  - apply alocar_Para in Hal as [_ ->]. simpl. apply dom_tocar.
  - destruct (alocar_Continua _ _ _ _ _ Hal) as (item & resto & _ & _ & Hes & _).
    cbn zeta in Hes. rewrite Hes. apply dom_insert_tocar.
Qed.

Lemma tentar_alocar_dom c s :
  dom (estoque s) ⊆ dom (estoque (_tentar_alocar_para_pedidos c s)).
Proof.
  apply (tentar_alocar_invariante (λ s1, dom (estoque s) ⊆ dom (estoque s1)));
    [|done].
  intros s1 H. etrans; [exact H|apply passo_dom].
Qed.

Lemma executar_dom op s : dom (estoque s) ⊆ dom (estoque (executar op s)).
Proof.
  destruct op as [nome contato|nome c q d|sol c q prio|]; unfold executar.
  - done.
  - destruct (registrar_doacao_eq nome c q d s) as (s1 & -> & He & _).
    cbn [snd]. etrans; [|apply tentar_alocar_dom]. rewrite He, dom_insert.
    intros k Hk. apply elem_of_union. by right.
  - destruct (cadastrar_pedido_eq sol c q prio s)
      as (s1 & -> & _ & _ & _ & _ & _ & He & _).
    cbn [snd]. etrans; [|apply tentar_alocar_dom]. by rewrite He.
  - destruct (lista_fim (historico_alocacoes s)) as [Hh|(antes & aloc & Hh)].
    { by rewrite desfazer_vazio. }
    destruct (desfazer_eq s antes aloc Hh) as (s' & -> & _ & He & _).
    cbn [snd]. rewrite He, dom_insert. intros k Hk. apply elem_of_union. by right.
Qed.

(** A round that stops leaves the key of the category in the stock, if
    an unsatisfied request of that category is stored. *)
Lemma passo_Para_toca c s r k p :
  ids_nao_vazios → invariante s → passo c s = Para r →
  pedidos s !! k = Some p → Pedido.atendido p = false → Pedido.categoria p = c →
  c ∈ dom (estoque r).
Proof.
  intros Hnv Hinv Hal Hk Hatk Hck.
  assert (k ∈ todas s) as Hin.
  { apply (fila_nivel_todas (nivel (Pedido.prioridade p))).
    by apply (inv_pendente s Hinv k p). }
  pose proof (passo_caso c s) as Hcaso.
  remember (passo c s) as r0 eqn:Hr0.
  destruct Hcaso as [Hprox|Hprox| |pid p0 Hprox Hne Hp Hat Hc Hb|chave p0 s1 Hesc];
    try discriminate Hal.
  - exfalso. rewrite (prox_pedido_None _ Hprox) in Hin. by apply elem_of_nil in Hin.
  - exfalso. apply (id_na_fila_nao_vazio s "" Hnv Hinv); [|done].
    by apply prox_pedido_elem.
  - exfalso. destruct (todas_nivel _ _ Hin) as (n & Hn).
    eapply (achado_compativel c s _ k Hnv Hinv); [|exact Hn| |].
    + intros y. apply fila_nivel_todas.
    + unfold compativel. by rewrite Hk, Hatk, Hck, String.eqb_refl.
    + by apply buscar_None.
  - apply alocar_Para in Hal as [_ ->]. simpl. apply dom_tocar.
Qed.

Lemma passo_Continua_toca c s s' k p :
  passo c s = Continua s' →
  pedidos s !! k = Some p → Pedido.atendido p = false → Pedido.categoria p = c →
  c ∈ dom (estoque s') ∨
  (pedidos s' !! k = Some p).
Proof.
  intros Hal Hk Hatk Hck.
  pose proof (passo_caso c s) as Hcaso.
  remember (passo c s) as r0 eqn:Hr0.
  destruct Hcaso as [Hprox|Hprox|pid Hprox Hne Hst|pid p0 Hprox Hne Hp Hat Hc Hb|chave p0 s1 Hesc];
    try discriminate Hal.
  - injection Hal as <-. right. done.
  - left. destruct (alocar_Continua _ _ _ _ _ Hal) as (item & resto & _ & _ & Hes & _).
    cbn zeta in Hes. rewrite Hes. apply dom_insert_tocar.
Qed.

Lemma iterar_toca n c s r k p :
  ids_nao_vazios → invariante s → iterar n c s = Some r →
  pedidos s !! k = Some p → Pedido.atendido p = false → Pedido.categoria p = c →
  c ∈ dom (estoque r).
Proof.
  intros Hnv. revert s. induction n as [|n IH]; intros s Hinv; [done|]. simpl.
  destruct (passo c s) as [s'|s'] eqn:Hp.
  - intros [= <-] Hk Hat Hc. by eapply passo_Para_toca.
  - intros Hit Hk Hat Hc.
    assert (invariante s') as Hinv'.
    { pose proof (passo_invariante c s Hinv) as H. by rewrite Hp in H. }
    destruct (passo_Continua_toca c s s' k p Hp Hk Hat Hc) as [Hd|Hk'].
    + assert (∀ m s0 r0, iterar m c s0 = Some r0 →
                dom (estoque s0) ⊆ dom (estoque r0)) as Hmono.
      { clear. induction m as [|m IHm]; intros s0 r0; [done|]. simpl.
        pose proof (passo_dom c s0) as Hd.
        destruct (passo c s0) as [s1|s1]; simpl in Hd.
        - by intros [= <-].
        - intros H. etrans; [exact Hd|by apply IHm]. }
      by apply (Hmono n s' r Hit).
    + by apply (IH s' Hinv' Hit Hk' Hat Hc).
Qed.

Lemma tentar_alocar_toca c s k p :
  ids_nao_vazios → invariante s →
  pedidos s !! k = Some p → Pedido.atendido p = false → Pedido.categoria p = c →
  c ∈ dom (estoque (_tentar_alocar_para_pedidos c s)).
Proof.
  intros Hnv Hinv. eapply iterar_toca; [done|exact Hinv|apply tentar_alocar_iterar].
Qed.

(** ** The log *)




(** ** Donors *)

Lemma executar_doadores op s k d :
  ids_distintos → registros s →
  doadores s !! k = Some d → doadores (executar op s) !! k = Some d.
Proof.
  intros Hinj Hrg Hk.
  destruct op as [nome contato|nome c q d0|sol c q prio|]; unfold executar.
  - simpl. rewrite lookup_insert_ne; [done|].
    intros Heq. destruct (rg_doadores s Hrg k) as (n & Hn & ->); [by exists d|].
    apply Hinj in Heq. lia.
  - destruct (registrar_doacao_eq nome c q d0 s)
      as (s1 & -> & _ & _ & _ & _ & _ & Hd & _).
    cbn [snd]. by rewrite (pr_doadores c s1 _ (tentar_alocar_progresso c s1)), Hd.
  - destruct (cadastrar_pedido_eq sol c q prio s)
      as (s1 & -> & _ & _ & _ & _ & Hd & _).
    cbn [snd]. by rewrite (pr_doadores c s1 _ (tentar_alocar_progresso c s1)), Hd.
  - destruct (lista_fim (historico_alocacoes s)) as [Hh|(antes & aloc & Hh)].
    { by rewrite desfazer_vazio. }
    destruct (desfazer_eq s antes aloc Hh) as (s' & -> & _ & _ & Hd & _).
    cbn [snd]. by rewrite Hd.
Qed.

Lemma executar_todas_doadores ops s k d :
  ids_distintos → invariante s → registros s →
  doadores s !! k = Some d → doadores (executar_todas ops s) !! k = Some d.
Proof.
  intros Hinj. revert s. induction ops as [|op ops IH]; intros s Hinv Hrg Hk;
    [done|].
  simpl. apply IH.
  - by apply executar_invariante.
  - by apply executar_registros.
  - by apply executar_doadores.
Qed.

Lemma executar_todas_app ops ops' s :
  executar_todas (ops ++ ops') s = executar_todas ops' (executar_todas ops s).
Proof. unfold executar_todas. by rewrite foldl_app. Qed.

(** * Further theorems *)

(** X1: matching runs until nothing is left to pair.  In any state the
    operations lead to, registering a donation or a request of category [c]
    ends with the category out of stock or with no unsatisfied request of
    that category stored. *)
Theorem registro_esgota_categoria ops :
  ids_distintos → ids_nao_vazios →
  let s := executar_todas ops novo in
  (∀ nome c q d,
     let s' := (registrar_doacao nome c q d s).2 in
     sem_estoque c s' ∨ sem_pendente c s') ∧
  (∀ sol c q prio,
     let s' := (cadastrar_pedido sol c q prio s).2 in
     sem_estoque c s' ∨ sem_pendente c s').
Proof.
  intros Hinj Hnv s.
  assert (invariante s) as Hinv.
  { apply executar_todas_invariante; [done|apply invariante_novo]. }
  split.
  - intros nome c q d s'.
    pose proof (registrar_doacao_invariante nome c q d s Hinv) as Hinv'.
    fold s' in Hinv'. subst s'.
    destruct (registrar_doacao_eq nome c q d s)
      as (s1 & Heq & _ & Hps & Ha & Hm & Hb & _ & _ & _ & Hi & _).
    rewrite Heq in *. cbn [snd] in *.
    destruct (tentar_alocar_fim c s1 Hnv) as [H|H]; [|by left|].
    + apply (invariante_ext s); try done; try lia; by rewrite ?Ha, ?Hm, ?Hb.
    + right. by apply sem_pedido_pendente.
  - intros sol c q prio s'.
    pose proof (cadastrar_pedido_invariante sol c q prio s Hinj Hinv) as Hinv'.
    fold s' in Hinv'. subst s'.
    destruct (cadastrar_pedido_eq sol c q prio s)
      as (s1 & Heq & Hps & Ha & Hm & Hb & _ & _ & _ & _ & Hi & _).
    rewrite Heq in *. cbn [snd] in *.
    destruct (tentar_alocar_fim c s1 Hnv) as [H|H]; [|by left|].
    + eapply (pedido_novo_invariante s s1 prio); [done|done| | | |exact Hps|
        exact Ha|exact Hm|exact Hb|exact Hi]; done.
    + right. by apply sem_pedido_pendente.
Qed.

(** X2: as long as nothing is undone, the system is always fully matched:
    after any sequence of donor, donation and request registrations, every
    category is out of stock or has no unsatisfied request stored. *)
Theorem sem_desfazer_tudo_casado ops :
  ids_distintos → ids_nao_vazios →
  forallb (λ op, negb (e_desfazer op)) ops = true →
  ∀ c, sem_estoque c (executar_todas ops novo) ∨
       sem_pendente c (executar_todas ops novo).
Proof.
  intros Hinj Hnv Hops c.
  assert (invariante (executar_todas ops novo)) as Hinv.
  { apply executar_todas_invariante; [done|apply invariante_novo]. }
  assert (casado (executar_todas ops novo)) as Hcas.
  { apply executar_todas_casado; try done; [apply invariante_novo|].
    intros c'. left. apply itens_de_vazio. }
  destruct (Hcas c) as [H|H]; [by left|right]. by apply sem_pedido_pendente.
Qed.


(** X4: matching neither adds nor removes a request, and never touches a
    satisfied one.  A request stored before is stored after under the same
    key; either it is unchanged, or it was unsatisfied and kept its id,
    requester, category, priority and date.  The donors are as they were
    and the queues only lose entries. *)
Theorem casamento_preserva_pedidos c s :
  let s' := _tentar_alocar_para_pedidos c s in
  (∀ k, match pedidos s !! k with
        | Some p => ∃ p', pedidos s' !! k = Some p' ∧ avanca p p'
        | None => pedidos s' !! k = None
        end) ∧
  doadores s' = doadores s ∧
  fila_alta s' ⊆+ fila_alta s ∧ fila_media s' ⊆+ fila_media s ∧
  fila_baixa s' ⊆+ fila_baixa s.
Proof.
  cbv zeta. destruct (tentar_alocar_progresso c s) as [Hd Hp Ha Hm Hb _ _].
  by split_and!.
Qed.

(** X5: whatever quantities are registered, in every state the operations
    lead to a request marked satisfied has remaining quantity exactly 0. *)
Theorem atendido_sem_saldo ops k p :
  pedidos (executar_todas ops novo) !! k = Some p →
  Pedido.atendido p = true → Pedido.quantidade p = 0%Z.
Proof.
  apply (executar_todas_quitado ops novo). intros k' p'. simpl.
  by rewrite lookup_empty.
Qed.

(** X6: when every donation and request is registered with a positive
    quantity, every unit in stock has a positive quantity, every allocation
    in the history is for a positive quantity, and no request has a
    negative remaining quantity. *)
Theorem quantidades_positivas ops :
  Forall op_positiva ops →
  let s := executar_todas ops novo in
  (∀ c item, item ∈ itens_de c (estoque s) → (0 < ItemDoacao.quantidade item)%Z) ∧
  (∀ a, a ∈ historico_alocacoes s → (0 < Alocacao.quantidade a)%Z) ∧
  (∀ k p, pedidos s !! k = Some p → (0 ≤ Pedido.quantidade p)%Z).
Proof.
  intros Hops s.
  destruct (executar_todas_positivo ops novo Hops positivo_novo) as [Hp He Hh].
  split_and!; [exact He|exact Hh|]. intros k p Hk. by apply (Hp k p Hk).
Qed.

(** X7: with collision-free ids no registration overwrites an earlier one
    and nothing is ever deleted: after any sequence of operations the
    request table holds as many requests as were registered, and the donor
    table as many donors. *)
Theorem nada_e_sobrescrito ops :
  ids_distintos →
  size (pedidos (executar_todas ops novo)) = quantos e_pedido ops ∧
  size (doadores (executar_todas ops novo)) = quantos e_doador ops.
Proof.
  intros Hinj.
  destruct (executar_todas_tamanho ops novo Hinj invariante_novo registros_novo)
    as [H1 H2].
  by rewrite H1, H2.
Qed.

(** X8: with collision-free ids, the allocations in the history have
    pairwise distinct ids, and each of them names a request that is
    stored, so undoing it always finds its request. *)
Theorem alocacoes_bem_identificadas ops :
  ids_distintos →
  let s := executar_todas ops novo in
  NoDup (Alocacao.id <$> historico_alocacoes s) ∧
  ∀ a, a ∈ historico_alocacoes s →
    ∃ p, pedidos s !! Alocacao.pedido_id a = Some p ∧
         Pedido.id p = Alocacao.pedido_id a.
Proof.
  intros Hinj s.
  assert (invariante s) as Hinv.
  { apply executar_todas_invariante; [done|apply invariante_novo]. }
  destruct (executar_todas_registros ops novo Hinj invariante_novo registros_novo)
    as [_ _ Hnd Hped].
  split; [exact Hnd|]. intros a Ha. destruct (Hped a Ha) as [p Hp].
  exists p. split; [done|]. by apply (inv_chaves s Hinv).
Qed.

(** X9: the books balance on the side of the requests as well.  With
    collision-free ids, after any sequence of operations every request
    ever registered is stored under its id, and its remaining quantity plus
    the quantities of the allocations in the history made to it is the
    quantity it was registered with.  Undoing an allocation gives the
    request back exactly what the allocation took. *)
Theorem pedido_conserva_quantidade ops k q :
  ids_distintos →
  (k, q) ∈ pedidos_de ops novo →
  let s := executar_todas ops novo in
  ∃ p, pedidos s !! k = Some p ∧ Pedido.id p = k ∧
    (Pedido.quantidade p + recebido k s = q)%Z.
Proof.
  intros Hinj Hk s.
  assert (invariante s) as Hinv.
  { apply executar_todas_invariante; [done|apply invariante_novo]. }
  destruct (executar_todas_conferem ops [] novo Hinj invariante_novo registros_novo)
    with (k := k) (q := q) as (p & Hp & Hq); [|done|].
  { intros k' q' Hk'. by apply elem_of_nil in Hk'. }
  exists p. split_and!; [done| |done]. by apply (inv_chaves s Hinv).
Qed.

(** X10: [desfazer_ultima_alocacao] returns True exactly when the history
    is not empty.  With an empty history it only writes the log entry
    "Nenhuma alocação para desfazer": stock, requests, queues, history,
    donors and the id counter are as they were. *)
Theorem desfazer_sem_historico s :
  ((desfazer_ultima_alocacao s).1 = true ↔ historico_alocacoes s ≠ []) ∧
  (historico_alocacoes s = [] →
   let s' := (desfazer_ultima_alocacao s).2 in
   rejeitada s s' ∧ doadores s' = doadores s ∧
   ids_gerados s' = ids_gerados s ∧
   logs s' = logs s ++ [(agora (leituras_relogio s), NenhumaAlocacao)]).
Proof.
  split.
  - destruct (lista_fim (historico_alocacoes s)) as [Hh|(antes & aloc & Hh)].
    + rewrite desfazer_vazio by done. simpl. by rewrite Hh.
    + destruct (desfazer_eq s antes aloc Hh) as (s' & -> & _). simpl.
      rewrite Hh. split; [|done]. intros _ Habs.
      apply (f_equal length) in Habs. rewrite length_app in Habs.
      simpl in Habs. lia.
  - intros Hh. rewrite desfazer_vazio by done. simpl. by split_and!.
Qed.

(** X11: the history is a stack.  With a non-empty history, undo removes
    exactly the last allocation and leaves the earlier ones in place; it
    appends to the category "Desconhecido" a unit with that allocation's
    item id and quantity, leaves the units of every other category as they
    were, so the total in stock grows by the allocated quantity; donors and
    the id counter do not change. *)
Theorem desfazer_desempilha s antes a :
  historico_alocacoes s = antes ++ [a] →
  let r := desfazer_ultima_alocacao s in
  r.1 = true ∧ historico_alocacoes r.2 = antes ∧
  itens_de "Desconhecido" (estoque r.2) =
    itens_de "Desconhecido" (estoque s) ++
      [ItemDoacao.mk (Alocacao.item_id a)
         ("Item_recuperado_" +:+ Alocacao.item_id a) "Desconhecido"
         (Alocacao.quantidade a) (agora (leituras_relogio s))] ∧
  (∀ k, k ≠ "Desconhecido" → itens_de k (estoque r.2) = itens_de k (estoque s)) ∧
  estoque_total r.2 = (estoque_total s + Alocacao.quantidade a)%Z ∧
  doadores r.2 = doadores s ∧ ids_gerados r.2 = ids_gerados s.
Proof.
  intros Hh. cbv zeta.
  destruct (desfazer_eq s antes a Hh) as (s' & -> & Hh' & He & Hd & Hi & _).
  cbn [fst snd]. split_and!; try done.
  - by rewrite He, itens_de_insert.
  - intros k Hk. by rewrite He, itens_de_insert_ne.
  - unfold estoque_total at 1. rewrite (estoque_total_insert s _ _ _ He).
    rewrite soma_lista_app. simpl. lia.
Qed.

(** X12: in any state the operations lead to, undo finds the request of
    the last allocation, gives it back the allocated quantity and leaves it
    unsatisfied and queued in the queue of its priority; every other
    request is untouched.  If the request had been satisfied it is put at
    the front of that queue; if not, the three queues are as they were. *)
Theorem desfazer_reativa_pedido ops antes a :
  ids_distintos →
  let s := executar_todas ops novo in
  historico_alocacoes s = antes ++ [a] →
  let s' := (desfazer_ultima_alocacao s).2 in
  ∃ p,
    pedidos s !! Alocacao.pedido_id a = Some p ∧
    pedidos s' !! Alocacao.pedido_id a =
      Some (Pedido.set_quantidade (Pedido.quantidade p + Alocacao.quantidade a)
              (Pedido.set_atendido false p)) ∧
    (∀ k, k ≠ Alocacao.pedido_id a → pedidos s' !! k = pedidos s !! k) ∧
    Alocacao.pedido_id a ∈ fila_de (Pedido.prioridade p) s' ∧
    (Pedido.atendido p = true →
     fila_de (Pedido.prioridade p) s' =
       Alocacao.pedido_id a :: fila_de (Pedido.prioridade p) s) ∧
    (Pedido.atendido p = false →
     fila_alta s' = fila_alta s ∧ fila_media s' = fila_media s ∧
     fila_baixa s' = fila_baixa s).
Proof.
  intros Hinj s Hh s'.
  assert (invariante s) as Hinv.
  { apply executar_todas_invariante; [done|apply invariante_novo]. }
  assert (registros s) as Hrg.
  { apply executar_todas_registros; [done|apply invariante_novo|apply registros_novo]. }
  assert (invariante s') as Hinv' by (by apply desfazer_invariante).
  destruct (rg_aloc_pedido s Hrg a) as [p Hp].
  { rewrite Hh. apply elem_of_app. right. apply elem_of_cons. by left. }
  pose proof (inv_chaves s Hinv _ _ Hp) as Hid.
  subst s'. destruct (desfazer_eq s antes a Hh) as (s' & Heq & _ & _ & _ & _ & Hcaso).
  rewrite Heq in *. cbn [snd] in *. rewrite Hp in Hcaso. cbn zeta in Hcaso.
  destruct Hcaso as (Hps & Ha & Hm & Hb).
  exists p. split; [done|].
  assert (pedidos s' !! Alocacao.pedido_id a =
            Some (Pedido.set_quantidade (Pedido.quantidade p + Alocacao.quantidade a)
                    (Pedido.set_atendido false p))) as Hp'.
  { by rewrite Hps, lookup_insert_eq. }
  split_and!.
  - done.
  - intros k Hk. by rewrite Hps, lookup_insert_ne.
  - by apply (inv_pendente s' Hinv' _ _ Hp').
  - intros Hat. rewrite Hat, Hid in *. unfold fila_de.
    destruct (nivel_casos (Pedido.prioridade p)) as [Hn|[Hn|Hn]];
      rewrite Hn in *; simpl in *; done.
  - intros Hat. rewrite Hat in *. rewrite Ha, Hm, Hb.
    by repeat destruct (decide _).
Qed.

(** X13: whatever the operations, the units in stock plus the quantities
    of the allocations in the history add up to the quantities donated.  No
    assumption on the identifiers is needed. *)
Theorem circulacao_conservada ops :
  (estoque_total (executar_todas ops novo) +
   soma_lista Alocacao.quantidade
     (historico_alocacoes (executar_todas ops novo)))%Z = total_doado ops.
Proof.
  change (em_circulacao (executar_todas ops novo) = total_doado ops).
  rewrite executar_todas_em_circulacao. unfold em_circulacao, estoque_total.
  simpl. unfold soma_mapa. rewrite map_fold_empty. lia.
Qed.

(** X14: if a donation registered after any operations commits exactly one
    allocation, undoing it gives back the table of requests and the history
    of before the donation; the donated units all stay in stock. *)
Theorem desfazer_anula_doacao ops nome c q d a :
  ids_distintos →
  let s := executar_todas ops novo in
  let s1 := executar (OpDoacao nome c q d) s in
  historico_alocacoes s1 = historico_alocacoes s ++ [a] →
  let s2 := executar OpDesfazer s1 in
  pedidos s2 = pedidos s ∧
  historico_alocacoes s2 = historico_alocacoes s ∧
  estoque_total s2 = (estoque_total s + q)%Z.
Proof.
  intros Hinj s s1 Hh s2.
  assert (invariante s) as Hinv.
  { apply executar_todas_invariante; [done|apply invariante_novo]. }
  assert (historico_alocacoes s2 = historico_alocacoes s) as Hh2.
  { subst s2. unfold executar at 1.
    destruct (desfazer_eq s1 _ a Hh) as (s' & -> & Hh' & _). done. }
  split_and!; [|done|].
  - subst s2 s1. unfold executar in *.
    destruct (registrar_doacao_eq nome c q d s)
      as (s0 & Heq & _ & Hps & Ha & Hm & Hb & _ & Hh0 & _ & Hi & _).
    rewrite Heq in *. cbn [snd] in *. rewrite <- Hps. rewrite <- Hh0 in Hh.
    apply (desfazer_anula_rodada c s0 a); [|done].
    apply (invariante_ext s); [done|lia|by rewrite Ha|by rewrite Hm|by rewrite Hb|done].
  - pose proof (executar_todas_em_circulacao [OpDoacao nome c q d; OpDesfazer] s) as H.
    change (executar_todas [OpDoacao nome c q d; OpDesfazer] s) with s2 in H.
    unfold em_circulacao in H. rewrite Hh2 in H. unfold total_doado in H.
    simpl in H. lia.
Qed.

(** X15: the stock listing never loses a category: whatever the operation,
    the categories [ver_estoque] lists before it are listed after it, also
    when the units of a category were all allocated.  A donation makes its
    category listed, and an undo that finds an allocation makes
    "Desconhecido" listed. *)
Theorem ver_estoque_mantem_categorias op s :
  dom (ver_estoque s) ⊆ dom (ver_estoque (executar op s)) ∧
  match op with
  | OpDoacao _ c _ _ => c ∈ dom (ver_estoque (executar op s))
  | OpDesfazer =>
      historico_alocacoes s ≠ [] →
      "Desconhecido" ∈ dom (ver_estoque (executar op s))
  | _ => True
  end.
Proof.
  unfold ver_estoque. rewrite !dom_fmap_L. split; [apply executar_dom|].
  destruct op as [nome contato|nome c q d|sol c q prio|]; try done.
  - unfold executar.
    destruct (registrar_doacao_eq nome c q d s) as (s1 & -> & He & _).
    cbn [snd]. apply (tentar_alocar_dom c s1). rewrite He, dom_insert.
    apply elem_of_union. left. by apply elem_of_singleton.
  - intros Hne. unfold executar.
    destruct (lista_fim (historico_alocacoes s)) as [Hh|(antes & aloc & Hh)];
      [done|].
    destruct (desfazer_eq s antes aloc Hh) as (s' & -> & _ & He & _).
    cbn [snd]. rewrite He, dom_insert.
    apply elem_of_union. left. by apply elem_of_singleton.
Qed.

(** X16: registering a request makes its category a key of the stock, with
    no unit donated: after the request, [ver_estoque] lists the category
    (with no units, if nothing of it was in stock). *)
Theorem pedido_cria_categoria ops sol c q prio :
  ids_distintos → ids_nao_vazios →
  let s := executar (OpPedido sol c q prio) (executar_todas ops novo) in
  c ∈ dom (ver_estoque s) ∧
  (sem_estoque c (executar_todas ops novo) → ver_estoque s !! c = Some []).
Proof.
  intros Hinj Hnv s.
  assert (invariante (executar_todas ops novo)) as Hinv.
  { apply executar_todas_invariante; [done|apply invariante_novo]. }
  assert (c ∈ dom (estoque s)) as Hdom.
  { subst s. unfold executar.
    destruct (cadastrar_pedido_eq sol c q prio (executar_todas ops novo))
      as (s1 & -> & Hps & Ha & Hm & Hb & _ & _ & _ & _ & Hi & _).
    cbn [snd].
    eapply (tentar_alocar_toca c s1 (uuid (ids_gerados (executar_todas ops novo))));
      [done| |by rewrite Hps, lookup_insert_eq|done|done].
    by refine (pedido_novo_invariante (executar_todas ops novo) s1 prio _
                 Hinj Hinv _ _ _ Hps Ha Hm Hb Hi). }
  unfold ver_estoque. rewrite dom_fmap_L. split; [done|].
  intros Hsem. rewrite lookup_fmap.
  apply elem_of_dom in Hdom as [l Hl]. rewrite Hl. simpl. f_equal.
  assert (itens_de c (estoque s) = []) as Hl0.
  { subst s. unfold executar.
    destruct (cadastrar_pedido_eq sol c q prio (executar_todas ops novo))
      as (s1 & -> & _ & _ & _ & _ & _ & He & _).
    cbn [snd].
    pose proof (tentar_alocar_consumido c s1) as Hcons.
    unfold sem_estoque in Hsem. rewrite <- He in Hsem.
    destruct Hcons as (antes & [Heq|(item & resto & q0 & Heq & _)]);
      rewrite Hsem in Heq.
    - symmetry in Heq. by apply app_eq_nil in Heq as [_ ->].
    - symmetry in Heq. apply app_eq_nil in Heq as [_ Heq]. done. }
  unfold itens_de in Hl0. rewrite Hl in Hl0. simpl in Hl0. by rewrite Hl0.
Qed.


(** X18: a donor registered at any point of a run is stored under the id
    [cadastrar_doador] returned, with the name and contact given, and no
    later operation removes or changes the record, as long as the
    generator repeats no id. *)
Theorem doador_permanece ops nome contato depois :
  ids_distintos →
  let s := executar_todas ops novo in
  let doador := (cadastrar_doador nome contato s).1 in
  doador = Doador.mk (uuid (ids_gerados s)) nome contato ∧
  doadores (executar_todas (ops ++ OpDoador nome contato :: depois) novo)
    !! Doador.id doador = Some doador.
Proof.
  intros Hinj s doador. split; [done|].
  assert (invariante s) as Hinv.
  { apply executar_todas_invariante; [done|apply invariante_novo]. }
  assert (registros s) as Hrg.
  { apply executar_todas_registros; [done|apply invariante_novo|apply registros_novo]. }
  rewrite executar_todas_app. fold s.
  change (executar_todas (OpDoador nome contato :: depois) s)
    with (executar_todas depois (executar (OpDoador nome contato) s)).
  apply executar_todas_doadores.
  - done.
  - by apply executar_invariante.
  - by apply executar_registros.
  - simpl. by rewrite lookup_insert_eq.
Qed.
End Motor.

(** * Closed instances *)


(** C4: a request for "c1" and then one for "c2" are registered at priority
    'alta' in an empty system; there is no stock at all.  Registering the
    second one has turned the high queue to put it in front; the matching
    step for "c1" turns the queue back, so it does change the state. *)
Lemma casamento_gira_a_fila :
  let s1 := (cadastrar_pedido uuid_ex agora_ex "A" "c1" 1 "alta" novo).2 in
  let s := (cadastrar_pedido uuid_ex agora_ex "B" "c2" 1 "alta" s1).2 in
  let s' := _tentar_alocar_para_pedidos uuid_ex agora_ex "c1" s in
  sem_estoque "c1" s ∧
  fila_alta s = ["id1"; "id0"] ∧ fila_alta s' = ["id0"; "id1"] ∧ s' ≠ s.
Proof.
  cbv zeta. split_and!; try (vm_compute; reflexivity).
  intros Heq. apply (f_equal fila_alta) in Heq. vm_compute in Heq. discriminate.
Qed.

Lemma uuid_ex_distintos : ids_distintos uuid_ex.
Proof.
  intros n m Heq. unfold uuid_ex in Heq. simpl in Heq.
  injection Heq as Heq. by apply (inj pretty).
Qed.

Lemma uuid_ex_nao_vazios : ids_nao_vazios uuid_ex.
Proof. intros n. unfold uuid_ex. simpl. discriminate. Qed.

(** C1: after the undo the donated category holds 6 units, not 10; the 4
    units are under "Desconhecido". *)
Lemma desfazer_nao_restaura_categoria :
  let s1 := (registrar_doacao uuid_ex agora_ex "A" "cat" 10 None novo).2 in
  let s2 := (cadastrar_pedido uuid_ex agora_ex "R" "cat" 4 "alta" s1).2 in
  let s3 := (desfazer_ultima_alocacao agora_ex s2).2 in
  oferta "cat" s3 = 6%Z ∧ oferta "cat" s3 ≠ 10%Z ∧
  oferta "Desconhecido" s3 = 4%Z ∧
  ItemDoacao.categoria <$> itens_de "Desconhecido" (estoque s3) = ["Desconhecido"].
Proof. cbv zeta. split_and!; try (vm_compute; reflexivity). by vm_compute. Qed.

Lemma desfazer_devolve_a_desconhecido_witness :
  uuid_ex 1 ≠ "" ∧ "cat" ≠ "Desconhecido" ∧
  oferta "Desconhecido"
    (desfazer_ultima_alocacao agora_ex
       (cadastrar_pedido uuid_ex agora_ex "R" "cat" 4 "alta"
          (registrar_doacao uuid_ex agora_ex "A" "cat" 10 None novo).2).2).2 = 4%Z.
Proof.
  assert (uuid_ex 1 ≠ "") as H1 by (vm_compute; discriminate).
  assert ("cat" ≠ "Desconhecido") as H2 by discriminate.
  split_and!; [exact H1|exact H2|].
  apply (desfazer_devolve_a_desconhecido uuid_ex agora_ex "A" "R" "cat" None H1 H2).
Defined.

(** C2: after a donation of 10, a request for 4 and an undo, the category
    has 6 units in stock and no allocation left, against 10 donated. *)
Lemma conservacao_por_categoria_falha :
  let ops := [OpDoacao "A" "cat" 10 None; OpPedido "R" "cat" 4 "alta"; OpDesfazer] in
  let s := executar_todas uuid_ex agora_ex ops novo in
  let reg := doacoes_de uuid_ex agora_ex ops novo in
  oferta "cat" s = 6%Z ∧ alocado reg "cat" s = 0%Z ∧ doado reg "cat" = 10%Z ∧
  (oferta "cat" s + alocado reg "cat" s)%Z ≠ doado reg "cat".
Proof. cbv zeta. split_and!; try (vm_compute; reflexivity). by vm_compute. Qed.

Lemma conservacao_por_origem_witness :
  ids_distintos uuid_ex ∧
  (em_estoque (doacoes_de uuid_ex agora_ex ops_ex novo) "Alimentos"
     (executar_todas uuid_ex agora_ex ops_ex novo)
   + alocado (doacoes_de uuid_ex agora_ex ops_ex novo) "Alimentos"
       (executar_todas uuid_ex agora_ex ops_ex novo)
   = doado (doacoes_de uuid_ex agora_ex ops_ex novo) "Alimentos")%Z.
Proof.
  split; [exact uuid_ex_distintos|].
  apply (conservacao_por_origem uuid_ex agora_ex ops_ex "Alimentos" uuid_ex_distintos).
Defined.

(** C3: with "f" matched in the queue a, b, f, c, the other entries come
    out as c, a, b. *)
Lemma promover_muda_a_ordem :
  achar "x" {[ "f" := Pedido.mk "f" "F" "x" 1 "alta" "t" false ]}
    ["a"; "b"; "f"; "c"] = Some "f" ∧
  trazer_para_frente "f" ["a"; "b"; "f"; "c"] = ["f"; "c"; "a"; "b"] ∧
  outros "f" (trazer_para_frente "f" ["a"; "b"; "f"; "c"])
    ≠ outros "f" ["a"; "b"; "f"; "c"].
Proof. split_and!; try (vm_compute; reflexivity). by vm_compute. Qed.

Lemma promover_gira_a_fila_witness :
  ∃ antes depois,
    ["a"; "b"; "f"; "c"] = antes ++ "f" :: depois ∧ ("f" ∉ antes) ∧
    trazer_para_frente "f" ["a"; "b"; "f"; "c"] = "f" :: depois ++ antes.
Proof.
  apply (promover_gira_a_fila "x"
           {[ "f" := Pedido.mk "f" "F" "x" 1 "alta" "t" false ]}).
  vm_compute. reflexivity.
Defined.

Lemma casamento_sem_alocacao_witness :
  let s := (cadastrar_pedido uuid_ex agora_ex "A" "c1" 1 "alta" novo).2 in
  filas_validas s ∧ sem_estoque "c1" s ∧
  historico_alocacoes (_tentar_alocar_para_pedidos uuid_ex agora_ex "c1" s) =
    historico_alocacoes s ∧
  _tentar_alocar_para_pedidos uuid_ex agora_ex "c1"
    (_tentar_alocar_para_pedidos uuid_ex agora_ex "c1" s) =
  _tentar_alocar_para_pedidos uuid_ex agora_ex "c1" s.
Proof.
  intros s.
  assert (filas_validas s) as Hval.
  { intros pid Hpid.
    assert (todas s = ["id0"]) as Ht by (vm_compute; reflexivity).
    rewrite Ht in Hpid. apply list_elem_of_singleton in Hpid as ->.
    split; [discriminate|]. eexists. split; [vm_compute; reflexivity|reflexivity]. }
  assert (sem_estoque "c1" s) as Hsem by (vm_compute; reflexivity).
  split_and!; [exact Hval|exact Hsem| |];
    apply (casamento_sem_alocacao uuid_ex agora_ex "c1" s Hval (or_intror Hsem)).
Defined.


(** C8: a request for 0 units registered in an empty system waits in the
    high queue, unsatisfied, with nothing left to ask for. *)
Lemma pedido_de_zero_na_fila :
  let s := executar_todas uuid_ex agora_ex [OpPedido "Fam A" "Roupas" 0 "alta"] novo in
  todas s = ["id0"] ∧
  pedidos s !! "id0" = Some (Pedido.mk "id0" "Fam A" "Roupas" 0 "alta" "t0" false) ∧
  ¬ (∀ k, k ∈ todas s →
       ∃ p, pedidos s !! k = Some p ∧ (0 < Pedido.quantidade p)%Z).
Proof.
  intros s.
  assert (todas s = ["id0"]) as Ht by (vm_compute; reflexivity).
  assert (pedidos s !! "id0" =
            Some (Pedido.mk "id0" "Fam A" "Roupas" 0 "alta" "t0" false)) as Hp
    by (vm_compute; reflexivity).
  split_and!; [exact Ht|exact Hp|].
  intros H. destruct (H "id0") as (p & Hp' & Hq).
  - rewrite Ht. apply list_elem_of_singleton. reflexivity.
  - rewrite Hp in Hp'. injection Hp' as <-. simpl in Hq. lia.
Qed.

Lemma filas_sem_repeticao_witness :
  ids_distintos uuid_ex ∧ NoDup (todas (executar_todas uuid_ex agora_ex ops_ex novo)).
Proof.
  split; [exact uuid_ex_distintos|].
  apply (filas_sem_repeticao uuid_ex agora_ex ops_ex uuid_ex_distintos).
Defined.


Lemma fifo_por_categoria_witness :
  uuid_ex 2 ≠ "" ∧
  oferta "Alimentos"
    (cadastrar_pedido uuid_ex agora_ex "Fam A" "Alimentos" 4 "alta"
       (registrar_doacao uuid_ex agora_ex "Feijao" "Alimentos" 3 None
          (registrar_doacao uuid_ex agora_ex "Arroz" "Alimentos" 5 None novo).2).2).2
    = 4%Z.
Proof.
  assert (uuid_ex 2 ≠ "") as H2 by (vm_compute; discriminate).
  split; [exact H2|].
  apply (fifo_por_categoria uuid_ex agora_ex "Arroz" "Feijao" "Fam A" None None H2).
Defined.

(** * The further properties, on concrete runs *)

Lemma registro_esgota_categoria_witness :
  let s := executar_todas uuid_ex agora_ex ops_ex novo in
  let s' := (registrar_doacao uuid_ex agora_ex "Feijao" "Alimentos" 1 None s).2 in
  ids_distintos uuid_ex ∧ ids_nao_vazios uuid_ex ∧
  (sem_estoque "Alimentos" s' ∨ sem_pendente "Alimentos" s').
Proof.
  split_and!; [exact uuid_ex_distintos|exact uuid_ex_nao_vazios|].
  apply (proj1 (registro_esgota_categoria uuid_ex agora_ex ops_ex
                  uuid_ex_distintos uuid_ex_nao_vazios)).
Defined.

Lemma sem_desfazer_tudo_casado_witness :
  forallb (λ op, negb (e_desfazer op)) ops_parcial = true ∧
  (sem_estoque "Alimentos" (executar_todas uuid_ex agora_ex ops_parcial novo) ∨
   sem_pendente "Alimentos" (executar_todas uuid_ex agora_ex ops_parcial novo)).
Proof.
  split; [reflexivity|].
  apply (sem_desfazer_tudo_casado uuid_ex agora_ex ops_parcial
           uuid_ex_distintos uuid_ex_nao_vazios eq_refl).
Defined.

Lemma atendido_sem_saldo_witness :
  ∃ p,
    pedidos (executar_todas uuid_ex agora_ex ops_atendido novo) !! "id1" = Some p ∧
    Pedido.atendido p = true ∧ Pedido.quantidade p = 0%Z.
Proof.
  exists (Pedido.mk "id1" "Fam A" "Alimentos" 0 "alta" "t2" true).
  assert (pedidos (executar_todas uuid_ex agora_ex ops_atendido novo) !! "id1" =
            Some (Pedido.mk "id1" "Fam A" "Alimentos" 0 "alta" "t2" true)) as Hp
    by (vm_compute; reflexivity).
  split_and!; [exact Hp|reflexivity|].
  apply (atendido_sem_saldo uuid_ex agora_ex ops_atendido "id1" _ Hp eq_refl).
Defined.

Lemma quantidades_positivas_witness :
  Forall op_positiva ops_ex ∧
  ∀ a, a ∈ historico_alocacoes (executar_todas uuid_ex agora_ex ops_parcial novo) →
    (0 < Alocacao.quantidade a)%Z.
Proof.
  assert (Forall op_positiva ops_ex) as Hex by (repeat constructor; simpl; lia).
  assert (Forall op_positiva ops_parcial) as Hp by (repeat constructor; simpl; lia).
  split; [exact Hex|].
  apply (quantidades_positivas uuid_ex agora_ex ops_parcial Hp).
Defined.

Lemma nada_e_sobrescrito_witness :
  ids_distintos uuid_ex ∧
  size (pedidos (executar_todas uuid_ex agora_ex ops_ex novo)) = 1 ∧
  size (doadores (executar_todas uuid_ex agora_ex ops_ex novo)) = 0.
Proof.
  split; [exact uuid_ex_distintos|].
  apply (nada_e_sobrescrito uuid_ex agora_ex ops_ex uuid_ex_distintos).
Defined.

Lemma alocacoes_bem_identificadas_witness :
  ids_distintos uuid_ex ∧
  NoDup (Alocacao.id <$>
           historico_alocacoes (executar_todas uuid_ex agora_ex ops_parcial novo)).
Proof.
  split; [exact uuid_ex_distintos|].
  apply (alocacoes_bem_identificadas uuid_ex agora_ex ops_parcial uuid_ex_distintos).
Defined.

Lemma pedido_conserva_quantidade_witness :
  let s := executar_todas uuid_ex agora_ex ops_ex novo in
  ("id1", 7%Z) ∈ pedidos_de uuid_ex agora_ex ops_ex novo ∧
  ∃ p, pedidos s !! "id1" = Some p ∧ Pedido.id p = "id1" ∧
    (Pedido.quantidade p + recebido "id1" s = 7)%Z.
Proof.
  assert (("id1", 7%Z) ∈ pedidos_de uuid_ex agora_ex ops_ex novo) as Hin.
  { assert (pedidos_de uuid_ex agora_ex ops_ex novo = [("id1", 7%Z)]) as ->
      by (vm_compute; reflexivity).
    apply list_elem_of_singleton. reflexivity. }
  split; [exact Hin|].
  apply (pedido_conserva_quantidade uuid_ex agora_ex ops_ex "id1" 7
           uuid_ex_distintos Hin).
Defined.

Lemma desfazer_sem_historico_witness :
  historico_alocacoes novo = [] ∧
  rejeitada novo (desfazer_ultima_alocacao agora_ex novo).2.
Proof.
  split; [reflexivity|].
  apply (proj2 (desfazer_sem_historico agora_ex novo) eq_refl).
Defined.

Lemma desfazer_desempilha_witness :
  let s := executar_todas uuid_ex agora_ex ops_parcial novo in
  let a := Alocacao.mk "id2" "id0" "id1" 5 "t4" in
  historico_alocacoes s = [] ++ [a] ∧
  historico_alocacoes (desfazer_ultima_alocacao agora_ex s).2 = [] ∧
  estoque_total (desfazer_ultima_alocacao agora_ex s).2 = (estoque_total s + 5)%Z.
Proof.
  intros s a.
  assert (historico_alocacoes s = [] ++ [a]) as Hh by (vm_compute; reflexivity).
  split; [exact Hh|].
  destruct (desfazer_desempilha agora_ex s [] a Hh) as (_ & H1 & _ & _ & H2 & _).
  split; [exact H1|exact H2].
Defined.

Lemma desfazer_reativa_pedido_witness :
  let s := executar_todas uuid_ex agora_ex ops_parcial novo in
  let a := Alocacao.mk "id2" "id0" "id1" 5 "t4" in
  historico_alocacoes s = [] ++ [a] ∧
  ∃ p,
    pedidos s !! "id1" = Some p ∧
    pedidos (desfazer_ultima_alocacao agora_ex s).2 !! "id1" =
      Some (Pedido.set_quantidade (Pedido.quantidade p + 5)
              (Pedido.set_atendido false p)).
Proof.
  intros s a.
  assert (historico_alocacoes s = [] ++ [a]) as Hh by (vm_compute; reflexivity).
  split; [exact Hh|].
  destruct (desfazer_reativa_pedido uuid_ex agora_ex ops_parcial [] a
              uuid_ex_distintos Hh) as (p & H1 & H2 & _).
  exists p. split; [exact H1|exact H2].
Defined.

Lemma desfazer_anula_doacao_witness :
  let s := executar_todas uuid_ex agora_ex [OpPedido "Fam A" "Alimentos" 7 "alta"] novo in
  let s1 := executar uuid_ex agora_ex (OpDoacao "Arroz" "Alimentos" 5 None) s in
  let s2 := executar uuid_ex agora_ex OpDesfazer s1 in
  historico_alocacoes s1 =
    historico_alocacoes s ++ [Alocacao.mk "id2" "id1" "id0" 5 "t4"] ∧
  pedidos s2 = pedidos s ∧
  historico_alocacoes s2 = historico_alocacoes s ∧
  estoque_total s2 = (estoque_total s + 5)%Z.
Proof.
  intros s s1 s2.
  assert (historico_alocacoes s1 =
            historico_alocacoes s ++ [Alocacao.mk "id2" "id1" "id0" 5 "t4"]) as Hh
    by (vm_compute; reflexivity).
  split; [exact Hh|].
  apply (desfazer_anula_doacao uuid_ex agora_ex
           [OpPedido "Fam A" "Alimentos" 7 "alta"] "Arroz" "Alimentos" 5 None
           (Alocacao.mk "id2" "id1" "id0" 5 "t4") uuid_ex_distintos Hh).
Defined.

Lemma ver_estoque_mantem_categorias_witness :
  let s := executar_todas uuid_ex agora_ex ops_parcial novo in
  historico_alocacoes s ≠ [] ∧
  "Desconhecido" ∈ dom (ver_estoque (executar uuid_ex agora_ex OpDesfazer s)).
Proof.
  intros s.
  assert (historico_alocacoes s ≠ []) as Hne by (vm_compute; discriminate).
  split; [exact Hne|].
  apply (proj2 (ver_estoque_mantem_categorias uuid_ex agora_ex OpDesfazer s) Hne).
Defined.

Lemma pedido_cria_categoria_witness :
  let s := executar uuid_ex agora_ex (OpPedido "Fam A" "Roupas" 3 "media")
             (executar_todas uuid_ex agora_ex ops_ex novo) in
  sem_estoque "Roupas" (executar_todas uuid_ex agora_ex ops_ex novo) ∧
  "Roupas" ∈ dom (ver_estoque s) ∧ ver_estoque s !! "Roupas" = Some [].
Proof.
  intros s.
  assert (sem_estoque "Roupas" (executar_todas uuid_ex agora_ex ops_ex novo)) as Hsem
    by (vm_compute; reflexivity).
  destruct (pedido_cria_categoria uuid_ex agora_ex ops_ex "Fam A" "Roupas" 3 "media"
              uuid_ex_distintos uuid_ex_nao_vazios) as [H1 H2].
  split_and!; [exact Hsem|exact H1|exact (H2 Hsem)].
Defined.

Lemma doador_permanece_witness :
  ids_distintos uuid_ex ∧
  doadores (executar_todas uuid_ex agora_ex
              ([] ++ OpDoador "Ana" "ana@ong" :: ops_ex) novo) !! "id0" =
    Some (Doador.mk "id0" "Ana" "ana@ong").
Proof.
  split; [exact uuid_ex_distintos|].
  apply (doador_permanece uuid_ex agora_ex [] "Ana" "ana@ong" ops_ex
           uuid_ex_distintos).
Defined.
